(** * torrent_gui: the presentation layer of the torrent client

    A shallow embedding of [torrent_gui.py]: the file-selection dialog
    ([TorrentAddingDialog]), the list of torrents of the main window
    ([MainWindow]) and the thread that hosts the engine's event loop
    ([ControlManagerThread]), followed by the properties proved about them.

    Conventions of the embedding.
    - A Python object that is mutated in place becomes a field of a record
      that the method takes and returns ([self]).
    - A widget item is an object with an identity: every [QTreeWidgetItem]
      and [QListWidgetItem] carries the number it was allocated with
      ([ident]), and a reference to an item is that number.
    - A raised exception is a value of [exn]; a method that can raise
      returns a [result].
    - Python [str] and [bytes] are [string]s (sequences of bytes; the order
      on UTF-8 encoded text is the order on code points), Python [int] is [Z]. *)

From Stdlib Require Import ZArith String Ascii List Bool Lia.
From stdpp Require Import base numbers option list gmap strings pretty sorting.

Set Warnings "-register-all".

Local Open Scope Z_scope.
Local Open Scope string_scope.
Local Open Scope list_scope.

(** The double quote character, for texts that contain it. *)
Definition dquote : string := String (ascii_of_nat 34) EmptyString.

(** ** Exceptions *)

Inductive exn :=
| ValueError (msg : string)
| KeyError (key : string)
| AttributeError (msg : string)
| RuntimeError (msg : string)
| OSError (msg : string)
| OtherError (msg : string).

Inductive result (A : Type) :=
| Ok (a : A)
| Raise (e : exn).
Arguments Ok {A} a.
Arguments Raise {A} e.

(** ** The toolkit's values that the program uses *)

Module Qt.

Inductive CheckState := Unchecked | PartiallyChecked | Checked.

#[global] Instance CheckState_eq_dec : EqDecision CheckState.
Proof. solve_decision. Defined.

End Qt.

(** [QIcon(os.path.join(ICON_DIRECTORY, name + '.svg'))]: an icon is the
    file it was loaded from, relative to the icon directory. *)
Definition QIcon := string.

Definition load_icon (name : string) : QIcon := name +:+ ".svg".

Definition file_icon : QIcon := load_icon "file".
Definition directory_icon : QIcon := load_icon "directory".

(** A tree item with its two columns. [ident] is the identity of the Python
    object; [children] is the list [child(0) .. child(childCount() - 1)]. *)
Inductive QTreeWidgetItem := mkItem {
  ident : nat;
  text0 : string;
  text1 : string;
  icon : option QIcon;
  checkState : Qt.CheckState;
  children : list QTreeWidgetItem
}.

(** [item.setCheckState(0, s)] *)
Definition setCheckState (s : Qt.CheckState) (item : QTreeWidgetItem) : QTreeWidgetItem :=
  mkItem (ident item) (text0 item) (text1 item) (icon item) s (children item).

Definition setChildren (cs : list QTreeWidgetItem) (item : QTreeWidgetItem) : QTreeWidgetItem :=
  mkItem (ident item) (text0 item) (text1 item) (icon item) (checkState item) cs.

(** The items of a tree in preorder (an item before its children). *)
Fixpoint flatten (item : QTreeWidgetItem) : list QTreeWidgetItem :=
  item :: concat (map flatten (children item)).

Definition flatten_forest (items : list QTreeWidgetItem) : list QTreeWidgetItem :=
  concat (map flatten items).

(** The item reached from [item] by the child indices of [p]. *)
Fixpoint item_at (item : QTreeWidgetItem) (p : list nat) {struct p}
    : option QTreeWidgetItem :=
  match p with
  | [] => Some item
  | i :: q => match children item !! i with
              | Some c => item_at c q
              | None => None
              end
  end.

(** A top-level item of a [QTreeWidget] and then a path below it. *)
Definition forest_at (items : list QTreeWidgetItem) (p : list nat) : option QTreeWidgetItem :=
  match p with
  | [] => None
  | i :: q => match items !! i with
              | Some top => item_at top q
              | None => None
              end
  end.

(** [f] applied to the item at [p], everything else as it was. *)
Fixpoint alter_at (f : QTreeWidgetItem -> QTreeWidgetItem) (item : QTreeWidgetItem)
    (p : list nat) {struct p} : QTreeWidgetItem :=
  match p with
  | [] => f item
  | i :: q => setChildren (alter (fun c => alter_at f c q) i (children item)) item
  end.

Definition forest_alter_at (f : QTreeWidgetItem -> QTreeWidgetItem)
    (items : list QTreeWidgetItem) (p : list nat) : list QTreeWidgetItem :=
  match p with
  | [] => items
  | i :: q => alter (fun top => alter_at f top q) i items
  end.

(** The object behind a reference. *)
Definition item_by_ident (items : list QTreeWidgetItem) (r : nat) : option QTreeWidgetItem :=
  List.find (fun it => Nat.eqb (ident it) r) (flatten_forest items).

(** ** The torrent's metadata *)

Module FileInfo.
(** Modelled from the spec: the class [FileInfo] of [models] is not among the
    sources; the spec has it as [File{path, length}], and the dialog reads
    [node.length] and [node.path]. *)
Record t := mk { length : Z; path : list string }.
End FileInfo.

(** Modelled from the spec: [FileTreeNode] of [models] is not among the
    sources; the spec has it as the recursive variant
    [Directory{children: ordered mapping name -> Node}] or [File{path, length}].
    [entries] is [node.items()] in the mapping's order. *)
Inductive FileTreeNode :=
| File (f : FileInfo.t)
| Directory (entries : list (string * FileTreeNode)).

(** A directory is a mapping: its names are its keys, no two the same. *)
Fixpoint distinct (names : list string) : bool :=
  match names with
  | [] => true
  | name :: rest => negb (existsb (String.eqb name) rest) && distinct rest
  end.

Fixpoint is_mapping (node : FileTreeNode) : bool :=
  match node with
  | File _ => true
  | Directory entries =>
      distinct (map fst entries) && forallb (fun e => is_mapping (snd e)) entries
  end.

Module DownloadInfo.
(** Modelled from the spec: the attributes of [models.DownloadInfo] that the
    window and the dialog read. *)
Record t := mk {
  info_hash : string;
  suggested_name : string;
  file_tree : FileTreeNode;
  files : list FileInfo.t;
  total_size : Z;
  single_file_mode : bool
}.
End DownloadInfo.

Module TorrentInfo.
(** Modelled from the spec: the attributes of [models.TorrentInfo] that the
    dialog reads and writes. *)
Record t := mk {
  download_info : DownloadInfo.t;
  announce_list : list (list string);
  download_dir : option string
}.

Definition set_download_dir (d : string) (ti : t) : t :=
  mk (download_info ti) (announce_list ti) (Some d).
End TorrentInfo.

(** ** TorrentAddingDialog *)

Module TorrentAddingDialog.

(** What the dialog asks of its collaborators, in the order it asks.
    [call_soon_threadsafe_add] carries the torrent with the attributes the
    dialog wrote; [select_files] is a method of [models.DownloadInfo], which
    is not among the sources, and what it writes into the torrent it is
    called on is not shown. *)
Inductive call :=
| select_files (file_paths : list (list string)) (mode : string)
| call_soon_threadsafe_add (torrent_info : TorrentInfo.t)
| close.

(** The class attribute [TorrentAddingDialog.selected_download_dir]: one
    value for the class, shared by every dialog. *)
Record class_attrs := mkClass { selected_download_dir : string }.

(** The instance attributes. [file_tree] is the top-level items of the
    [QTreeWidget] of files; a pair of [_file_items] holds a reference to an
    item of that tree. [ok_enabled] is the state of the Ok button of
    [_button_box], [closed] whether [close()] was called. *)
Record t := mk {
  _torrent_info : TorrentInfo.t;
  _path_edit : string;
  url_tree : list (string * list string);
  file_tree : list QTreeWidgetItem;
  _file_items : list (FileInfo.t * nat);
  _selection_label : string;
  ok_enabled : bool;
  window_title : string;
  closed : bool
}.

Definition set_path_edit (s : string) (self : t) : t :=
  mk (_torrent_info self) s (url_tree self) (file_tree self) (_file_items self)
     (_selection_label self) (ok_enabled self) (window_title self) (closed self).

Definition set_file_tree (ft : list QTreeWidgetItem) (self : t) : t :=
  mk (_torrent_info self) (_path_edit self) (url_tree self) ft (_file_items self)
     (_selection_label self) (ok_enabled self) (window_title self) (closed self).

Definition set_selection (enabled : bool) (label : string) (self : t) : t :=
  mk (_torrent_info self) (_path_edit self) (url_tree self) (file_tree self) (_file_items self)
     label enabled (window_title self) (closed self).

Definition set_torrent_info (ti : TorrentInfo.t) (self : t) : t :=
  mk ti (_path_edit self) (url_tree self) (file_tree self) (_file_items self)
     (_selection_label self) (ok_enabled self) (window_title self) (closed self).

Definition set_closed (self : t) : t :=
  mk (_torrent_info self) (_path_edit self) (url_tree self) (file_tree self) (_file_items self)
     (_selection_label self) (ok_enabled self) (window_title self) true.

Section WithUtils.

(** [utils.humanize_size] is not among the sources: the text it renders for
    a size is left open. *)
Variable humanize_size : Z -> string.

(** ['Selected {} files ({})'.format(count, size_text)] *)
Definition SELECTION_LABEL_FORMAT (count : Z) (size_text : string) : string :=
  "Selected " +:+ pretty count +:+ " files (" +:+ size_text +:+ ")".

(** [_traverse_file_tree(name, node, parent)]. [next] is the identity the
    next [QTreeWidgetItem(parent)] gets and [items] is [self._file_items];
    the result is the item appended to [parent], with both updated. *)
Fixpoint _traverse_file_tree (name : string) (node : FileTreeNode)
    (next : nat) (items : list (FileInfo.t * nat))
    : QTreeWidgetItem * nat * list (FileInfo.t * nat) :=
  match node with
  | File f =>
      (mkItem next name (humanize_size (FileInfo.length f)) (Some file_icon) Qt.Checked [],
       S next, items ++ [(f, next)])
  | Directory entries =>
      let fix each (es : list (string * FileTreeNode)) (next : nat)
                   (items : list (FileInfo.t * nat)) :=
        match es with
        | [] => ([], next, items)
        | (name, child) :: es' =>
            let '(c, next1, items1) := _traverse_file_tree name child next items in
            let '(cs, next2, items2) := each es' next1 items1 in
            (c :: cs, next2, items2)
        end in
      let '(cs, next', items') := each entries (S next) items in
      (mkItem next name "" (Some directory_icon) Qt.Checked cs, next', items')
  end.

(** The loop of [_traverse_file_tree] over [node.items()], by itself. *)
Fixpoint _traverse_entries (es : list (string * FileTreeNode))
    (next : nat) (items : list (FileInfo.t * nat))
    : list QTreeWidgetItem * nat * list (FileInfo.t * nat) :=
  match es with
  | [] => ([], next, items)
  | (name, child) :: es' =>
      let '(c, next1, items1) := _traverse_file_tree name child next items in
      let '(cs, next2, items2) := _traverse_entries es' next1 items1 in
      (c :: cs, next2, items2)
  end.

(** [file_tree.sortItems(0, Qt.AscendingOrder)]: the items of every level
    ordered by the text of column 0. The names of a level are the keys of
    a mapping, so no two items of a level have the same text. The
    toolkit's comparison of two texts is not among the sources; it is
    taken to be [String.ltb], and what is proved below uses only that
    sorting rearranges the items of a level and changes none. *)
Fixpoint insert_item (x : QTreeWidgetItem) (l : list QTreeWidgetItem) : list QTreeWidgetItem :=
  match l with
  | [] => [x]
  | y :: l' => if String.ltb (text0 x) (text0 y) then x :: l
               else y :: insert_item x l'
  end.

Definition sort_level (l : list QTreeWidgetItem) : list QTreeWidgetItem :=
  fold_right insert_item [] l.

Fixpoint sortItems_item (item : QTreeWidgetItem) : QTreeWidgetItem :=
  setChildren (sort_level (map sortItems_item (children item))) item.

Definition sortItems (items : list QTreeWidgetItem) : list QTreeWidgetItem :=
  sort_level (map sortItems_item items).

(** [_get_directory_browse_widget]: the line edit starts with the class
    attribute. *)
Definition _get_directory_browse_widget (cls : class_attrs) : string :=
  selected_download_dir cls.

(** [_browse]: [chosen] is what [QFileDialog.getExistingDirectory] returned,
    the empty string when the user cancelled. *)
Definition _browse (self : t) (cls : class_attrs) (chosen : string) : t * class_attrs :=
  if decide (chosen = "") then (self, cls)
  else (set_path_edit chosen self, mkClass chosen).

(** [__init__(parent, filename, torrent_info, control_thread)]: the widgets
    that hold state, in the order they are made. The Ok button of the
    button box starts enabled. *)
Definition __init__ (cls : class_attrs) (filename : string) (torrent_info : TorrentInfo.t) : t :=
  let download_info := TorrentInfo.download_info torrent_info in
  let path_edit := _get_directory_browse_widget cls in
  let url_tree :=
    imap (fun i tier => ("Tier " +:+ pretty (Z.of_nat i + 1), tier))
         (TorrentInfo.announce_list torrent_info) in
  let '(top, _, file_items) :=
    _traverse_file_tree (DownloadInfo.suggested_name download_info)
                        (DownloadInfo.file_tree download_info) 0%nat [] in
  let file_tree := sortItems [top] in
  let selection_label :=
    SELECTION_LABEL_FORMAT (Z.of_nat (List.length (DownloadInfo.files download_info)))
                           (humanize_size (DownloadInfo.total_size download_info)) in
  mk torrent_info path_edit url_tree file_tree file_items selection_label true
     ("Adding " +:+ dquote +:+ filename +:+ dquote) false.

(** [_set_check_state_to_tree(item, check_state)]: for every child,
    [child.setCheckState(0, check_state)] and the call on the child. The two
    write different attributes of the child (its state, the states below
    it), so the child after both is written here as one expression. *)
Fixpoint _set_check_state_to_tree (item : QTreeWidgetItem) (check_state : Qt.CheckState)
    {struct item} : QTreeWidgetItem :=
  setChildren
    (map (fun child => setCheckState check_state (_set_check_state_to_tree child check_state))
         (children item))
    item.

(** The three flags of the loop over the children of an ancestor. *)
Record flags := mkFlags {
  has_checked_children : bool;
  has_partially_checked_children : bool;
  has_unchecked_children : bool
}.

Definition scan_child (fl : flags) (child : QTreeWidgetItem) : flags :=
  match checkState child with
  | Qt.Checked =>
      mkFlags true (has_partially_checked_children fl) (has_unchecked_children fl)
  | Qt.PartiallyChecked =>
      mkFlags (has_checked_children fl) true (has_unchecked_children fl)
  | Qt.Unchecked =>
      mkFlags (has_checked_children fl) (has_partially_checked_children fl) true
  end.

Definition scan_children (item : QTreeWidgetItem) : flags :=
  fold_left scan_child (children item) (mkFlags false false false).

Definition new_state (item : QTreeWidgetItem) : Qt.CheckState :=
  let fl := scan_children item in
  if negb (has_partially_checked_children fl) && negb (has_unchecked_children fl)
  then Qt.Checked
  else if has_checked_children fl || has_partially_checked_children fl
  then Qt.PartiallyChecked
  else Qt.Unchecked.

(** An item together with the chain of its parents: each entry of [up] is a
    parent and the index of the child the chain comes from, nearest parent
    first. [item.parent()] is the head of [up] with that child put back. *)
Definition parents := list (QTreeWidgetItem * nat).

Definition put_child (parent : QTreeWidgetItem) (i : nat) (child : QTreeWidgetItem)
    : QTreeWidgetItem :=
  setChildren (<[i := child]> (children parent)) parent.

Fixpoint locate (item : QTreeWidgetItem) (up : parents) (p : list nat) {struct p}
    : option (QTreeWidgetItem * parents) :=
  match p with
  | [] => Some (item, up)
  | i :: q => match children item !! i with
              | Some c => locate c ((item, i) :: up) q
              | None => None
              end
  end.

(** The [while True] loop of [_update_checkboxes]: from the parent of
    [item] to the top-level item, which has no parent; the result is the
    top-level item. *)
Fixpoint _update_ancestors (item : QTreeWidgetItem) (up : parents) : QTreeWidgetItem :=
  match up with
  | [] => item
  | (parent, i) :: up' =>
      let item := put_child parent i item in
      _update_ancestors (setCheckState (new_state item) item) up'
  end.

(** [item.checkState(0) == Qt.Checked] for a reference [item] of
    [_file_items]. *)
Definition is_checked (file_tree : list QTreeWidgetItem) (item : nat) : bool :=
  match item_by_ident file_tree item with
  | Some it => bool_decide (checkState it = Qt.Checked)
  | None => false
  end.

(** The loop of [_update_selection_label] over [self._file_items], with its
    two counters. *)
Definition count_selected (file_tree : list QTreeWidgetItem)
    (acc : Z * Z) (entry : FileInfo.t * nat) : Z * Z :=
  let '(selected_file_count, selected_size) := acc in
  let '(node, item) := entry in
  if is_checked file_tree item
  then (selected_file_count + 1, selected_size + FileInfo.length node)
  else (selected_file_count, selected_size).

Definition selected_totals (self : t) : Z * Z :=
  fold_left (count_selected (file_tree self)) (_file_items self) (0, 0).

(** [_update_selection_label] *)
Definition _update_selection_label (self : t) : t :=
  let '(selected_file_count, selected_size) := selected_totals self in
  if decide (selected_file_count = 0)
  then set_selection false "Nothing to download" self
  else set_selection true
         (SELECTION_LABEL_FORMAT selected_file_count (humanize_size selected_size)) self.

(** [_update_checkboxes(item, column)]: [item] is the place of the clicked
    item in the tree, the index of a top-level item first. The toolkit
    passes an item of the tree; for a place that holds none the dialog is
    left as it is. *)
Definition _update_checkboxes (self : t) (item : list nat) (column : Z) : t :=
  if decide (column <> 0) then self
  else
    match item with
    | [] => self
    | i :: q =>
        match file_tree self !! i with
        | None => self
        | Some top =>
            match locate top [] q with
            | None => self
            | Some (it, up) =>
                let new_check_state := checkState it in
                let it := _set_check_state_to_tree it new_check_state in
                let top := _update_ancestors it up in
                _update_selection_label (set_file_tree (<[i := top]> (file_tree self)) self)
            end
        end
    end.

(** A click on the check box of the item at [item]: the toolkit writes the
    new state [s] of the box to the item and emits [itemClicked(item, 0)],
    to which [__init__] connected [_update_checkboxes]. *)
Definition toggle (self : t) (item : list nat) (s : Qt.CheckState) : t :=
  _update_checkboxes
    (set_file_tree (forest_alter_at (setCheckState s) (file_tree self) item) self) item 0.

(** One click after another. *)
Definition toggles (self : t) (clicks : list (list nat * Qt.CheckState)) : t :=
  fold_left (fun d '(item, s) => toggle d item s) clicks self.

(** [submit_torrent]: the dialog, the torrent it hands over and the calls
    it makes. *)
Definition checked_paths (self : t) : list (list string) :=
  fold_left (fun file_paths '(node, item) =>
               if is_checked (file_tree self) item
               then file_paths ++ [FileInfo.path node]
               else file_paths)
            (_file_items self) [].

Definition submit_torrent (self : t) (cls : class_attrs) : t * list call :=
  let torrent_info :=
    TorrentInfo.set_download_dir (selected_download_dir cls) (_torrent_info self) in
  let file_paths := checked_paths self in
  let selecting :=
    if DownloadInfo.single_file_mode (TorrentInfo.download_info torrent_info)
    then []
    else [select_files file_paths "whitelist"] in
  (set_closed (set_torrent_info torrent_info self),
   selecting ++ [call_soon_threadsafe_add torrent_info; close]).

End WithUtils.

End TorrentAddingDialog.

(** ** The engine's view of a torrent *)

Module TorrentState.
(** Modelled from the spec: [models.TorrentState] is not among the sources;
    the spec has it as the snapshot [{id, displayName, ..., paused, complete,
    singleFileMode}]. These are the attributes the list of the main window
    depends on. *)
Record t := mk {
  info_hash : string;
  suggested_name : string;
  single_file_mode : bool;
  paused : bool;
  complete : bool
}.

Definition set_paused (b : bool) (s : t) : t :=
  mk (info_hash s) (suggested_name s) (single_file_mode s) b (complete s).
End TorrentState.

Module ControlManager.

(** The signals of the engine that [MainWindow.__init__] connects to. *)
Inductive signal :=
| torrent_added (state : TorrentState.t)
| torrent_changed (state : TorrentState.t)
| torrent_removed (info_hash : string).

(** Modelled from the spec: [control_manager.ControlManager] is not among
    the sources. The spec has the commands [pause(id)], [resume(id)] and
    [remove(id)], which fail with NotFound when the id is unknown, and the
    events [changed(snapshot)] and [removed(id)] that the engine emits for a
    torrent it knows. NotFound is raised as the [ValueError] that
    [_invoke_control_action] names. *)
Record t := mk { torrents : gmap string TorrentState.t }.

(** Modelled from the spec: the failure NotFound of a control action, as
    the exception the source suppresses. *)
Definition NotFound : exn := ValueError "Torrent is not found".

(** Modelled from the spec: [pause(id)] fails with NotFound when the id is
    unknown; for a torrent the engine knows it emits its changed snapshot. *)
Definition pause (info_hash : string) (self : t) : result unit * t * list signal :=
  match torrents self !! info_hash with
  | None => (Raise NotFound, self, [])
  | Some st =>
      let st' := TorrentState.set_paused true st in
      (Ok tt, mk (<[info_hash := st']> (torrents self)), [torrent_changed st'])
  end.

(** Modelled from the spec: [resume(id)], as [pause(id)]. *)
Definition resume (info_hash : string) (self : t) : result unit * t * list signal :=
  match torrents self !! info_hash with
  | None => (Raise NotFound, self, [])
  | Some st =>
      let st' := TorrentState.set_paused false st in
      (Ok tt, mk (<[info_hash := st']> (torrents self)), [torrent_changed st'])
  end.

(** Modelled from the spec: [remove(id)] fails with NotFound when the id is
    unknown; for a torrent the engine knows it emits [removed(id)]. *)
Definition remove (info_hash : string) (self : t) : result unit * t * list signal :=
  match torrents self !! info_hash with
  | None => (Raise NotFound, self, [])
  | Some _ => (Ok tt, mk (delete info_hash (torrents self)), [torrent_removed info_hash])
  end.

End ControlManager.

(** ** MainWindow *)

Module TorrentWidgetItem.
(** The widget of a row. [_add_torrent_item] constructs it and assigns its
    [state] before the row exists, so the widget of a row holds a state; the
    texts of its labels and its progress bar are renderings of that state. *)
Record t := mk { state : TorrentState.t }.
End TorrentWidgetItem.

Module QListWidgetItem.
(** An item of the list: [ident] is the identity of the object, [data] what
    [setData(Qt.UserRole, ...)] stored, [selected] whether the user has it
    selected. *)
Record t := mk {
  ident : nat;
  icon : QIcon;
  data : string;
  selected : bool
}.
End QListWidgetItem.

Module MainWindow.

(** A row of [_list_widget]: the item and the widget [setItemWidget] gave it. *)
Definition row : Type := QListWidgetItem.t * TorrentWidgetItem.t.

Definition row_state (r : row) : TorrentState.t := TorrentWidgetItem.state (snd r).
Definition row_name (r : row) : string := TorrentState.suggested_name (row_state r).
Definition row_ident (r : row) : nat := QListWidgetItem.ident (fst r).
Definition row_data (r : row) : string := QListWidgetItem.data (fst r).

(** [_torrent_to_item] maps an info hash to a reference to an item;
    [next_item] is the identity the next [QListWidgetItem()] gets. *)
Record t := mk {
  _list_widget : list row;
  _torrent_to_item : gmap string nat;
  next_item : nat;
  pause_enabled : bool;
  resume_enabled : bool;
  remove_enabled : bool
}.

Definition __init__ : t := mk [] ∅ 0%nat false false false.

(** The loop of [_add_torrent_item] that counts [items_upper]: it stops at
    the first row whose name is greater than the new one. *)
Fixpoint items_upper (rows : list row) (name : string) : nat :=
  match rows with
  | [] => 0%nat
  | prev_item :: rows' =>
      if String.ltb name (row_name prev_item) then 0%nat
      else S (items_upper rows' name)
  end.

(** [insertItem(row, item)] *)
Definition insertItem (n : nat) (r : row) (rows : list row) : list row :=
  take n rows ++ r :: drop n rows.

(** [_update_control_action_state] *)
Definition scan_selected (acc : bool * bool * bool) (r : row) : bool * bool * bool :=
  let '(pause, resume, remove) := acc in
  if QListWidgetItem.selected (fst r)
  then if TorrentState.paused (row_state r)
       then (pause, true, true)
       else (true, resume, true)
  else acc.

Definition _update_control_action_state (self : t) : t :=
  let '(pause, resume, remove) :=
    fold_left scan_selected (_list_widget self) (false, false, false) in
  mk (_list_widget self) (_torrent_to_item self) (next_item self) pause resume remove.

(** [_add_torrent_item(state)] *)
Definition _add_torrent_item (self : t) (state : TorrentState.t) : t :=
  let widget := TorrentWidgetItem.mk state in
  let item :=
    QListWidgetItem.mk (next_item self)
      (if TorrentState.single_file_mode state then file_icon else directory_icon)
      (TorrentState.info_hash state) false in
  let items_upper := items_upper (_list_widget self) (TorrentState.suggested_name state) in
  mk (insertItem items_upper (item, widget) (_list_widget self))
     (<[TorrentState.info_hash state := QListWidgetItem.ident item]> (_torrent_to_item self))
     (S (next_item self))
     (pause_enabled self) (resume_enabled self) (remove_enabled self).

(** [self._list_widget.row(item)]: the index of the row of that item. *)
Fixpoint row_of (rows : list row) (item : nat) : option nat :=
  match rows with
  | [] => None
  | r :: rows' => if Nat.eqb (row_ident r) item then Some 0%nat
                  else S <$> row_of rows' item
  end.

(** [widget.state = state] on the widget of the item [item]. *)
Definition set_widget_state (item : nat) (state : TorrentState.t) (r : row) : row :=
  if Nat.eqb (row_ident r) item then (fst r, TorrentWidgetItem.mk state) else r.

(** [_update_torrent_item(state)] *)
Definition _update_torrent_item (self : t) (state : TorrentState.t) : result t :=
  match _torrent_to_item self !! TorrentState.info_hash state with
  | None => Raise (KeyError (TorrentState.info_hash state))
  | Some item =>
      match row_of (_list_widget self) item with
      | None => Raise (AttributeError "'NoneType' object has no attribute 'state'")
      | Some _ =>
          Ok (_update_control_action_state
                (mk (map (set_widget_state item state) (_list_widget self))
                    (_torrent_to_item self) (next_item self)
                    (pause_enabled self) (resume_enabled self) (remove_enabled self)))
      end
  end.

(** [takeItem(row)]: [row(item)] is -1 for an item that is not in the list,
    and [takeItem(-1)] takes nothing. *)
Definition takeItem (n : option nat) (rows : list row) : list row :=
  match n with
  | Some n => delete n rows
  | None => rows
  end.

(** [_remove_torrent_item(info_hash)] *)
Definition _remove_torrent_item (self : t) (info_hash : string) : result t :=
  match _torrent_to_item self !! info_hash with
  | None => Raise (KeyError info_hash)
  | Some item =>
      Ok (_update_control_action_state
            (mk (takeItem (row_of (_list_widget self) item) (_list_widget self))
                (delete info_hash (_torrent_to_item self)) (next_item self)
                (pause_enabled self) (resume_enabled self) (remove_enabled self)))
  end.

(** What [TorrentInfo.from_file(filename, download_dir=None)] did: it
    returned a torrent, or it raised an exception [err], of which the slot
    uses [str(err)] only: [message]. *)
Inductive parse_result :=
| Parsed (torrent_info : TorrentInfo.t)
| Failed (message : string).

(** [_add_torrent_triggered]: [filename] is what the file chooser returned,
    empty when it was dismissed. The result is the text of the message box
    ([str(err)], which for the [ValueError] raised here is the text it was
    raised with), or the torrent the adding dialog is opened for. *)
Definition _add_torrent_triggered (self : t) (filename : string)
    (parsed : parse_result) : option (string + TorrentInfo.t) :=
  if decide (filename = "") then None
  else
    match parsed with
    | Failed message => Some (inl message)
    | Parsed torrent_info =>
        if decide (is_Some (_torrent_to_item self
                              !! DownloadInfo.info_hash (TorrentInfo.download_info torrent_info)))
        then Some (inl "This torrent is already added")
        else Some (inr torrent_info)
    end.

(** A control action of the engine: what it returns or raises, the engine
    after it and the signals it emitted. *)
Definition action : Type :=
  string -> ControlManager.t -> result unit * ControlManager.t * list ControlManager.signal.

(** [_invoke_control_action(action, info_hash)], run on the engine's loop:
    the call and the await of its result are both inside the [try]. *)
Definition _invoke_control_action (act : action) (info_hash : string)
    (control : ControlManager.t)
    : result unit * ControlManager.t * list ControlManager.signal :=
  let '(r, control', signals) := act info_hash control in
  match r with
  | Raise (ValueError _) => (Ok tt, control', signals)
  | _ => (r, control', signals)
  end.

(** The three slots as operations on the list of the window. *)
Inductive op :=
| added (state : TorrentState.t)
| changed (state : TorrentState.t)
| removed (info_hash : string).

Definition step (self : t) (o : op) : result t :=
  match o with
  | added state => Ok (_add_torrent_item self state)
  | changed state => _update_torrent_item self state
  | removed info_hash => _remove_torrent_item self info_hash
  end.

(** A slot that raises leaves the window as it was: it raises before it
    has written anything. *)
Definition apply (self : t) (o : op) : t :=
  match step self o with
  | Ok self' => self'
  | Raise _ => self
  end.

Definition run (self : t) (ops : list op) : t := fold_left apply ops self.

End MainWindow.

(** ** ControlManagerThread *)

Module ControlManagerThread.

(** What the thread and its caller do to the loop, the engine and the state
    file, in the order it happens. *)
Inductive effect :=
| new_event_loop
| set_event_loop
| control_start
| isfile (found : bool)
| open_rb
| control_load
| run_forever
| open_wb
| control_dump
| loop_close
| run_coroutine_threadsafe_control_stop
| add_done_callback_loop_stop
| control_stop
| loop_stop
| wait.

(** What the calls that can fail return or raise in one life of the thread. *)
Record outcomes := mkOutcomes {
  control_start_result : result unit;
  state_file_found : bool;
  open_rb_result : result unit;
  control_load_result : result unit;
  open_wb_result : result unit;
  control_dump_result : result unit
}.

(** [_loop]: [None] until [run] creates the loop; then the loop, which is
    running inside [run_forever] until [run] leaves it and [closing] closes
    it. [run] assigns [_loop] before [control.start()] and [_load_state], so
    for a while the loop exists and is not yet inside [run_forever]: a
    [stop] at that moment runs beside the rest of [run], and what comes of
    it depends on which gets where first. That moment is not a state here;
    [stop] is modelled on a thread that has not run, that is inside
    [run_forever], or whose [run] is over. *)
Inductive loop := LoopRunning | LoopClosed.

(** [finished] is what [run] returned or raised once it is over; [trace] is
    everything done so far, the latest last. *)
Record t := mk {
  _loop : option loop;
  _stopping : bool;
  finished : option (result unit);
  trace : list effect
}.

Definition __init__ : t := mk None false None [].

Definition emit (es : list effect) (self : t) : t :=
  mk (_loop self) (_stopping self) (finished self) (trace self ++ es).

(** [_load_state] *)
Definition _load_state (o : outcomes) (self : t) : result unit * t :=
  if state_file_found o then
    match open_rb_result o with
    | Raise e => (Raise e, emit [isfile true; open_rb] self)
    | Ok _ =>
        match control_load_result o with
        | Raise e => (Raise e, emit [isfile true; open_rb; control_load] self)
        | Ok _ => (Ok tt, emit [isfile true; open_rb; control_load] self)
        end
    end
  else (Ok tt, emit [isfile false] self).

(** [_save_state] *)
Definition _save_state (o : outcomes) (self : t) : result unit * t :=
  match open_wb_result o with
  | Raise e => (Raise e, emit [open_wb] self)
  | Ok _ =>
      match control_dump_result o with
      | Raise e => (Raise e, emit [open_wb; control_dump] self)
      | Ok _ => (Ok tt, emit [open_wb; control_dump] self)
      end
  end.

(** [with closing(self._loop)] left with the result [r]. *)
Definition leave_closing (r : result unit) (self : t) : t :=
  mk (Some LoopClosed) (_stopping self) (Some r) (trace self ++ [loop_close]).

(** [run] up to the call of [run_forever]: the thread is then inside
    [run_forever] ([_loop] is [Some LoopRunning]), or [run] is over. *)
Definition run_enter (o : outcomes) (self : t) : t :=
  let self := emit [new_event_loop; set_event_loop; control_start] self in
  match control_start_result o with
  | Raise e => leave_closing (Raise e) self
  | Ok _ =>
      match _load_state o self with
      | (Raise e, self) => leave_closing (Raise e) self
      | (Ok _, self) =>
          mk (Some LoopRunning) (_stopping self) None (trace self ++ [run_forever])
      end
  end.

(** [run] from the return of [run_forever]: the [finally], then the end of
    the [with]. *)
Definition run_leave (o : outcomes) (self : t) : t :=
  let '(r, self) := _save_state o self in
  leave_closing r self.

(** [stop]. While the caller is blocked in [wait()], the loop runs the
    scheduled [control.stop()], the callback stops the loop, and [run]
    goes on from the return of [run_forever] to its end: [wait()] returns
    when the thread is over, so by then all of this has happened, in this
    order. That [control.stop()] completes is taken for granted (the
    callback runs when it returns and when it raises); if it never does,
    [wait()] does not return. *)
Definition stop (o : outcomes) (self : t) : result unit * t :=
  if _stopping self then (Ok tt, self)
  else
    let self := mk (_loop self) true (finished self) (trace self) in
    match _loop self with
    | None =>
        (Raise (AttributeError "'NoneType' object has no attribute 'call_soon_threadsafe'"), self)
    | Some LoopClosed => (Raise (RuntimeError "Event loop is closed"), self)
    | Some LoopRunning =>
        let self :=
          emit [run_coroutine_threadsafe_control_stop; add_done_callback_loop_stop;
                control_stop; loop_stop] self in
        let self := run_leave o self in
        (Ok tt, emit [wait] self)
    end.

(** How often an effect occurs in a trace. *)
Definition occurrences (is_it : effect -> bool) (self : t) : nat :=
  List.length (List.filter is_it (trace self)).


Definition is_open_wb (e : effect) : bool :=
  match e with open_wb => true | _ => false end.


Definition is_run_forever (e : effect) : bool :=
  match e with run_forever => true | _ => false end.

Definition is_control_load (e : effect) : bool :=
  match e with control_load => true | _ => false end.

(** [_save_state] opens the state file first, and nothing else opens it
    for writing: the number of times [_save_state] was entered. Whether the
    state was written then is told by [dumps] and by what [run] ended with. *)
Definition saves (self : t) : nat := occurrences is_open_wb self.



End ControlManagerThread.

(** ** The sessions of the adding dialog *)

Module Sessions.

Import TorrentAddingDialog.

(** What the user does between the start of the program and its end, as far
    as the adding dialog is concerned. [MainWindow._add_torrent_triggered]
    constructs a dialog and runs it with [exec()], so one dialog is open
    at a time and the main window is not reachable meanwhile. *)
Inductive event :=
| open_dialog (filename : string) (torrent_info : TorrentInfo.t)
| browse (chosen : string)
| item_clicked (item : list nat) (written : option Qt.CheckState) (column : Z)
| ok_clicked
| cancel_clicked.

(** The class attribute, the dialog that is open, and the calls made so far. *)
Record t := mk {
  cls : class_attrs;
  dialog : option TorrentAddingDialog.t;
  calls : list call
}.

(** [selected_download_dir = os.getcwd()], evaluated with the class. *)
Definition start (cwd : string) : t := mk (mkClass cwd) None [].

Section WithUtils.

Variable humanize_size : Z -> string.

Definition step (st : t) (e : event) : t :=
  match e, dialog st with
  | open_dialog filename torrent_info, None =>
      mk (cls st) (Some (__init__ humanize_size (cls st) filename torrent_info)) (calls st)
  | browse chosen, Some d =>
      let '(d', cls') := _browse d (cls st) chosen in
      mk cls' (Some d') (calls st)
  | item_clicked item written column, Some d =>
      let d :=
        match written with
        | Some s => set_file_tree (forest_alter_at (setCheckState s) (file_tree d) item) d
        | None => d
        end in
      mk (cls st) (Some (_update_checkboxes humanize_size d item column)) (calls st)
  | ok_clicked, Some d =>
      if ok_enabled d then
        let '(_, cs) := submit_torrent d (cls st) in
        mk (cls st) None (calls st ++ cs)
      else st
  | cancel_clicked, Some d => mk (cls st) None (calls st ++ [close])
  | _, _ => st
  end.

Definition run (st : t) (es : list event) : t := fold_left step es st.

End WithUtils.

(** The events that choose a download directory. *)
Definition chooses_directory (e : event) : bool :=
  match e with
  | browse chosen => negb (String.eqb chosen "")
  | _ => false
  end.

End Sessions.

(** ** The words of the specification *)

Module Spec.

Import TorrentAddingDialog.

(** Upward aggregation as the specification words it: Checked if all
    children are Checked; Unchecked if all children are Unchecked; Partial
    otherwise. *)
Definition aggregate (children_states : list Qt.CheckState) : Qt.CheckState :=
  if forallb (fun s => bool_decide (s = Qt.Checked)) children_states then Qt.Checked
  else if forallb (fun s => bool_decide (s = Qt.Unchecked)) children_states then Qt.Unchecked
  else Qt.PartiallyChecked.

(** The file node that [_file_items] pairs with an item. *)
Fixpoint file_of (file_items : list (FileInfo.t * nat)) (item : nat) : option FileInfo.t :=
  match file_items with
  | [] => None
  | (node, r) :: rest => if Nat.eqb r item then Some node else file_of rest item
  end.

(** The Checked leaves as the dialog records them: the items of the tree,
    in the order of the tree, that [_file_items] pairs with a file and that
    are Checked. These read the dialog's own list; [file_leaves] below finds
    the leaves without it, and [reachable_selection] shows that the two
    agree in every dialog that [__init__] built. *)
Definition checked_leaf (file_items : list (FileInfo.t * nat)) (it : QTreeWidgetItem)
    : option FileInfo.t :=
  if bool_decide (checkState it = Qt.Checked) then file_of file_items (ident it) else None.

Definition checked_leaves (self : TorrentAddingDialog.t) : list FileInfo.t :=
  omap (checked_leaf (_file_items self)) (flatten_forest (file_tree self)).

Definition selectedCount (self : TorrentAddingDialog.t) : Z :=
  Z.of_nat (List.length (checked_leaves self)).

Definition selectedSize (self : TorrentAddingDialog.t) : Z :=
  fold_right Z.add 0 (map FileInfo.length (checked_leaves self)).

(** The selection tree mirrors the torrent's tree of files, and a leaf
    references its file. [item_named] is the item of a level that shows a
    name; [leaves node item] walks the tree of files [node] in its order
    beside the item that shows it, and gives every file with the item that
    shows it. Nothing here reads [_file_items], the dialog's own record of
    which item stands for which file. *)
Definition item_named (name : string) (items : list QTreeWidgetItem) : option QTreeWidgetItem :=
  find (fun c => String.eqb (text0 c) name) items.

Fixpoint leaves (node : FileTreeNode) (item : QTreeWidgetItem)
    : list (FileInfo.t * QTreeWidgetItem) :=
  match node with
  | File f => [(f, item)]
  | Directory entries =>
      concat (map (fun e => match item_named (fst e) (children item) with
                            | Some c => leaves (snd e) c
                            | None => []
                            end) entries)
  end.

(** The leaves of the tree of a dialog: the top-level item shows the
    torrent's tree of files under the suggested name. *)
Definition file_leaves (self : TorrentAddingDialog.t) : list (FileInfo.t * QTreeWidgetItem) :=
  let download_info := TorrentInfo.download_info (_torrent_info self) in
  match item_named (DownloadInfo.suggested_name download_info) (file_tree self) with
  | Some top_item => leaves (DownloadInfo.file_tree download_info) top_item
  | None => []
  end.

(** The files of the torrent whose leaf is Checked, in the order of the
    torrent, their number and the sum of their lengths. *)
Definition checked_files (self : TorrentAddingDialog.t) : list FileInfo.t :=
  map fst (List.filter (fun leaf => bool_decide (checkState (snd leaf) = Qt.Checked))
                       (file_leaves self)).

Definition checked_count (self : TorrentAddingDialog.t) : Z :=
  Z.of_nat (List.length (checked_files self)).

Definition checked_size (self : TorrentAddingDialog.t) : Z :=
  fold_right Z.add 0 (map FileInfo.length (checked_files self)).

(** No two items of the tree are the same object, and no two pairs of
    [_file_items] hold the same item. *)
Definition consistent (self : TorrentAddingDialog.t) : Prop :=
  NoDup (map ident (flatten_forest (file_tree self)))
  /\ NoDup (map snd (_file_items self)).

(** The list of the main window: sorted by name, and the info hashes of the
    dictionary are those of the rows. *)
Definition sorted_by_name (w : MainWindow.t) : Prop :=
  forall i j ri rj,
    (i < j)%nat ->
    MainWindow._list_widget w !! i = Some ri ->
    MainWindow._list_widget w !! j = Some rj ->
    String.leb (MainWindow.row_name ri) (MainWindow.row_name rj) = true.

Definition dictionary_ids (w : MainWindow.t) : gset string :=
  dom (MainWindow._torrent_to_item w).

Definition sequence_ids (w : MainWindow.t) : gset string :=
  list_to_set (map MainWindow.row_data (MainWindow._list_widget w)).

Definition registry_invariant (w : MainWindow.t) : Prop :=
  sorted_by_name w /\ dictionary_ids w = sequence_ids w.

(** An operation the engine can ask for: it adds a torrent only under an id
    that is not in the dictionary, and a snapshot of a torrent has the name
    the torrent was added with. *)
Definition admissible (w : MainWindow.t) (o : MainWindow.op) : Prop :=
  match o with
  | MainWindow.added state =>
      MainWindow._torrent_to_item w !! TorrentState.info_hash state = None
  | MainWindow.changed state =>
      forall r, r ∈ MainWindow._list_widget w ->
        MainWindow.row_data r = TorrentState.info_hash state ->
        MainWindow.row_name r = TorrentState.suggested_name state
  | MainWindow.removed _ => True
  end.

Fixpoint admissible_run (w : MainWindow.t) (ops : list MainWindow.op) : Prop :=
  match ops with
  | [] => True
  | o :: ops' => admissible w o /\ admissible_run (MainWindow.apply w o) ops'
  end.

End Spec.

(** ** Notions the proofs use *)

Import TorrentAddingDialog.

(** The chain of parents that [locate] builds. *)
Definition up_path (up : parents) : list nat := rev (map snd up).

Definition up_ok (up : parents) : Prop :=
  Forall (fun pi => (snd pi < List.length (children (fst pi)))%nat) up.

Definition weigh (w : FileInfo.t -> Z) (l : list FileInfo.t) : Z :=
  fold_right Z.add 0 (map w l).

(** What one pair of [_file_items] adds to a total. *)
Definition pair_weight (w : FileInfo.t -> Z) (file_tree : list QTreeWidgetItem)
    (entry : FileInfo.t * nat) : Z :=
  if is_checked file_tree (snd entry) then w (fst entry) else 0.

(** What an item of the tree adds to a total. *)
Definition leaf_weight (w : FileInfo.t -> Z) (file_items : list (FileInfo.t * nat))
    (it : QTreeWidgetItem) : Z :=
  match Spec.checked_leaf file_items it with
  | Some f => w f
  | None => 0
  end.

Definition ids (item : QTreeWidgetItem) : list nat := map ident (flatten item).

Definition forest_ids (items : list QTreeWidgetItem) : list nat :=
  map ident (flatten_forest items).

(** The chain of parents of an item holds, at the index it records, an item
    of the same identities. *)
Fixpoint chain_ok (below : list nat) (up : parents) : Prop :=
  match up with
  | [] => True
  | (parent, i) :: up' =>
      (exists c0, children parent !! i = Some c0 /\ ids c0 = below)
      /\ chain_ok (ids parent) up'
  end.

Fixpoint top_ids (below : list nat) (up : parents) : list nat :=
  match up with
  | [] => below
  | (parent, _) :: up' => top_ids (ids parent) up'
  end.

(** The references [_traverse_file_tree] adds to [_file_items]. *)
Definition fresh_pairs (next next' : nat) (items items' : list (FileInfo.t * nat)) : Prop :=
  exists new,
    items' = items ++ new
    /\ NoDup (map snd new)
    /\ forall r, In r (map snd new) -> (next <= r < next')%nat.

Definition name_le (a b : MainWindow.row) : Prop :=
  String.leb (MainWindow.row_name a) (MainWindow.row_name b) = true.

Definition rows_sorted (rows : list MainWindow.row) : Prop := StronglySorted name_le rows.

(** What the slots keep, beyond what the specification asks: rows are
    distinct objects, no two rows are of the same torrent, and the
    dictionary maps an info hash to the item of its row. *)
Definition registry_ok (w : MainWindow.t) : Prop :=
  rows_sorted (MainWindow._list_widget w)
  /\ NoDup (map MainWindow.row_ident (MainWindow._list_widget w))
  /\ NoDup (map MainWindow.row_data (MainWindow._list_widget w))
  /\ (forall r, r ∈ MainWindow._list_widget w ->
        (MainWindow.row_ident r < MainWindow.next_item w)%nat)
  /\ (forall h i,
        MainWindow._torrent_to_item w !! h = Some i
        <-> exists r, r ∈ MainWindow._list_widget w
                      /\ MainWindow.row_data r = h /\ MainWindow.row_ident r = i).

(** The files of a tree of files, in its order. *)
Fixpoint files_of (node : FileTreeNode) : list FileInfo.t :=
  match node with
  | File f => [f]
  | Directory entries => concat (map (fun e => files_of (snd e)) entries)
  end.

(** An item that stands for the file [f]: it has no children, it is
    Checked, and its second column shows the size of the file. *)
Definition file_item (size_text : Z -> string) (f : FileInfo.t) (it : QTreeWidgetItem) : Prop :=
  children it = [] /\ checkState it = Qt.Checked /\ text1 it = size_text (FileInfo.length f).

(** An item with the states of its tree put aside: what is left is the
    identities, the texts and the icons of the items, in their places. *)
Fixpoint skeleton (item : QTreeWidgetItem) : QTreeWidgetItem :=
  mkItem (ident item) (text0 item) (text1 item) (icon item) Qt.Unchecked
         (map skeleton (children item)).

(** The chain of parents of an item holds, at the index it records, an item
    of the same skeleton. *)
Fixpoint chain_alike (below : QTreeWidgetItem) (up : parents) : Prop :=
  match up with
  | [] => True
  | (parent, i) :: up' =>
      (exists c0, children parent !! i = Some c0 /\ skeleton c0 = below)
      /\ chain_alike (skeleton parent) up'
  end.

Fixpoint top_skeleton (below : QTreeWidgetItem) (up : parents) : QTreeWidgetItem :=
  match up with
  | [] => below
  | (parent, _) :: up' => top_skeleton (skeleton parent) up'
  end.

(** An item with children has the state the aggregation gives it. *)
Definition aggregated (item : QTreeWidgetItem) : Prop :=
  children item = [] \/ checkState item = Spec.aggregate (map checkState (children item)).

(** Off the way to the item at [p], the trees are aggregated. *)
Fixpoint beside_ok (item : QTreeWidgetItem) (p : list nat) {struct p} : Prop :=
  match p with
  | [] => True
  | i :: q =>
      (forall j c, j <> i -> children item !! j = Some c -> Forall aggregated (flatten c))
      /\ match children item !! i with
         | Some c => beside_ok c q
         | None => True
         end
  end.

Definition chain_beside_ok (up : parents) : Prop :=
  Forall (fun pi => forall j c, j <> snd pi -> children (fst pi) !! j = Some c ->
                     Forall aggregated (flatten c)) up.

(** A leaf as [_file_items] would record it: the file and the identity of
    its item. *)
Definition recorded (leaf : FileInfo.t * QTreeWidgetItem) : FileInfo.t * nat :=
  (fst leaf, ident (snd leaf)).

(** The bytes of a list of files. *)
Definition total_length (files : list FileInfo.t) : Z :=
  fold_right Z.add 0 (map FileInfo.length files).

(** The pairs of [_file_items] whose item is Checked. *)
Definition checked_pairs (file_tree : list QTreeWidgetItem)
    (file_items : list (FileInfo.t * nat)) : list (FileInfo.t * nat) :=
  List.filter (fun entry => is_checked file_tree (snd entry)) file_items.

(** The events the toolkit delivers for torrents that have a file: a check
    box is written only by a click in column 0, the one column that has
    check boxes. *)
Definition deliverable (e : Sessions.event) : Prop :=
  match e with
  | Sessions.open_dialog _ torrent_info =>
      files_of (DownloadInfo.file_tree (TorrentInfo.download_info torrent_info)) <> []
  | Sessions.item_clicked _ written column => column = 0 \/ written = None
  | _ => True
  end.

(** A dialog whose Ok button tells whether a file is selected. *)
Definition button_ok (d : TorrentAddingDialog.t) : Prop :=
  Spec.consistent d /\ ok_enabled d = negb (Z.eqb (Spec.selectedCount d) 0).

(** A session whose open dialog, if any, has its button right, and which
    never asked for an empty selection. *)
Definition session_ok (st : Sessions.t) : Prop :=
  (forall d, Sessions.dialog st = Some d -> button_ok d)
  /\ (forall file_paths mode, In (select_files file_paths mode) (Sessions.calls st) ->
        file_paths <> [] /\ mode = "whitelist").

(** A session whose open dialog, if any, shows the directory of the class. *)
Definition shows_directory (st : Sessions.t) : Prop :=
  forall d, Sessions.dialog st = Some d ->
            _path_edit d = selected_download_dir (Sessions.cls st).

(** What every sequence of slots keeps, admissible or not: the rows are
    distinct objects made before [next_item], and an item that the
    dictionary holds is the item of a row of its torrent. *)
Definition items_live (w : MainWindow.t) : Prop :=
  NoDup (map MainWindow.row_ident (MainWindow._list_widget w))
  /\ (forall r, r ∈ MainWindow._list_widget w ->
        (MainWindow.row_ident r < MainWindow.next_item w)%nat)
  /\ (forall h i,
        MainWindow._torrent_to_item w !! h = Some i ->
        exists r, r ∈ MainWindow._list_widget w
                  /\ MainWindow.row_data r = h /\ MainWindow.row_ident r = i).

(** The rows the user has selected. *)
Definition selected_rows (w : MainWindow.t) : list MainWindow.row :=
  List.filter (fun r => QListWidgetItem.selected (fst r)) (MainWindow._list_widget w).


(** ** Scenarios *)

(** A rendering of sizes to run the dialog with. *)
Definition humanize (n : Z) : string := pretty n +:+ " B".

(** The tree of the specification's scenario: [a/x.txt] of 100 bytes,
    [a/y.txt] of 200 and [b/z.txt] of 50. *)
Definition scenario_files : list FileInfo.t :=
  [FileInfo.mk 100 ["a"; "x.txt"]; FileInfo.mk 200 ["a"; "y.txt"]; FileInfo.mk 50 ["b"; "z.txt"]].

Definition scenario_tree : FileTreeNode :=
  Directory
    [("a", Directory [("x.txt", File (FileInfo.mk 100 ["a"; "x.txt"]));
                      ("y.txt", File (FileInfo.mk 200 ["a"; "y.txt"]))]);
     ("b", Directory [("z.txt", File (FileInfo.mk 50 ["b"; "z.txt"]))])].

Definition scenario_info : TorrentInfo.t :=
  TorrentInfo.mk (DownloadInfo.mk "c0ffee" "album" scenario_tree scenario_files 350 false)
                 [["http://tracker.example/announce"]] None.

Definition scenario : TorrentAddingDialog.t :=
  TorrentAddingDialog.__init__ humanize (TorrentAddingDialog.mkClass "/home/user")
    "album.torrent" scenario_info.

(** Only [y.txt] and [z.txt] checked: everything unchecked at the top, then
    the two files checked. *)
Definition only_y_and_z : list (list nat * Qt.CheckState) :=
  [([0], Qt.Unchecked); ([0; 0; 1], Qt.Checked); ([0; 1; 0], Qt.Checked)]%nat.

(** A torrent of one file: the tree of files is the file itself, the case
    [_traverse_file_tree] meets in its first call. *)
Definition single_file : FileInfo.t := FileInfo.mk 4096 [].

Definition single_file_info : TorrentInfo.t :=
  TorrentInfo.mk (DownloadInfo.mk "decade" "disk.img" (File single_file) [single_file] 4096 true)
                 [] None.

Definition single_file_dialog : TorrentAddingDialog.t :=
  TorrentAddingDialog.__init__ humanize (TorrentAddingDialog.mkClass "/home/user")
    "disk.torrent" single_file_info.

(** A torrent that has no file: its tree of files is an empty directory. *)
Definition no_files_info : TorrentInfo.t :=
  TorrentInfo.mk (DownloadInfo.mk "e0" "empty" (Directory []) [] 0 false) [] None.

(** A session: a dialog is open for the scenario's torrent. Later the user
    clicks an item, submits, opens a dialog for another torrent and
    dismisses a directory chooser without choosing. *)
Definition session_with_dialog : Sessions.t :=
  Sessions.step humanize (Sessions.start "/home/user")
    (Sessions.open_dialog "album.torrent" scenario_info).

Definition later_events : list Sessions.event :=
  [Sessions.item_clicked [0; 0]%nat (Some Qt.Unchecked) 0;
   Sessions.ok_clicked;
   Sessions.open_dialog "disk.torrent" single_file_info;
   Sessions.browse ""].

(** Snapshots of two torrents. *)
Definition alpha : TorrentState.t := TorrentState.mk "aa" "alpha" false false false.
Definition beta : TorrentState.t := TorrentState.mk "bb" "beta" true false false.
Definition beta_paused : TorrentState.t := TorrentState.mk "bb" "beta" true true false.
Definition beta_renamed : TorrentState.t := TorrentState.mk "bb" "aardvark" true false false.

Definition signals : list MainWindow.op :=
  [MainWindow.added beta; MainWindow.added alpha; MainWindow.changed beta_paused;
   MainWindow.removed "aa"].

(** A session in which the files of [a] are unchecked and the dialog is
    submitted, and one in which a directory is chosen. *)
Definition submit_b_only : list Sessions.event :=
  [Sessions.open_dialog "album.torrent" scenario_info;
   Sessions.item_clicked [0; 0]%nat (Some Qt.Unchecked) 0;
   Sessions.item_clicked [0; 1]%nat None 1;
   Sessions.ok_clicked].

Definition choose_directory : list Sessions.event :=
  [Sessions.open_dialog "album.torrent" scenario_info; Sessions.browse "/mnt/media"].

(** A life of the thread in which the engine does not start. *)
Definition engine_does_not_start : ControlManagerThread.outcomes :=
  ControlManagerThread.mkOutcomes (Raise (OtherError "address already in use"))
    true (Ok tt) (Ok tt) (Ok tt) (Ok tt).

(** A life of the thread in which everything works, and one in which the
    state file is there and cannot be loaded. *)
Definition all_well : ControlManagerThread.outcomes :=
  ControlManagerThread.mkOutcomes (Ok tt) true (Ok tt) (Ok tt) (Ok tt) (Ok tt).

Definition corrupt_state_file : ControlManagerThread.outcomes :=
  ControlManagerThread.mkOutcomes (Ok tt) true (Ok tt)
    (Raise (OtherError "invalid load key")) (Ok tt) (Ok tt).



(** * Properties *)

(** ** Items and trees *)

Lemma QTreeWidgetItem_tree_ind (P : QTreeWidgetItem -> Prop) :
  (forall i t0 t1 ic s cs, Forall P cs -> P (mkItem i t0 t1 ic s cs)) ->
  forall item, P item.
Proof.
  intros step. fix IH 1. intros [i t0 t1 ic s cs]. apply step.
  induction cs as [|c cs IHcs]; constructor; [apply IH | exact IHcs].
Qed.

Lemma scan_children_fold (l : list QTreeWidgetItem) (fl : flags) :
  let r := fold_left scan_child l fl in
  has_checked_children r
    = has_checked_children fl || existsb (fun c => bool_decide (checkState c = Qt.Checked)) l
  /\ has_partially_checked_children r
    = has_partially_checked_children fl
      || existsb (fun c => bool_decide (checkState c = Qt.PartiallyChecked)) l
  /\ has_unchecked_children r
    = has_unchecked_children fl
      || existsb (fun c => bool_decide (checkState c = Qt.Unchecked)) l.
Proof.
  revert fl. induction l as [|c l IH]; intros fl; simpl.
  - rewrite !orb_false_r. auto.
  - destruct (IH (scan_child fl c)) as (H1 & H2 & H3).
    rewrite H1, H2, H3. unfold scan_child.
    destruct (checkState c); simpl; rewrite ?orb_true_r, ?orb_false_r, ?orb_assoc; auto.
Qed.

Lemma all_checked_flags (l : list QTreeWidgetItem) :
  forallb (fun s => bool_decide (s = Qt.Checked)) (map checkState l)
  = negb (existsb (fun c => bool_decide (checkState c = Qt.PartiallyChecked)) l)
    && negb (existsb (fun c => bool_decide (checkState c = Qt.Unchecked)) l).
Proof.
  induction l as [|c l IH]; simpl; [reflexivity|].
  rewrite IH. destruct (checkState c); simpl; rewrite ?andb_false_r; reflexivity.
Qed.

Lemma all_unchecked_flags (l : list QTreeWidgetItem) :
  forallb (fun s => bool_decide (s = Qt.Unchecked)) (map checkState l)
  = negb (existsb (fun c => bool_decide (checkState c = Qt.Checked)) l)
    && negb (existsb (fun c => bool_decide (checkState c = Qt.PartiallyChecked)) l).
Proof.
  induction l as [|c l IH]; simpl; [reflexivity|].
  rewrite IH. destruct (checkState c); simpl; rewrite ?andb_false_r; reflexivity.
Qed.

(** The flags of the source decide what the specification words decide. *)
Lemma new_state_aggregate (item : QTreeWidgetItem) :
  new_state item = Spec.aggregate (map checkState (children item)).
Proof.
  unfold new_state, scan_children.
  destruct (scan_children_fold (children item) (mkFlags false false false)) as (H1 & H2 & H3).
  simpl in H1, H2, H3. rewrite H1, H2, H3. clear H1 H2 H3.
  unfold Spec.aggregate. rewrite all_checked_flags, all_unchecked_flags.
  destruct (existsb _ _), (existsb _ _), (existsb _ _); reflexivity.
Qed.

Lemma item_at_app (item : QTreeWidgetItem) (p q : list nat) :
  item_at item (p ++ q) = item_at item p ≫= fun x => item_at x q.
Proof.
  revert item. induction p as [|i p IH]; intros item; simpl; [reflexivity|].
  destruct (children item !! i); simpl; auto.
Qed.

Lemma set_check_state_children (item : QTreeWidgetItem) (s : Qt.CheckState) :
  children (_set_check_state_to_tree item s)
  = map (fun c => setCheckState s (_set_check_state_to_tree c s)) (children item).
Proof. destruct item; reflexivity. Qed.

Lemma set_check_state_checkState (item : QTreeWidgetItem) (s : Qt.CheckState) :
  checkState (_set_check_state_to_tree item s) = checkState item.
Proof. destruct item; reflexivity. Qed.

(** Below an item that [_set_check_state_to_tree] went through, every item
    has the state. *)
Lemma set_check_state_below (s : Qt.CheckState) (q : list nat) :
  forall item x,
    item_at (setCheckState s (_set_check_state_to_tree item s)) q = Some x ->
    checkState x = s.
Proof.
  induction q as [|i q IH]; intros item x; simpl.
  - intros [= <-]. reflexivity.
  - rewrite set_check_state_children.
    change (map ?f ?l) with (f <$> l). rewrite list_lookup_fmap.
    destruct (children item !! i) as [c|]; simpl; [|discriminate].
    apply IH.
Qed.

Lemma set_check_state_descendants (s : Qt.CheckState) (item : QTreeWidgetItem)
    (i : nat) (q : list nat) (x : QTreeWidgetItem) :
  item_at (_set_check_state_to_tree item s) (i :: q) = Some x -> checkState x = s.
Proof.
  simpl. rewrite set_check_state_children.
  change (map ?f ?l) with (f <$> l). rewrite list_lookup_fmap.
  destruct (children item !! i) as [c|]; simpl; [|discriminate].
  apply set_check_state_below.
Qed.

Lemma locate_spec (p : list nat) :
  forall item up x up',
    locate item up p = Some (x, up') ->
    up_path up' = up_path up ++ p /\ (up_ok up -> up_ok up') /\ item_at item p = Some x.
Proof.
  induction p as [|i p IH]; intros item up x up'; simpl.
  - intros [= <- <-]. rewrite app_nil_r. auto.
  - destruct (children item !! i) as [c|] eqn:Hc; [|discriminate].
    intros H. apply IH in H as (H1 & H2 & H3).
    split; [|split]; [| |exact H3].
    + rewrite H1. unfold up_path. simpl. rewrite <- app_assoc. reflexivity.
    + intros Hup. apply H2. constructor; [|exact Hup].
      simpl. apply lookup_lt_Some in Hc. exact Hc.
Qed.

Lemma locate_is_Some (p : list nat) :
  forall item up x,
    item_at item p = Some x -> exists up', locate item up p = Some (x, up').
Proof.
  induction p as [|i p IH]; intros item up x; simpl.
  - intros [= <-]. eauto.
  - destruct (children item !! i) as [c|]; [|discriminate]. apply IH.
Qed.

(** What the loop over the ancestors leaves: the item in its place, and
    every ancestor with the state that its children decide. *)
Lemma update_ancestors_spec (up : parents) :
  forall item,
    up_ok up ->
    item_at (_update_ancestors item up) (up_path up) = Some item
    /\ forall q i rest,
         up_path up = q ++ i :: rest ->
         exists a,
           item_at (_update_ancestors item up) q = Some a
           /\ checkState a = Spec.aggregate (map checkState (children a)).
Proof.
  induction up as [|[parent i] up IH]; intros item Hok.
  - split; [reflexivity|]. intros q i rest H. destruct q; discriminate.
  - inversion Hok as [|? ? Hi Hup]; subst. simpl in Hi.
    set (plugged := put_child parent i item).
    set (parent' := setCheckState (new_state plugged) plugged).
    destruct (IH parent' Hup) as [Hat Hanc].
    change (_update_ancestors item ((parent, i) :: up))
      with (_update_ancestors parent' up).
    assert (Hpath : up_path ((parent, i) :: up) = up_path up ++ [i]) by reflexivity.
    rewrite Hpath. split.
    + rewrite item_at_app, Hat. simpl.
      rewrite list_lookup_insert_eq by exact Hi. reflexivity.
    + intros q j rest Hq.
      destruct (exists_last (l := j :: rest)) as (rest' & k & Hlast); [discriminate|].
      rewrite Hlast, app_assoc in Hq. apply app_inj_tail in Hq as [Hq ->].
      destruct rest' as [|j' rest'].
      * rewrite app_nil_r in Hq. subst q. exists parent'. split; [exact Hat|].
        unfold parent'. simpl. apply new_state_aggregate.
      * assert (j' = j) as -> by (simpl in Hlast; congruence).
        apply (Hanc q j rest'). exact Hq.
Qed.

Section Dialog.

Variable humanize_size : Z -> string.

(** The cases of [_update_checkboxes]: a click that changes nothing closes
    the goal, and the click on an item [it] of the tree, with the chain [up]
    of its parents below the top-level item [top], is left. *)
Ltac click_cases self item column i q top it up Htop Hloc :=
  unfold _update_checkboxes;
  destruct (decide (column <> 0)); [reflexivity|];
  destruct item as [|i q]; [reflexivity|];
  destruct (file_tree self !! i) as [top|] eqn:Htop; [|reflexivity];
  destruct (locate top [] q) as [[it up]|] eqn:Hloc; [|reflexivity].

Lemma update_selection_label_file_tree (self : TorrentAddingDialog.t) :
  file_tree (_update_selection_label humanize_size self) = file_tree self.
Proof.
  unfold _update_selection_label. destruct (selected_totals self) as [n sz].
  destruct (decide (n = 0)); reflexivity.
Qed.

Lemma update_selection_label_file_items (self : TorrentAddingDialog.t) :
  _file_items (_update_selection_label humanize_size self) = _file_items self.
Proof.
  unfold _update_selection_label. destruct (selected_totals self) as [n sz].
  destruct (decide (n = 0)); reflexivity.
Qed.

(** The tree that [_update_checkboxes] leaves for a click in column 0. *)
Lemma update_checkboxes_file_tree (self : TorrentAddingDialog.t)
    (i : nat) (q : list nat) (it : QTreeWidgetItem) :
  forest_at (file_tree self) (i :: q) = Some it ->
  exists top up,
    file_tree self !! i = Some top
    /\ locate top [] q = Some (it, up)
    /\ file_tree (_update_checkboxes humanize_size self (i :: q) 0)
       = <[i := _update_ancestors (_set_check_state_to_tree it (checkState it)) up]>
           (file_tree self).
Proof.
  unfold forest_at, _update_checkboxes.
  destruct (file_tree self !! i) as [top|] eqn:Htop; [|discriminate].
  intros Hit. destruct (locate_is_Some q top [] it Hit) as [up Hup].
  exists top, up. rewrite Hup. split; [reflexivity|]. split; [reflexivity|].
  destruct (decide (0 <> 0)) as [Hc|_]; [contradiction Hc; reflexivity|].
  rewrite update_selection_label_file_tree. reflexivity.
Qed.

Lemma update_checkboxes_other_column (self : TorrentAddingDialog.t)
    (item : list nat) (column : Z) :
  column <> 0 -> _update_checkboxes humanize_size self item column = self.
Proof.
  intros H. unfold _update_checkboxes. destruct (decide (column <> 0)); [reflexivity | contradiction].
Qed.

(** After a click in column 0 the clicked item is in its place with its
    descendants set, and its ancestors have the states of the aggregation. *)
Lemma update_checkboxes_spec (self : TorrentAddingDialog.t)
    (item : list nat) (it : QTreeWidgetItem) :
  forest_at (file_tree self) item = Some it ->
  let self' := _update_checkboxes humanize_size self item 0 in
  forest_at (file_tree self') item = Some (_set_check_state_to_tree it (checkState it))
  /\ forall q j rest,
       item = q ++ j :: rest -> q <> [] ->
       exists a,
         forest_at (file_tree self') q = Some a
         /\ checkState a = Spec.aggregate (map checkState (children a)).
Proof.
  destruct item as [|i p]; [discriminate|]. intros Hit self'.
  destruct (update_checkboxes_file_tree self i p it Hit) as (top & up & Htop & Hloc & Hft).
  subst self'. rewrite Hft.
  destruct (locate_spec p top [] it up Hloc) as (Hpath & Hok & _).
  change (up_path []) with (@nil nat) in Hpath. simpl in Hpath.
  specialize (Hok (Forall_nil_2 _)).
  destruct (update_ancestors_spec up (_set_check_state_to_tree it (checkState it)) Hok)
    as [Hat Hanc].
  rewrite Hpath in Hat, Hanc.
  assert (Hi : (i < List.length (file_tree self))%nat) by (eapply lookup_lt_Some; eauto).
  split.
  - unfold forest_at. rewrite list_lookup_insert_eq by exact Hi. exact Hat.
  - intros q j rest Hq Hne. destruct q as [|i' q]; [congruence|].
    simpl in Hq. injection Hq as <- Hq.
    unfold forest_at. rewrite list_lookup_insert_eq by exact Hi.
    apply (Hanc q j rest Hq).
Qed.

Lemma alter_at_item_at (f : QTreeWidgetItem -> QTreeWidgetItem) (p : list nat) :
  forall item, item_at (alter_at f item p) p = f <$> item_at item p.
Proof.
  induction p as [|i p IH]; intros item; simpl; [reflexivity|].
  destruct (children item !! i) as [c|] eqn:Hc.
  - erewrite list_lookup_alter_eq. rewrite Hc. simpl. apply IH.
  - rewrite list_lookup_alter_eq, Hc. reflexivity.
Qed.

Lemma forest_alter_at_forest_at (f : QTreeWidgetItem -> QTreeWidgetItem)
    (items : list QTreeWidgetItem) (p : list nat) :
  forest_at (forest_alter_at f items p) p = f <$> forest_at items p.
Proof.
  destruct p as [|i p]; simpl; [reflexivity|].
  rewrite list_lookup_alter_eq.
  destruct (items !! i) as [top|]; simpl; [apply alter_at_item_at | reflexivity].
Qed.

Lemma forest_at_app (items : list QTreeWidgetItem) (p q : list nat) :
  p <> [] ->
  forest_at items (p ++ q) = forest_at items p ≫= fun x => item_at x q.
Proof.
  destruct p as [|i p]; [congruence|]. intros _. simpl.
  destruct (items !! i) as [top|]; simpl; [apply item_at_app | reflexivity].
Qed.

Lemma forest_at_nonempty (items : list QTreeWidgetItem) (p : list nat) :
  is_Some (forest_at items p) -> p <> [].
Proof. destruct p; [intros [x Hx]; discriminate | discriminate]. Qed.

(** The item a click is made on, once the toolkit has written the state. *)
Lemma toggle_clicked_item (self : TorrentAddingDialog.t) (item : list nat)
    (s : Qt.CheckState) (it : QTreeWidgetItem) :
  forest_at (file_tree self) item = Some it ->
  forest_at (file_tree (toggle humanize_size self item s)) item
  = Some (_set_check_state_to_tree (setCheckState s it) s).
Proof.
  intros Hit. unfold toggle.
  set (self1 := set_file_tree _ self).
  assert (H1 : forest_at (file_tree self1) item = Some (setCheckState s it)).
  { unfold self1. simpl. rewrite forest_alter_at_forest_at, Hit. reflexivity. }
  destruct (update_checkboxes_spec self1 item _ H1) as [H _]. exact H.
Qed.

(** C3. Downward propagation: after a click that sets the item at [item]
    to the state [s], the item and every descendant of it, at whatever depth
    [q] below it, has the state [s]; none keeps another state. *)
Theorem downward_propagation (self : TorrentAddingDialog.t) (item : list nat)
    (s : Qt.CheckState) :
  is_Some (forest_at (file_tree self) item) ->
  forall q x,
    forest_at (file_tree (toggle humanize_size self item s)) (item ++ q) = Some x ->
    checkState x = s.
Proof.
  intros Hsome q x. pose proof (forest_at_nonempty _ _ Hsome) as Hne.
  destruct Hsome as [it Hit].
  rewrite forest_at_app by exact Hne.
  rewrite (toggle_clicked_item self item s it Hit). cbn [mbind option_bind].
  destruct q as [|i q].
  - intros [= <-]. destruct it; reflexivity.
  - apply set_check_state_descendants.
Qed.

(** C1. Upward aggregation: after a click on the item at [item], made after
    any clicks before it on any tree, every ancestor of the item (the item
    at a proper prefix [q] of its place) has the state the specification
    words: Checked if all its children are, Unchecked if all its children
    are, Partial otherwise. *)
Theorem upward_aggregation (self0 : TorrentAddingDialog.t)
    (clicks : list (list nat * Qt.CheckState)) (item : list nat) (s : Qt.CheckState) :
  let self := toggles humanize_size self0 clicks in
  is_Some (forest_at (file_tree self) item) ->
  forall q j rest,
    item = q ++ j :: rest -> q <> [] ->
    exists a,
      forest_at (file_tree (toggle humanize_size self item s)) q = Some a
      /\ checkState a = Spec.aggregate (map checkState (children a)).
Proof.
  intros self [it Hit] q j rest Hq Hne. unfold toggle.
  set (self1 := set_file_tree _ self).
  assert (H1 : forest_at (file_tree self1) item = Some (setCheckState s it)).
  { unfold self1. simpl. rewrite forest_alter_at_forest_at, Hit. reflexivity. }
  destruct (update_checkboxes_spec self1 item _ H1) as [_ H].
  exact (H q j rest Hq Hne).
Qed.

(** *** The totals of the selection *)

Lemma weigh_count (l : list FileInfo.t) :
  weigh (fun _ => 1) l = Z.of_nat (List.length l).
Proof.
  unfold weigh. induction l as [|f l IH]; simpl List.length; [reflexivity|].
  simpl. rewrite IH. lia.
Qed.

Lemma selected_totals_fold (file_tree : list QTreeWidgetItem)
    (file_items : list (FileInfo.t * nat)) (n sz : Z) :
  fold_left (count_selected file_tree) file_items (n, sz)
  = (n + fold_right Z.add 0 (map (pair_weight (fun _ => 1) file_tree) file_items),
     sz + fold_right Z.add 0 (map (pair_weight FileInfo.length file_tree) file_items)).
Proof.
  revert n sz. induction file_items as [|[node r] l IH]; intros n sz; simpl.
  - f_equal; lia.
  - unfold pair_weight at 1 3. simpl. destruct (is_checked file_tree r).
    + rewrite IH. f_equal; lia.
    + rewrite IH. f_equal; lia.
Qed.

Lemma weigh_omap (w : FileInfo.t -> Z) (file_items : list (FileInfo.t * nat))
    (l : list QTreeWidgetItem) :
  weigh w (omap (Spec.checked_leaf file_items) l)
  = fold_right Z.add 0 (map (leaf_weight w file_items) l).
Proof.
  unfold weigh. induction l as [|it l IH]; [reflexivity|].
  change (omap (Spec.checked_leaf file_items) (it :: l))
    with (match Spec.checked_leaf file_items it with
          | Some f => f :: omap (Spec.checked_leaf file_items) l
          | None => omap (Spec.checked_leaf file_items) l
          end).
  cbn [map fold_right]. unfold leaf_weight at 1.
  destruct (Spec.checked_leaf file_items it); cbn [map fold_right]; rewrite IH; reflexivity.
Qed.

Lemma file_of_None (file_items : list (FileInfo.t * nat)) (r : nat) :
  ~ In r (map snd file_items) -> Spec.file_of file_items r = None.
Proof.
  induction file_items as [|[node r'] l IH]; simpl; [reflexivity|].
  intros H. destruct (Nat.eqb_spec r' r) as [->|Hne]; [tauto|]. apply IH. tauto.
Qed.

(** The item with a given identity is the only one that can add. *)
Lemma sum_at_ident (l : list QTreeWidgetItem) (r : nat) (c : Z) :
  NoDup (map ident l) ->
  fold_right Z.add 0
    (map (fun it => if Nat.eqb (ident it) r && bool_decide (checkState it = Qt.Checked)
                    then c else 0) l)
  = match List.find (fun it => Nat.eqb (ident it) r) l with
    | Some it => if bool_decide (checkState it = Qt.Checked) then c else 0
    | None => 0
    end.
Proof.
  induction l as [|it l IH]; simpl; [reflexivity|].
  intros Hnd. apply NoDup_cons in Hnd as [Hnotin Hnd].
  destruct (Nat.eqb_spec (ident it) r) as [Heq|Hne]; simpl.
  - assert (Hrest : fold_right Z.add 0
      (map (fun it0 => if Nat.eqb (ident it0) r && bool_decide (checkState it0 = Qt.Checked)
                       then c else 0) l) = 0).
    { clear IH Hnd. induction l as [|it' l IH']; simpl; [reflexivity|].
      destruct (Nat.eqb_spec (ident it') r) as [Heq'|Hne'].
      - exfalso. apply Hnotin. rewrite list_elem_of_In. simpl. left. congruence.
      - simpl. apply IH'. intros Hin. apply Hnotin.
        rewrite list_elem_of_In in *. simpl. right. exact Hin. }
    rewrite Hrest. lia.
  - rewrite (IH Hnd). reflexivity.
Qed.

Lemma leaf_weight_no_items (w : FileInfo.t -> Z) (l : list QTreeWidgetItem) :
  fold_right Z.add 0 (map (leaf_weight w []) l) = 0.
Proof.
  induction l as [|it l IH]; simpl; [reflexivity|].
  rewrite IH. unfold leaf_weight, Spec.checked_leaf. simpl.
  destruct (bool_decide _); reflexivity.
Qed.

Lemma totals_agree (w : FileInfo.t -> Z) (file_tree : list QTreeWidgetItem)
    (file_items : list (FileInfo.t * nat)) :
  NoDup (map ident (flatten_forest file_tree)) ->
  NoDup (map snd file_items) ->
  fold_right Z.add 0 (map (pair_weight w file_tree) file_items)
  = fold_right Z.add 0 (map (leaf_weight w file_items) (flatten_forest file_tree)).
Proof.
  intros Htree. induction file_items as [|[node r] l IH]; intros Hnd.
  - simpl. symmetry. apply leaf_weight_no_items.
  - simpl in Hnd. apply NoDup_cons in Hnd as [Hnotin Hnd].
    rewrite list_elem_of_In in Hnotin.
    simpl. rewrite (IH Hnd). unfold pair_weight at 1. simpl.
    unfold is_checked, item_by_ident.
    pose proof (sum_at_ident (flatten_forest file_tree) r (w node) Htree) as Hone.
    assert (Hsplit : forall items,
      fold_right Z.add 0 (map (leaf_weight w ((node, r) :: l)) items)
      = fold_right Z.add 0
          (map (fun it => if Nat.eqb (ident it) r && bool_decide (checkState it = Qt.Checked)
                          then w node else 0) items)
        + fold_right Z.add 0 (map (leaf_weight w l) items)).
    { induction items as [|it items IHi]; simpl; [reflexivity|].
      rewrite IHi. unfold leaf_weight at 1 3, Spec.checked_leaf. simpl.
      rewrite (Nat.eqb_sym r (ident it)).
      destruct (Nat.eqb_spec (ident it) r) as [Heq|Hne]; simpl.
      - rewrite Heq, (file_of_None l r Hnotin).
        destruct (bool_decide (checkState it = Qt.Checked)); lia.
      - destruct (bool_decide (checkState it = Qt.Checked)); lia. }
    rewrite Hsplit, Hone.
    destruct (List.find _ _) as [it|]; [|reflexivity].
    destruct (bool_decide _); reflexivity.
Qed.

(** The loop over [_file_items] counts the Checked leaves of the tree and
    adds up their lengths. *)
Lemma selected_totals_spec (self : TorrentAddingDialog.t) :
  Spec.consistent self ->
  selected_totals self = (Spec.selectedCount self, Spec.selectedSize self).
Proof.
  intros [Htree Hitems]. unfold selected_totals. rewrite selected_totals_fold.
  rewrite !(totals_agree _ _ _ Htree Hitems).
  unfold Spec.selectedCount, Spec.selectedSize, Spec.checked_leaves.
  rewrite <- weigh_count, weigh_omap.
  change (fold_right Z.add 0 (map FileInfo.length ?l)) with (weigh FileInfo.length l).
  rewrite weigh_omap, !Z.add_0_l. reflexivity.
Qed.

(** *** The identities of the items *)

Lemma forest_ids_cons (item : QTreeWidgetItem) (items : list QTreeWidgetItem) :
  forest_ids (item :: items) = ids item ++ forest_ids items.
Proof. unfold forest_ids, flatten_forest, ids. simpl. apply map_app. Qed.

Lemma ids_unfold (item : QTreeWidgetItem) :
  ids item = ident item :: forest_ids (children item).
Proof. destruct item; reflexivity. Qed.

Lemma ids_setCheckState (s : Qt.CheckState) (item : QTreeWidgetItem) :
  ids (setCheckState s item) = ids item.
Proof. rewrite !ids_unfold. reflexivity. Qed.

Lemma forest_ids_insert (items : list QTreeWidgetItem) (i : nat) (c c0 : QTreeWidgetItem) :
  items !! i = Some c0 -> ids c = ids c0 -> forest_ids (<[i := c]> items) = forest_ids items.
Proof.
  revert i. induction items as [|x items IH]; intros [|i]; simpl; try discriminate.
  - intros [= ->] H. rewrite !forest_ids_cons, H. reflexivity.
  - intros Hi H. rewrite !forest_ids_cons. f_equal. apply IH; assumption.
Qed.

Lemma forest_ids_alter (g : QTreeWidgetItem -> QTreeWidgetItem)
    (items : list QTreeWidgetItem) (i : nat) :
  (forall x, items !! i = Some x -> ids (g x) = ids x) ->
  forest_ids (alter g i items) = forest_ids items.
Proof.
  revert i. induction items as [|x items IH]; intros [|i] H; simpl; try reflexivity.
  - rewrite !forest_ids_cons, (H x eq_refl). reflexivity.
  - rewrite !forest_ids_cons. f_equal. apply IH. exact H.
Qed.

Lemma forest_ids_map (g : QTreeWidgetItem -> QTreeWidgetItem)
    (items : list QTreeWidgetItem) :
  Forall (fun x => ids (g x) = ids x) items ->
  forest_ids (map g items) = forest_ids items.
Proof.
  induction 1 as [|x items Hx _ IH]; [reflexivity|].
  simpl. rewrite !forest_ids_cons, Hx, IH. reflexivity.
Qed.

Lemma ids_set_check_state_to_tree (s : Qt.CheckState) (item : QTreeWidgetItem) :
  ids (_set_check_state_to_tree item s) = ids item.
Proof.
  induction item as [i t0 t1 ic st cs IH] using QTreeWidgetItem_tree_ind.
  rewrite !ids_unfold. simpl. f_equal. apply forest_ids_map.
  eapply Forall_impl; [exact IH|]. intros c Hc. simpl in Hc.
  rewrite ids_setCheckState. exact Hc.
Qed.

Lemma ids_put_child (parent : QTreeWidgetItem) (i : nat) (c c0 : QTreeWidgetItem) :
  children parent !! i = Some c0 -> ids c = ids c0 ->
  ids (put_child parent i c) = ids parent.
Proof.
  intros Hi H. rewrite !ids_unfold. simpl. f_equal.
  apply (forest_ids_insert _ _ _ c0); assumption.
Qed.

Lemma ids_alter_at (g : QTreeWidgetItem -> QTreeWidgetItem) (p : list nat) :
  (forall x, ids (g x) = ids x) ->
  forall item, ids (alter_at g item p) = ids item.
Proof.
  intros Hg. induction p as [|i p IH]; intros item; simpl; [apply Hg|].
  rewrite !ids_unfold. simpl. f_equal. apply forest_ids_alter. intros x _. apply IH.
Qed.

Lemma forest_ids_alter_at (g : QTreeWidgetItem -> QTreeWidgetItem)
    (items : list QTreeWidgetItem) (p : list nat) :
  (forall x, ids (g x) = ids x) ->
  forest_ids (forest_alter_at g items p) = forest_ids items.
Proof.
  intros Hg. destruct p as [|i p]; simpl; [reflexivity|].
  apply forest_ids_alter. intros x _. apply ids_alter_at. exact Hg.
Qed.

Lemma ids_update_ancestors (up : parents) :
  forall item, chain_ok (ids item) up ->
    ids (_update_ancestors item up) = top_ids (ids item) up.
Proof.
  induction up as [|[parent i] up IH]; intros item; simpl; [reflexivity|].
  intros [(c0 & Hc0 & Hids) Hup].
  assert (Hplug : ids (put_child parent i item) = ids parent)
    by (apply (ids_put_child _ _ _ c0); congruence).
  rewrite IH; rewrite ids_setCheckState, Hplug; [reflexivity | exact Hup].
Qed.

Lemma locate_chain (p : list nat) :
  forall item up x up',
    locate item up p = Some (x, up') ->
    chain_ok (ids item) up ->
    chain_ok (ids x) up' /\ top_ids (ids x) up' = top_ids (ids item) up.
Proof.
  induction p as [|i p IH]; intros item up x up'; simpl.
  - intros [= <- <-]. auto.
  - destruct (children item !! i) as [c|] eqn:Hc; [|discriminate].
    intros Hloc Hup. apply IH in Hloc as [H1 H2]; [split; [exact H1 | exact H2]|].
    simpl. split; [eauto | exact Hup].
Qed.

(** A click keeps the identities of the items, in their order. *)
Lemma update_checkboxes_forest_ids (self : TorrentAddingDialog.t)
    (item : list nat) (column : Z) :
  forest_ids (file_tree (_update_checkboxes humanize_size self item column))
  = forest_ids (file_tree self).
Proof.
  click_cases self item column i q top_item it up Htop Hloc.
  rewrite update_selection_label_file_tree. simpl.
  apply (forest_ids_insert _ _ _ top_item); [exact Htop|].
  destruct (locate_chain q top_item [] it up Hloc I) as [Hchain Htopids].
  rewrite ids_update_ancestors; rewrite ids_set_check_state_to_tree; assumption.
Qed.

Lemma update_checkboxes_file_items (self : TorrentAddingDialog.t)
    (item : list nat) (column : Z) :
  _file_items (_update_checkboxes humanize_size self item column) = _file_items self.
Proof.
  click_cases self item column i q top_item it up Htop Hloc.
  rewrite update_selection_label_file_items. reflexivity.
Qed.

Lemma update_checkboxes_consistent (self : TorrentAddingDialog.t)
    (item : list nat) (column : Z) :
  Spec.consistent self ->
  Spec.consistent (_update_checkboxes humanize_size self item column).
Proof.
  unfold Spec.consistent. fold (forest_ids (file_tree self)).
  fold (forest_ids (file_tree (_update_checkboxes humanize_size self item column))).
  rewrite update_checkboxes_forest_ids, update_checkboxes_file_items. auto.
Qed.

Lemma toggle_consistent (self : TorrentAddingDialog.t) (item : list nat)
    (s : Qt.CheckState) :
  Spec.consistent self -> Spec.consistent (toggle humanize_size self item s).
Proof.
  intros [H1 H2]. apply update_checkboxes_consistent. split; [|exact H2].
  simpl. fold (forest_ids (forest_alter_at (setCheckState s) (file_tree self) item)).
  rewrite forest_ids_alter_at; [exact H1 | apply ids_setCheckState].
Qed.

Lemma toggles_consistent (clicks : list (list nat * Qt.CheckState)) :
  forall self, Spec.consistent self -> Spec.consistent (toggles humanize_size self clicks).
Proof.
  induction clicks as [|[item s] clicks IH]; intros self H; [exact H|].
  apply IH, toggle_consistent, H.
Qed.

(** *** The dialog as [__init__] leaves it *)

Lemma FileTreeNode_tree_ind (P : FileTreeNode -> Prop) :
  (forall f, P (File f)) ->
  (forall entries, Forall (fun e => P (snd e)) entries -> P (Directory entries)) ->
  forall node, P node.
Proof.
  intros Hfile Hdir. fix IH 1. intros [f|entries]; [apply Hfile|]. apply Hdir.
  induction entries as [|[name child] es IHes]; constructor; [apply IH | exact IHes].
Qed.

Lemma traverse_directory (name : string) (entries : list (string * FileTreeNode))
    (next : nat) (items : list (FileInfo.t * nat)) :
  _traverse_file_tree humanize_size name (Directory entries) next items
  = let '(cs, next', items') := _traverse_entries humanize_size entries (S next) items in
    (mkItem next name "" (Some directory_icon) Qt.Checked cs, next', items').
Proof. reflexivity. Qed.

Lemma fresh_pairs_trans (n1 n2 n3 : nat) (i1 i2 i3 : list (FileInfo.t * nat)) :
  (n1 <= n2)%nat -> (n2 <= n3)%nat ->
  fresh_pairs n1 n2 i1 i2 -> fresh_pairs n2 n3 i2 i3 -> fresh_pairs n1 n3 i1 i3.
Proof.
  intros H12 H23 (new1 & -> & Hnd1 & Hin1) (new2 & -> & Hnd2 & Hin2).
  exists (new1 ++ new2). split; [symmetry; apply app_assoc|].
  rewrite map_app. split.
  - apply NoDup_app. split; [exact Hnd1|]. split; [|exact Hnd2].
    intros r Hr1 Hr2. rewrite list_elem_of_In in Hr1, Hr2.
    apply Hin1 in Hr1. apply Hin2 in Hr2. lia.
  - intros r Hr. apply in_app_or in Hr as [Hr|Hr]; [apply Hin1 in Hr | apply Hin2 in Hr]; lia.
Qed.

(** Items are numbered in the order of the tree. *)
Lemma traverse_file_tree_spec (node : FileTreeNode) :
  forall name next items,
    let '(item, next', items') := _traverse_file_tree humanize_size name node next items in
    ids item = seq next (next' - next)
    /\ (next < next')%nat
    /\ fresh_pairs next next' items items'.
Proof.
  induction node as [f|entries IH] using FileTreeNode_tree_ind; intros name next items.
  - simpl. replace (S next - next)%nat with 1%nat by lia. split; [reflexivity|].
    split; [lia|]. exists [(f, next)]. split; [reflexivity|]. split.
    + simpl. apply NoDup_singleton.
    + simpl. intros r [<-|[]]. lia.
  - rewrite traverse_directory.
    assert (Hes : forall n0 i0,
      let '(cs, n', i') := _traverse_entries humanize_size entries n0 i0 in
      forest_ids cs = seq n0 (n' - n0) /\ (n0 <= n')%nat /\ fresh_pairs n0 n' i0 i').
    { induction IH as [|[nm child] es Hchild _ IHes]; intros n0 i0; simpl.
      - replace (n0 - n0)%nat with 0%nat by lia. split; [reflexivity|]. split; [lia|].
        exists []. rewrite app_nil_r. split; [reflexivity|]. split; [constructor|].
        intros r [].
      - simpl in Hchild. specialize (Hchild nm n0 i0).
        destruct (_traverse_file_tree humanize_size nm child n0 i0) as [[c n1] i1].
        destruct Hchild as (Hc & Hlt & Hfr).
        specialize (IHes n1 i1).
        destruct (_traverse_entries humanize_size es n1 i1) as [[cs n2] i2].
        destruct IHes as (Hcs & Hle & Hfr2).
        rewrite forest_ids_cons, Hc, Hcs. split; [|split].
        + replace (n2 - n0)%nat with ((n1 - n0) + (n2 - n1))%nat by lia.
          rewrite seq_app. do 2 f_equal. lia.
        + lia.
        + eapply fresh_pairs_trans; [| |exact Hfr|exact Hfr2]; lia. }
    specialize (Hes (S next) items).
    destruct (_traverse_entries humanize_size entries (S next) items) as [[cs n'] i'].
    destruct Hes as (Hcs & Hle & new & -> & Hnd & Hin).
    rewrite ids_unfold. simpl. rewrite Hcs. split; [|split].
    + replace (n' - next)%nat with (S (n' - S next)) by lia. reflexivity.
    + lia.
    + exists new. split; [reflexivity|]. split; [exact Hnd|].
      intros r Hr. apply Hin in Hr. lia.
Qed.

Lemma insert_item_Permutation (x : QTreeWidgetItem) (l : list QTreeWidgetItem) :
  insert_item x l ≡ₚ x :: l.
Proof.
  induction l as [|y l IH]; simpl; [reflexivity|].
  destruct (String.ltb (text0 x) (text0 y)); [reflexivity|].
  rewrite IH. apply Permutation_swap.
Qed.

Lemma sort_level_Permutation (l : list QTreeWidgetItem) : sort_level l ≡ₚ l.
Proof.
  unfold sort_level. induction l as [|x l IH]; simpl; [reflexivity|].
  rewrite insert_item_Permutation, IH. reflexivity.
Qed.

Lemma forest_ids_Permutation (l l' : list QTreeWidgetItem) :
  l ≡ₚ l' -> forest_ids l ≡ₚ forest_ids l'.
Proof.
  induction 1 as [|x l l' _ IH|x y l|l1 l2 l3 _ IH1 _ IH2].
  - reflexivity.
  - rewrite !forest_ids_cons, IH. reflexivity.
  - rewrite !forest_ids_cons, !app_assoc.
    apply Permutation_app_tail, Permutation_app_comm.
  - rewrite IH1. exact IH2.
Qed.

Lemma forest_ids_map_Permutation (g : QTreeWidgetItem -> QTreeWidgetItem)
    (l : list QTreeWidgetItem) :
  Forall (fun x => ids (g x) ≡ₚ ids x) l -> forest_ids (map g l) ≡ₚ forest_ids l.
Proof.
  induction 1 as [|x l Hx _ IH]; [reflexivity|].
  simpl. rewrite !forest_ids_cons, Hx, IH. reflexivity.
Qed.

Lemma ids_sortItems_item (item : QTreeWidgetItem) :
  ids (sortItems_item item) ≡ₚ ids item.
Proof.
  induction item as [i t0 t1 ic st cs IH] using QTreeWidgetItem_tree_ind.
  rewrite !ids_unfold. simpl. apply Permutation_skip.
  rewrite (forest_ids_Permutation _ _ (sort_level_Permutation _)).
  apply forest_ids_map_Permutation. exact IH.
Qed.

Lemma forest_ids_sortItems (items : list QTreeWidgetItem) :
  forest_ids (sortItems items) ≡ₚ forest_ids items.
Proof.
  unfold sortItems.
  rewrite (forest_ids_Permutation _ _ (sort_level_Permutation _)).
  apply forest_ids_map_Permutation.
  apply Forall_forall. intros x _. apply ids_sortItems_item.
Qed.

(** [__init__] leaves a dialog whose items are distinct objects and whose
    pairs reference distinct items. *)
Lemma init_consistent (cls : class_attrs) (filename : string)
    (torrent_info : TorrentInfo.t) :
  Spec.consistent (__init__ humanize_size cls filename torrent_info).
Proof.
  unfold __init__.
  pose proof (traverse_file_tree_spec
    (DownloadInfo.file_tree (TorrentInfo.download_info torrent_info))
    (DownloadInfo.suggested_name (TorrentInfo.download_info torrent_info)) 0%nat []) as H.
  destruct (_traverse_file_tree _ _ _ _ _) as [[top n] file_items].
  destruct H as (Hids & _ & new & Hnew & Hnd & _). simpl in Hnew. subst file_items.
  split; simpl; [|exact Hnd].
  fold (forest_ids (sortItems [top])). rewrite forest_ids_sortItems.
  rewrite forest_ids_cons. change (forest_ids []) with (@nil nat).
  rewrite app_nil_r, Hids. apply NoDup_seq.
Qed.

(** *** The pairs of [_file_items] *)

Lemma in_flatten_forest (x : QTreeWidgetItem) (items : list QTreeWidgetItem) :
  In x (flatten_forest items) <-> exists c, In c items /\ In x (flatten c).
Proof.
  unfold flatten_forest. rewrite in_concat. split.
  - intros (l & Hl & Hx). apply in_map_iff in Hl as (c & <- & Hc). eauto.
  - intros (c & Hc & Hx). exists (flatten c). split; [apply in_map, Hc | exact Hx].
Qed.

Lemma flatten_unfold (item : QTreeWidgetItem) :
  flatten item = item :: flatten_forest (children item).
Proof. destruct item; reflexivity. Qed.

(** What [_traverse_file_tree] adds to [_file_items]: the files of the node
    in their order, each with a reference to an item of the new tree that
    stands for it. *)
Lemma traverse_file_tree_pairs (node : FileTreeNode) :
  forall name next items,
    let '(item, _, items') := _traverse_file_tree humanize_size name node next items in
    exists new,
      items' = items ++ new
      /\ map fst new = files_of node
      /\ forall f r, In (f, r) new ->
           exists it, In it (flatten item) /\ ident it = r /\ file_item humanize_size f it.
Proof.
  induction node as [f|entries IH] using FileTreeNode_tree_ind; intros name next items.
  - simpl. exists [(f, next)]. split; [reflexivity|]. split; [reflexivity|].
    intros f' r [[= <- <-]|[]]. eexists. split; [left; reflexivity|].
    split; [reflexivity|]. repeat split.
  - rewrite traverse_directory.
    assert (Hes : forall n0 i0,
      let '(cs, _, i') := _traverse_entries humanize_size entries n0 i0 in
      exists new,
        i' = i0 ++ new
        /\ map fst new = concat (map (fun e => files_of (snd e)) entries)
        /\ forall f r, In (f, r) new ->
             exists it, In it (flatten_forest cs) /\ ident it = r
                        /\ file_item humanize_size f it).
    { induction IH as [|[nm child] es Hchild _ IHes]; intros n0 i0; simpl.
      - exists []. rewrite app_nil_r. split; [reflexivity|]. split; [reflexivity|].
        intros f r [].
      - simpl in Hchild. specialize (Hchild nm n0 i0).
        destruct (_traverse_file_tree humanize_size nm child n0 i0) as [[c n1] i1].
        destruct Hchild as (new1 & -> & Hf1 & Hin1).
        specialize (IHes n1 (i0 ++ new1)).
        destruct (_traverse_entries humanize_size es n1 (i0 ++ new1)) as [[cs n2] i2].
        destruct IHes as (new2 & -> & Hf2 & Hin2).
        exists (new1 ++ new2). split; [symmetry; apply app_assoc|].
        split; [rewrite map_app, Hf1, Hf2; reflexivity|].
        intros f r Hfr. apply in_app_or in Hfr as [Hfr|Hfr].
        + destruct (Hin1 f r Hfr) as (it & Hit & Hid & Hfile). exists it.
          split; [|auto]. apply in_flatten_forest. exists c. split; [left; reflexivity|exact Hit].
        + destruct (Hin2 f r Hfr) as (it & Hit & Hid & Hfile). exists it.
          split; [|auto]. apply in_flatten_forest in Hit as (c' & Hc' & Hit).
          apply in_flatten_forest. exists c'. split; [right; exact Hc'|exact Hit]. }
    specialize (Hes (S next) items).
    destruct (_traverse_entries humanize_size entries (S next) items) as [[cs n'] i'].
    destruct Hes as (new & -> & Hf & Hin).
    exists new. split; [reflexivity|]. split; [exact Hf|].
    intros f r Hfr. destruct (Hin f r Hfr) as (it & Hit & Hid & Hfile).
    exists it. split; [|auto]. rewrite flatten_unfold. right. exact Hit.
Qed.

(** Sorting moves items and changes none that has no children. *)
Lemma sortItems_item_leaf (it : QTreeWidgetItem) :
  children it = [] -> sortItems_item it = it.
Proof. destruct it as [i t0 t1 ic s cs]. simpl. intros ->. reflexivity. Qed.

Lemma in_flatten_sortItems_item (x : QTreeWidgetItem) :
  forall item, In x (flatten item) -> In (sortItems_item x) (flatten (sortItems_item item)).
Proof.
  induction item as [i t0 t1 ic st cs IH] using QTreeWidgetItem_tree_ind.
  rewrite flatten_unfold. intros [<-|Hx]; [rewrite flatten_unfold; left; reflexivity|].
  rewrite (flatten_unfold (sortItems_item _)). right. simpl.
  simpl in Hx. apply in_flatten_forest in Hx as (c & Hc & Hx).
  apply in_flatten_forest. exists (sortItems_item c). split.
  - rewrite <- list_elem_of_In. rewrite sort_level_Permutation. rewrite list_elem_of_In.
    apply in_map, Hc.
  - rewrite Forall_forall in IH. apply IH; [rewrite list_elem_of_In; exact Hc | exact Hx].
Qed.

Lemma in_flatten_forest_sortItems (x : QTreeWidgetItem) (items : list QTreeWidgetItem) :
  In x (flatten_forest items) -> In (sortItems_item x) (flatten_forest (sortItems items)).
Proof.
  intros Hx. apply in_flatten_forest in Hx as (c & Hc & Hx).
  apply in_flatten_forest. exists (sortItems_item c). split.
  - unfold sortItems. rewrite <- list_elem_of_In. rewrite sort_level_Permutation.
    rewrite list_elem_of_In. apply in_map, Hc.
  - apply in_flatten_sortItems_item, Hx.
Qed.

(** Among distinct objects a reference finds its object. *)
Lemma item_by_ident_found (items : list QTreeWidgetItem) (it : QTreeWidgetItem) :
  NoDup (forest_ids items) -> In it (flatten_forest items) ->
  item_by_ident items (ident it) = Some it.
Proof.
  unfold item_by_ident, forest_ids. induction (flatten_forest items) as [|x l IH]; [intros _ []|].
  simpl. intros Hnd Hin. apply NoDup_cons in Hnd as [Hnotin Hnd].
  destruct (Nat.eqb_spec (ident x) (ident it)) as [Heq|Hne].
  - destruct Hin as [->|Hin]; [reflexivity|]. exfalso. apply Hnotin.
    rewrite Heq, list_elem_of_In. apply in_map, Hin.
  - destruct Hin as [->|Hin]; [congruence|]. apply IH; assumption.
Qed.

(** The dialog as [__init__] leaves it: [_file_items] pairs the files of
    the torrent, in their order, each with a reference to an item of the
    tree that stands for it. *)
Lemma init_file_items (cls : class_attrs) (filename : string) (torrent_info : TorrentInfo.t) :
  let self := __init__ humanize_size cls filename torrent_info in
  map fst (_file_items self)
  = files_of (DownloadInfo.file_tree (TorrentInfo.download_info torrent_info))
  /\ forall f r, In (f, r) (_file_items self) ->
       exists it, item_by_ident (file_tree self) r = Some it /\ file_item humanize_size f it.
Proof.
  intros self. pose proof (init_consistent cls filename torrent_info) as [Hnd _].
  fold self in Hnd. revert Hnd. unfold self, __init__.
  pose proof (traverse_file_tree_pairs
    (DownloadInfo.file_tree (TorrentInfo.download_info torrent_info))
    (DownloadInfo.suggested_name (TorrentInfo.download_info torrent_info)) 0%nat []) as H.
  destruct (_traverse_file_tree _ _ _ _ _) as [[top n] file_items].
  destruct H as (new & Hnew & Hfiles & Hin). simpl in Hnew. subst file_items.
  cbn [file_tree _file_items]. intros Hnd. split; [exact Hfiles|].
  intros f r Hfr. destruct (Hin f r Hfr) as (it & Hit & <- & Hfile).
  exists it. split; [|exact Hfile].
  apply item_by_ident_found; [exact Hnd|].
  destruct Hfile as (Hleaf & _). rewrite <- (sortItems_item_leaf it Hleaf).
  apply in_flatten_forest_sortItems. apply in_flatten_forest.
  exists top. split; [left; reflexivity | exact Hit].
Qed.

(** *** What the dialog reports *)

Lemma update_selection_label_result (self : TorrentAddingDialog.t) :
  let totals := selected_totals self in
  let self' := _update_selection_label humanize_size self in
  ok_enabled self' = negb (Z.eqb (fst totals) 0)
  /\ _selection_label self'
     = (if decide (fst totals = 0) then "Nothing to download"
        else SELECTION_LABEL_FORMAT (fst totals) (humanize_size (snd totals)))
  /\ selected_totals self' = totals.
Proof.
  unfold _update_selection_label. destruct (selected_totals self) as [n sz] eqn:Ht. simpl.
  destruct (decide (n = 0)) as [->|Hn]; simpl.
  - repeat split; try reflexivity. exact Ht.
  - repeat split; try exact Ht. symmetry. apply negb_true_iff, Z.eqb_neq, Hn.
Qed.

Lemma update_checkboxes_ends_with_label (self : TorrentAddingDialog.t) (item : list nat) :
  is_Some (forest_at (file_tree self) item) ->
  exists d, _update_checkboxes humanize_size self item 0
            = _update_selection_label humanize_size d.
Proof.
  intros [it Hit]. destruct item as [|i q]; [discriminate|].
  unfold forest_at in Hit. unfold _update_checkboxes.
  destruct (decide (0 <> 0)) as [Hc|_]; [contradiction Hc; reflexivity|].
  destruct (file_tree self !! i) as [top|]; [|discriminate].
  destruct (locate_is_Some q top [] it Hit) as [up ->]. eauto.
Qed.

(** After a click in column 0 on an item of the tree, the button and the
    label are what the Checked leaves of the tree make them. *)
Lemma update_checkboxes_reports (self : TorrentAddingDialog.t) (item : list nat) :
  Spec.consistent self ->
  is_Some (forest_at (file_tree self) item) ->
  let self' := _update_checkboxes humanize_size self item 0 in
  selected_totals self' = (Spec.selectedCount self', Spec.selectedSize self')
  /\ ok_enabled self' = negb (Z.eqb (Spec.selectedCount self') 0)
  /\ _selection_label self'
     = (if decide (Spec.selectedCount self' = 0) then "Nothing to download"
        else SELECTION_LABEL_FORMAT (Spec.selectedCount self')
               (humanize_size (Spec.selectedSize self'))).
Proof.
  intros Hcons Hsome self'.
  pose proof (update_checkboxes_consistent self item 0 Hcons) as Hcons'.
  pose proof (selected_totals_spec _ Hcons') as Hspec. fold self' in Hspec.
  destruct (update_checkboxes_ends_with_label self item Hsome) as [d Hd].
  fold self' in Hd.
  destruct (update_selection_label_result d) as (Hok & Hlabel & Htotals).
  rewrite <- Hd in Hok, Hlabel, Htotals. rewrite <- Htotals, Hspec in Hok, Hlabel.
  simpl in Hok, Hlabel. auto.
Qed.

Lemma toggle_reports (self : TorrentAddingDialog.t) (item : list nat) (s : Qt.CheckState) :
  Spec.consistent self ->
  is_Some (forest_at (file_tree self) item) ->
  let self' := toggle humanize_size self item s in
  selected_totals self' = (Spec.selectedCount self', Spec.selectedSize self')
  /\ ok_enabled self' = negb (Z.eqb (Spec.selectedCount self') 0)
  /\ _selection_label self'
     = (if decide (Spec.selectedCount self' = 0) then "Nothing to download"
        else SELECTION_LABEL_FORMAT (Spec.selectedCount self')
               (humanize_size (Spec.selectedSize self'))).
Proof.
  intros [H1 H2] Hsome. unfold toggle. apply update_checkboxes_reports.
  - split; [|exact H2]. simpl.
    fold (forest_ids (forest_alter_at (setCheckState s) (file_tree self) item)).
    rewrite forest_ids_alter_at; [exact H1 | apply ids_setCheckState].
  - simpl. rewrite forest_alter_at_forest_at. destruct Hsome as [it ->]. eauto.
Qed.

(** *** From the construction of the dialog on *)

Lemma alter_at_nothing (f : QTreeWidgetItem -> QTreeWidgetItem) (p : list nat) :
  forall item, item_at item p = None -> alter_at f item p = item.
Proof.
  induction p as [|i p IH]; intros item; simpl; [discriminate|].
  destruct item as [n t0 t1 ic s cs]. simpl. intros H. unfold setChildren. simpl. f_equal.
  apply list_eq. intros j. destruct (decide (i = j)) as [<-|Hne].
  - rewrite list_lookup_alter_eq. destruct (cs !! i) as [c|]; [|reflexivity].
    simpl. rewrite IH by exact H. reflexivity.
  - rewrite list_lookup_alter_ne by exact Hne. reflexivity.
Qed.

Lemma forest_alter_at_nothing (f : QTreeWidgetItem -> QTreeWidgetItem)
    (items : list QTreeWidgetItem) (p : list nat) :
  forest_at items p = None -> forest_alter_at f items p = items.
Proof.
  destruct p as [|i p]; simpl; [reflexivity|].
  intros H. apply list_eq. intros j. destruct (decide (i = j)) as [<-|Hne].
  - rewrite list_lookup_alter_eq. destruct (items !! i) as [top|]; [|reflexivity].
    simpl. rewrite alter_at_nothing by exact H. reflexivity.
  - rewrite list_lookup_alter_ne by exact Hne. reflexivity.
Qed.

(** A click that is on no item of the tree changes nothing. *)
Lemma toggle_nothing (self : TorrentAddingDialog.t) (item : list nat) (s : Qt.CheckState) :
  forest_at (file_tree self) item = None -> toggle humanize_size self item s = self.
Proof.
  intros H. unfold toggle. rewrite forest_alter_at_nothing by exact H.
  assert (Hself : set_file_tree (file_tree self) self = self) by (destruct self; reflexivity).
  rewrite Hself. unfold _update_checkboxes.
  destruct (decide (0 <> 0)); [reflexivity|].
  destruct item as [|i q]; [reflexivity|]. simpl in H.
  destruct (file_tree self !! i) as [top|]; [|reflexivity].
  destruct (locate top [] q) as [[it up]|] eqn:Hloc; [|reflexivity].
  apply locate_spec in Hloc as (_ & _ & Hat). congruence.
Qed.

Lemma init_selected_totals (cls : class_attrs) (filename : string)
    (torrent_info : TorrentInfo.t) :
  let self := __init__ humanize_size cls filename torrent_info in
  fst (selected_totals self) = Z.of_nat (List.length (_file_items self))
  /\ ok_enabled self = true.
Proof.
  intros self. destruct (init_file_items cls filename torrent_info) as [_ Hpairs].
  fold self in Hpairs. split.
  - unfold selected_totals. rewrite selected_totals_fold. simpl.
    assert (Hall : forall l, (forall f r, In (f, r) l -> In (f, r) (_file_items self)) ->
      fold_right Z.add 0 (map (pair_weight (fun _ => 1) (file_tree self)) l)
      = Z.of_nat (List.length l)).
    { induction l as [|[f r] l IHl]; intros Hl; [reflexivity|].
      cbn [map fold_right List.length]. rewrite IHl by (intros; apply Hl; right; assumption).
      destruct (Hpairs f r (Hl f r (or_introl eq_refl))) as (it & Hit & _ & Hchecked & _).
      unfold pair_weight, is_checked. simpl. rewrite Hit, Hchecked. simpl. lia. }
    apply Hall. auto.
  - unfold self, __init__. destruct (_traverse_file_tree _ _ _ _ _) as [[top n] file_items].
    reflexivity.
Qed.

(** For a torrent that has a file, from the construction of the dialog on
    and after whatever clicks: the Ok button is enabled exactly when a leaf
    is Checked, and the loop of [_update_selection_label] would count the
    Checked leaves. *)
Lemma submission_enabled_from_the_start (cls : class_attrs) (filename : string)
    (torrent_info : TorrentInfo.t) (clicks : list (list nat * Qt.CheckState)) :
  files_of (DownloadInfo.file_tree (TorrentInfo.download_info torrent_info)) <> [] ->
  let self := toggles humanize_size (__init__ humanize_size cls filename torrent_info) clicks in
  ok_enabled self = negb (Z.eqb (Spec.selectedCount self) 0)
  /\ selected_totals self = (Spec.selectedCount self, Spec.selectedSize self).
Proof.
  intros Hfiles.
  set (good := fun d : TorrentAddingDialog.t =>
         Spec.consistent d /\ ok_enabled d = negb (Z.eqb (Spec.selectedCount d) 0)).
  assert (Hstep : forall d item s, good d -> good (toggle humanize_size d item s)).
  { intros d item s [Hc Hok].
    destruct (forest_at (file_tree d) item) as [it|] eqn:Hit.
    - split; [apply toggle_consistent, Hc|].
      apply toggle_reports; [exact Hc | rewrite Hit; eauto].
    - rewrite toggle_nothing by exact Hit. split; assumption. }
  assert (Hrun : forall cs d, good d -> good (toggles humanize_size d cs)).
  { induction cs as [|[item s] cs IH]; intros d Hd; [exact Hd|]. apply IH, Hstep, Hd. }
  assert (Hinit : good (__init__ humanize_size cls filename torrent_info)).
  { pose proof (init_consistent cls filename torrent_info) as Hc. split; [exact Hc|].
    destruct (init_selected_totals cls filename torrent_info) as [Hcount ->].
    destruct (init_file_items cls filename torrent_info) as [Hfst _].
    rewrite (selected_totals_spec _ Hc) in Hcount. simpl in Hcount. rewrite Hcount.
    symmetry. apply negb_true_iff, Z.eqb_neq.
    assert (List.length (_file_items (__init__ humanize_size cls filename torrent_info)) <> 0%nat).
    { intros Hlen. apply Hfiles. rewrite <- Hfst.
      apply length_zero_iff_nil in Hlen. rewrite Hlen. reflexivity. }
    lia. }
  intros self. destruct (Hrun clicks _ Hinit) as [Hc Hok]. fold self in Hc, Hok.
  split; [exact Hok | apply selected_totals_spec, Hc].
Qed.

(** *** Single-file torrents *)

Lemma update_checkboxes_torrent_info (self : TorrentAddingDialog.t)
    (item : list nat) (column : Z) :
  _torrent_info (_update_checkboxes humanize_size self item column) = _torrent_info self.
Proof.
  click_cases self item column i q top_item it up Htop Hloc.
  unfold _update_selection_label. destruct (selected_totals _) as [cnt sz].
  destruct (decide (cnt = 0)); reflexivity.
Qed.

Lemma update_checkboxes_top_level (self : TorrentAddingDialog.t)
    (item : list nat) (column : Z) :
  List.length (file_tree (_update_checkboxes humanize_size self item column))
  = List.length (file_tree self).
Proof.
  click_cases self item column i q top_item it up Htop Hloc.
  rewrite update_selection_label_file_tree. simpl. apply length_insert.
Qed.

Lemma forest_alter_at_length (g : QTreeWidgetItem -> QTreeWidgetItem)
    (items : list QTreeWidgetItem) (p : list nat) :
  List.length (forest_alter_at g items p) = List.length items.
Proof. destruct p; simpl; [reflexivity | apply length_alter]. Qed.

Lemma toggles_keep (clicks : list (list nat * Qt.CheckState)) :
  forall self,
    _torrent_info (toggles humanize_size self clicks) = _torrent_info self
    /\ List.length (file_tree (toggles humanize_size self clicks))
       = List.length (file_tree self).
Proof.
  induction clicks as [|[item s] clicks IH]; intros self; [split; reflexivity|].
  simpl. destruct (IH (toggle humanize_size self item s)) as [H1 H2].
  rewrite H1, H2. unfold toggle.
  rewrite update_checkboxes_torrent_info, update_checkboxes_top_level. simpl.
  rewrite forest_alter_at_length. split; reflexivity.
Qed.

Lemma init_top_level (cls : class_attrs) (filename : string) (torrent_info : TorrentInfo.t) :
  _torrent_info (__init__ humanize_size cls filename torrent_info) = torrent_info
  /\ List.length (file_tree (__init__ humanize_size cls filename torrent_info)) = 1%nat.
Proof.
  unfold __init__. destruct (_traverse_file_tree _ _ _ _ _) as [[top n] file_items].
  simpl. split; reflexivity.
Qed.

Lemma in_flatten_item_at (x : QTreeWidgetItem) :
  forall item, In x (flatten item) -> exists q, item_at item q = Some x.
Proof.
  induction item as [i t0 t1 ic st cs IH] using QTreeWidgetItem_tree_ind.
  rewrite flatten_unfold. intros [<-|Hx]; [exists []; reflexivity|].
  simpl in Hx. apply in_flatten_forest in Hx as (c & Hc & Hx).
  rewrite Forall_forall in IH. rewrite <- list_elem_of_In in Hc.
  destruct (IH c Hc Hx) as [q Hq].
  apply list_elem_of_lookup in Hc as [j Hj].
  exists (j :: q). simpl. rewrite Hj. exact Hq.
Qed.

Lemma in_flatten_forest_at (x : QTreeWidgetItem) (items : list QTreeWidgetItem) :
  In x (flatten_forest items) -> exists p, forest_at items p = Some x.
Proof.
  intros Hx. apply in_flatten_forest in Hx as (c & Hc & Hx).
  destruct (in_flatten_item_at x c Hx) as [q Hq].
  rewrite <- list_elem_of_In in Hc. apply list_elem_of_lookup in Hc as [j Hj].
  exists (j :: q). simpl. rewrite Hj. exact Hq.
Qed.

(** With every item of the tree in another state, no leaf is Checked. *)
Lemma nothing_checked (self : TorrentAddingDialog.t) :
  (forall x, In x (flatten_forest (file_tree self)) -> checkState x <> Qt.Checked) ->
  Spec.selectedCount self = 0.
Proof.
  intros H. unfold Spec.selectedCount, Spec.checked_leaves.
  induction (flatten_forest (file_tree self)) as [|x l IH]; [reflexivity|].
  change (omap (Spec.checked_leaf (_file_items self)) (x :: l))
    with (match Spec.checked_leaf (_file_items self) x with
          | Some f => f :: omap (Spec.checked_leaf (_file_items self)) l
          | None => omap (Spec.checked_leaf (_file_items self)) l
          end).
  unfold Spec.checked_leaf at 1.
  rewrite bool_decide_eq_false_2 by (apply H; left; reflexivity).
  apply IH. intros y Hy. apply H. right. exact Hy.
Qed.

(** After a click, the clicked item and the items below it have the state
    that was written. *)
Lemma toggle_below (self : TorrentAddingDialog.t) (item : list nat)
    (s : Qt.CheckState) (q : list nat) (x : QTreeWidgetItem) :
  is_Some (forest_at (file_tree self) item) ->
  forest_at (file_tree (toggle humanize_size self item s)) (item ++ q) = Some x ->
  checkState x = s.
Proof.
  intros Hsome. pose proof (forest_at_nonempty _ _ Hsome) as Hne.
  destruct Hsome as [it Hit].
  rewrite forest_at_app by exact Hne.
  rewrite (toggle_clicked_item self item s it Hit). cbn [mbind option_bind].
  destruct q as [|i q].
  - intros [= <-]. destruct it; reflexivity.
  - apply set_check_state_descendants.
Qed.

(** Unchecking the only top-level item leaves nothing to download. *)
Lemma uncheck_top_level (self : TorrentAddingDialog.t) :
  Spec.consistent self ->
  List.length (file_tree self) = 1%nat ->
  let self' := toggle humanize_size self [0%nat] Qt.Unchecked in
  ok_enabled self' = false /\ _selection_label self' = "Nothing to download".
Proof.
  intros Hc Hlen self'.
  assert (Hsome : is_Some (forest_at (file_tree self) [0%nat])).
  { simpl. destruct (file_tree self) as [|top l]; [discriminate|]. simpl. eauto. }
  destruct (toggle_reports self [0%nat] Qt.Unchecked Hc Hsome) as (_ & Hok & Hlabel).
  fold self' in Hok, Hlabel.
  assert (Hnone : Spec.selectedCount self' = 0).
  { apply nothing_checked. intros x Hx.
    destruct (in_flatten_forest_at x _ Hx) as [p Hp].
    assert (Hlen' : List.length (file_tree self') = 1%nat).
    { unfold self', toggle. rewrite update_checkboxes_top_level.
      change (file_tree (set_file_tree ?ft ?d)) with ft.
      rewrite forest_alter_at_length. exact Hlen. }
    destruct p as [|i q]; [discriminate|].
    assert (i = 0%nat) as ->.
    { simpl in Hp. destruct (file_tree self' !! i) eqn:Hi; [|discriminate].
      apply lookup_lt_Some in Hi. lia. }
    rewrite (toggle_below self [0%nat] Qt.Unchecked q x Hsome Hp). discriminate. }
  rewrite Hnone in Hok, Hlabel. split; [exact Hok | exact Hlabel].
Qed.

(** C9, as the code has it. The dialog of a single-file torrent builds the
    tree of files as for any torrent: one top-level item, whatever was
    clicked since, which the user can uncheck, and then the Ok button is
    disabled. When the dialog is submitted, whatever the states of the
    items, [select_files] is not called: the torrent goes to the engine's
    [add] with the download directory of the class, and the dialog closes. *)
Theorem single_file_submission (cls cls' : class_attrs) (filename : string)
    (torrent_info : TorrentInfo.t) (clicks : list (list nat * Qt.CheckState)) :
  DownloadInfo.single_file_mode (TorrentInfo.download_info torrent_info) = true ->
  let self := toggles humanize_size (__init__ humanize_size cls filename torrent_info) clicks in
  List.length (file_tree self) = 1%nat
  /\ ok_enabled (toggle humanize_size self [0%nat] Qt.Unchecked) = false
  /\ snd (submit_torrent self cls')
     = [call_soon_threadsafe_add
          (TorrentInfo.set_download_dir (selected_download_dir cls') torrent_info);
        close].
Proof.
  intros Hsingle self.
  destruct (toggles_keep clicks (__init__ humanize_size cls filename torrent_info)) as [Hti Hlen].
  destruct (init_top_level cls filename torrent_info) as [Hti0 Hlen0].
  fold self in Hti, Hlen. split; [congruence|]. split.
  { apply uncheck_top_level; [|congruence].
    apply toggles_consistent, init_consistent. }
  unfold submit_torrent. simpl. rewrite Hti, Hti0. simpl. rewrite Hsingle. reflexivity.
Qed.

(** *** What a click leaves alone *)

Lemma skeleton_unfold (item : QTreeWidgetItem) :
  skeleton item
  = mkItem (ident item) (text0 item) (text1 item) (icon item) Qt.Unchecked
           (map skeleton (children item)).
Proof. destruct item; reflexivity. Qed.

Lemma skeleton_setCheckState (s : Qt.CheckState) (item : QTreeWidgetItem) :
  skeleton (setCheckState s item) = skeleton item.
Proof. rewrite !skeleton_unfold. reflexivity. Qed.

Lemma skeleton_set_check_state_to_tree (s : Qt.CheckState) (item : QTreeWidgetItem) :
  skeleton (_set_check_state_to_tree item s) = skeleton item.
Proof.
  induction item as [i t0 t1 ic st cs IH] using QTreeWidgetItem_tree_ind.
  rewrite !skeleton_unfold. simpl. f_equal. rewrite map_map.
  induction IH as [|c cs Hc _ IHcs]; [reflexivity|]. cbn [map].
  rewrite skeleton_setCheckState, Hc, IHcs. reflexivity.
Qed.

Lemma skeletons_insert (items : list QTreeWidgetItem) (i : nat) (c c0 : QTreeWidgetItem) :
  items !! i = Some c0 -> skeleton c = skeleton c0 ->
  map skeleton (<[i := c]> items) = map skeleton items.
Proof.
  revert i. induction items as [|x items IH]; intros [|i]; simpl; try discriminate.
  - intros [= ->] H. rewrite H. reflexivity.
  - intros Hi H. f_equal. apply IH; assumption.
Qed.

Lemma skeletons_alter (g : QTreeWidgetItem -> QTreeWidgetItem)
    (items : list QTreeWidgetItem) (i : nat) :
  (forall x, items !! i = Some x -> skeleton (g x) = skeleton x) ->
  map skeleton (alter g i items) = map skeleton items.
Proof.
  revert i. induction items as [|x items IH]; intros [|i] H; simpl; try reflexivity.
  - rewrite (H x eq_refl). reflexivity.
  - f_equal. apply IH. exact H.
Qed.

Lemma skeleton_put_child (parent : QTreeWidgetItem) (i : nat) (c c0 : QTreeWidgetItem) :
  children parent !! i = Some c0 -> skeleton c = skeleton c0 ->
  skeleton (put_child parent i c) = skeleton parent.
Proof.
  intros Hi H. rewrite !skeleton_unfold. simpl. f_equal.
  apply (skeletons_insert _ _ _ c0); assumption.
Qed.

Lemma skeleton_alter_at (g : QTreeWidgetItem -> QTreeWidgetItem) (p : list nat) :
  (forall x, skeleton (g x) = skeleton x) ->
  forall item, skeleton (alter_at g item p) = skeleton item.
Proof.
  intros Hg. induction p as [|i p IH]; intros item; simpl; [apply Hg|].
  rewrite !skeleton_unfold. simpl. f_equal. apply skeletons_alter. intros x _. apply IH.
Qed.

Lemma skeleton_update_ancestors (up : parents) :
  forall item, chain_alike (skeleton item) up ->
    skeleton (_update_ancestors item up) = top_skeleton (skeleton item) up.
Proof.
  induction up as [|[parent i] up IH]; intros item; simpl; [reflexivity|].
  intros [(c0 & Hc0 & Hsk) Hup].
  assert (Hplug : skeleton (put_child parent i item) = skeleton parent)
    by (apply (skeleton_put_child _ _ _ c0); congruence).
  rewrite IH; rewrite skeleton_setCheckState, Hplug; [reflexivity | exact Hup].
Qed.

Lemma locate_chain_alike (p : list nat) :
  forall item up x up',
    locate item up p = Some (x, up') ->
    chain_alike (skeleton item) up ->
    chain_alike (skeleton x) up' /\ top_skeleton (skeleton x) up' = top_skeleton (skeleton item) up.
Proof.
  induction p as [|i p IH]; intros item up x up'; simpl.
  - intros [= <- <-]. auto.
  - destruct (children item !! i) as [c|] eqn:Hc; [|discriminate].
    intros Hloc Hup. apply IH in Hloc as [H1 H2]; [split; [exact H1 | exact H2]|].
    simpl. split; [eauto | exact Hup].
Qed.

Lemma update_checkboxes_skeleton (self : TorrentAddingDialog.t)
    (item : list nat) (column : Z) :
  map skeleton (file_tree (_update_checkboxes humanize_size self item column))
  = map skeleton (file_tree self).
Proof.
  click_cases self item column i q top_item it up Htop Hloc.
  rewrite update_selection_label_file_tree. simpl.
  apply (skeletons_insert _ _ _ top_item); [exact Htop|].
  destruct (locate_chain_alike q top_item [] it up Hloc I) as [Hchain Htopsk].
  rewrite skeleton_update_ancestors; rewrite skeleton_set_check_state_to_tree; assumption.
Qed.

Lemma update_checkboxes_frame (self : TorrentAddingDialog.t) (item : list nat) (column : Z) :
  let self' := _update_checkboxes humanize_size self item column in
  _path_edit self' = _path_edit self /\ url_tree self' = url_tree self
  /\ window_title self' = window_title self /\ closed self' = closed self.
Proof.
  unfold _update_checkboxes.
  destruct (decide (column <> 0)); [auto|].
  destruct item as [|i q]; [auto|].
  destruct (file_tree self !! i) as [top_item|]; [|auto].
  destruct (locate top_item [] q) as [[it up]|]; [|auto].
  unfold _update_selection_label. destruct (selected_totals _) as [cnt sz].
  destruct (decide (cnt = 0)); simpl; auto.
Qed.

Lemma toggle_keeps (self : TorrentAddingDialog.t) (item : list nat) (s : Qt.CheckState) :
  let self' := toggle humanize_size self item s in
  map skeleton (file_tree self') = map skeleton (file_tree self)
  /\ _file_items self' = _file_items self
  /\ _torrent_info self' = _torrent_info self
  /\ _path_edit self' = _path_edit self
  /\ url_tree self' = url_tree self
  /\ window_title self' = window_title self
  /\ closed self' = closed self.
Proof.
  unfold toggle. set (self1 := set_file_tree _ self).
  destruct (update_checkboxes_frame self1 item 0) as (H1 & H2 & H3 & H4).
  rewrite update_checkboxes_skeleton, update_checkboxes_file_items,
    update_checkboxes_torrent_info, H1, H2, H3, H4.
  unfold self1. cbn [file_tree set_file_tree _file_items _torrent_info _path_edit url_tree
    window_title closed].
  split; [|repeat split].
  destruct item as [|i q]; [reflexivity|]. cbn [forest_alter_at].
  apply skeletons_alter. intros x _. apply skeleton_alter_at. apply skeleton_setCheckState.
Qed.

(** X1. Clicks change check states, the selection label and the Ok button,
    and nothing else: after any clicks on any dialog, the tree has the items
    it had, with their identities, texts and icons, in their places, and
    [_file_items], the torrent, the download directory field, the announce
    URLs, the title and whether the dialog is closed are as they were. *)
Theorem clicks_change_states_only (self : TorrentAddingDialog.t)
    (clicks : list (list nat * Qt.CheckState)) :
  let self' := toggles humanize_size self clicks in
  map skeleton (file_tree self') = map skeleton (file_tree self)
  /\ _file_items self' = _file_items self
  /\ _torrent_info self' = _torrent_info self
  /\ _path_edit self' = _path_edit self
  /\ url_tree self' = url_tree self
  /\ window_title self' = window_title self
  /\ closed self' = closed self.
Proof.
  revert self. induction clicks as [|[item s] clicks IH]; intros self; [repeat split|].
  cbn [toggles fold_left]. specialize (IH (toggle humanize_size self item s)).
  cbv zeta in IH. unfold toggles in IH.
  destruct IH as (H1 & H2 & H3 & H4 & H5 & H6 & H7).
  destruct (toggle_keeps self item s) as (K1 & K2 & K3 & K4 & K5 & K6 & K7).
  rewrite H1, H2, H3, H4, H5, H6, H7. auto 10.
Qed.

(** *** The download directory of the class *)

Lemma step_keeps_directory (st : Sessions.t) (e : Sessions.event) :
  Sessions.chooses_directory e = false ->
  Sessions.cls (Sessions.step humanize_size st e) = Sessions.cls st.
Proof.
  intros He. unfold Sessions.step.
  destruct e as [f ti|chosen|item written column| |]; destruct (Sessions.dialog st) as [d|];
    try reflexivity.
  - simpl in He. apply negb_false_iff, String.eqb_eq in He. subst chosen.
    unfold _browse. simpl. reflexivity.
  - destruct (ok_enabled d); [|reflexivity].
    destruct (submit_torrent d (Sessions.cls st)). reflexivity.
Qed.

Lemma run_keeps_directory (es : list Sessions.event) :
  forall st,
    Forall (fun e => Sessions.chooses_directory e = false) es ->
    Sessions.cls (Sessions.run humanize_size st es) = Sessions.cls st.
Proof.
  induction es as [|e es IH]; intros st Hes; [reflexivity|].
  inversion Hes as [|? ? He Hes']; subst. simpl.
  rewrite IH by exact Hes'. apply step_keeps_directory, He.
Qed.

(** C10. The download directory is state of the class. Once the user has
    browsed to a directory [d] in an open dialog, and until a directory is
    chosen again, whatever else happens in whatever dialogs, the class holds
    [d], and the dialog constructed next, for any torrent, starts with its
    download directory field showing [d]. *)
Theorem download_directory_is_shared (st : Sessions.t) (d : string)
    (later : list Sessions.event) (filename : string) (torrent_info : TorrentInfo.t) :
  is_Some (Sessions.dialog st) ->
  d <> "" ->
  Forall (fun e => Sessions.chooses_directory e = false) later ->
  let st' := Sessions.run humanize_size (Sessions.step humanize_size st (Sessions.browse d)) later in
  selected_download_dir (Sessions.cls st') = d
  /\ _path_edit (__init__ humanize_size (Sessions.cls st') filename torrent_info) = d.
Proof.
  intros [dlg Hdlg] Hd Hlater st'.
  assert (Hcls : selected_download_dir (Sessions.cls st') = d).
  { unfold st'. rewrite run_keeps_directory by exact Hlater.
    unfold Sessions.step. rewrite Hdlg. unfold _browse.
    destruct (decide (d = "")); [contradiction|]. reflexivity. }
  split; [exact Hcls|].
  unfold __init__. destruct (_traverse_file_tree _ _ _ _ _) as [[top n] file_items].
  simpl. exact Hcls.
Qed.

(** *** Aggregation over the whole tree *)

Lemma Forall_flatten_forest (P : QTreeWidgetItem -> Prop) (items : list QTreeWidgetItem) :
  Forall P (flatten_forest items) <-> Forall (fun c => Forall P (flatten c)) items.
Proof.
  unfold flatten_forest. induction items as [|c items IH]; simpl.
  - split; constructor.
  - rewrite Forall_app, IH, Forall_cons. reflexivity.
Qed.

Lemma Forall_flatten (P : QTreeWidgetItem -> Prop) (item : QTreeWidgetItem) :
  Forall P (flatten item) <-> P item /\ Forall (fun c => Forall P (flatten c)) (children item).
Proof. rewrite flatten_unfold, Forall_cons, Forall_flatten_forest. reflexivity. Qed.

Lemma aggregate_same (s : Qt.CheckState) (l : list Qt.CheckState) :
  l <> [] -> Forall (fun x => x = s) l -> Spec.aggregate l = s.
Proof.
  intros Hne Hall. unfold Spec.aggregate. destruct l as [|x l]; [congruence|].
  apply Forall_cons in Hall as [-> Hall].
  assert (Hfa : forall t, forallb (fun y => bool_decide (y = t)) l
                          = true \/ s <> t).
  { intros t. destruct (decide (s = t)) as [<-|Hne']; [left|right; exact Hne'].
    apply forallb_forall. intros y Hy. rewrite Forall_forall in Hall.
    apply bool_decide_eq_true_2, Hall. rewrite list_elem_of_In. exact Hy. }
  simpl. destruct s; simpl.
  - destruct (Hfa Qt.Unchecked) as [->|]; [reflexivity|congruence].
  - reflexivity.
  - destruct (Hfa Qt.Checked) as [->|]; [reflexivity|congruence].
Qed.

(** A tree with one state all over is aggregated. *)
Lemma same_state_aggregated (s : Qt.CheckState) (item : QTreeWidgetItem) :
  Forall (fun x => checkState x = s) (flatten item) -> Forall aggregated (flatten item).
Proof.
  induction item as [i t0 t1 ic st cs IH] using QTreeWidgetItem_tree_ind.
  rewrite !Forall_flatten. simpl. intros [Hs Hcs]. split.
  - unfold aggregated. simpl. destruct cs as [|c cs]; [left; reflexivity|right].
    rewrite Hs. symmetry. apply aggregate_same; [discriminate|].
    change (map checkState ?l) with (checkState <$> l). apply Forall_fmap.
    eapply Forall_impl; [exact Hcs|]. intros x Hx. simpl.
    apply Forall_flatten in Hx as [Hx _]. exact Hx.
  - rewrite Forall_forall in *. intros c Hc. apply IH; [exact Hc|]. apply Hcs, Hc.
Qed.

Lemma set_check_state_to_tree_same (s : Qt.CheckState) (item : QTreeWidgetItem) :
  Forall (fun x => checkState x = s)
         (flatten (setCheckState s (_set_check_state_to_tree item s))).
Proof.
  induction item as [i t0 t1 ic st cs IH] using QTreeWidgetItem_tree_ind.
  rewrite Forall_flatten. split; [reflexivity|].
  change (children (setCheckState s ?x)) with (children x).
  rewrite set_check_state_children. cbn [children].
  change (map ?f ?l) with (f <$> l). apply Forall_fmap. exact IH.
Qed.

Lemma beside_ok_of_aggregated (p : list nat) :
  forall item, Forall aggregated (flatten item) -> beside_ok item p.
Proof.
  induction p as [|i p IH]; intros item Hall; simpl; [exact I|].
  apply Forall_flatten in Hall as [_ Hcs]. rewrite Forall_lookup in Hcs. split.
  - intros j c _ Hc. exact (Hcs j c Hc).
  - destruct (children item !! i) as [c|] eqn:Hc; [|exact I]. apply IH. exact (Hcs i c Hc).
Qed.

Lemma beside_ok_alter_at (g : QTreeWidgetItem -> QTreeWidgetItem) (p : list nat) :
  forall item, beside_ok item p -> beside_ok (alter_at g item p) p.
Proof.
  induction p as [|i p IH]; intros item; simpl; [auto|].
  intros [Hside Hdown]. split.
  - intros j c Hne Hc. rewrite list_lookup_alter_ne in Hc by congruence.
    exact (Hside j c Hne Hc).
  - rewrite list_lookup_alter_eq. destruct (children item !! i) as [c|]; simpl; [|exact I].
    apply IH, Hdown.
Qed.

Lemma locate_beside_ok (p : list nat) :
  forall item up x up',
    locate item up p = Some (x, up') ->
    beside_ok item p -> chain_beside_ok up -> chain_beside_ok up'.
Proof.
  induction p as [|i p IH]; intros item up x up'; simpl.
  - intros [= <- <-] _ H. exact H.
  - destruct (children item !! i) as [c|] eqn:Hc; [|discriminate].
    intros Hloc [Hside Hdown] Hup. apply (IH _ _ _ _ Hloc Hdown).
    constructor; [exact Hside | exact Hup].
Qed.

(** The loop over the ancestors leaves an aggregated tree, when the item
    it starts from and the trees beside the way up are. *)
Lemma update_ancestors_aggregated (up : parents) :
  forall item,
    up_ok up -> chain_beside_ok up ->
    Forall aggregated (flatten item) ->
    Forall aggregated (flatten (_update_ancestors item up)).
Proof.
  induction up as [|[parent i] up IH]; intros item Hok Hbeside Hitem; [exact Hitem|].
  inversion Hok as [|? ? Hi Hok']; subst. inversion Hbeside as [|? ? Hside Hbeside']; subst.
  simpl in Hi, Hside. simpl. apply IH; [exact Hok' | exact Hbeside' |].
  rewrite Forall_flatten. split.
  - right. simpl. apply new_state_aggregate.
  - simpl. rewrite Forall_lookup. intros j c Hc.
    destruct (decide (i = j)) as [<-|Hne].
    + rewrite list_lookup_insert_eq in Hc by exact Hi. injection Hc as <-. exact Hitem.
    + rewrite list_lookup_insert_ne in Hc by exact Hne. apply (Hside j c); [congruence|exact Hc].
Qed.

(** A click keeps the tree aggregated. *)
Lemma toggle_aggregated (self : TorrentAddingDialog.t) (item : list nat) (s : Qt.CheckState) :
  Forall aggregated (flatten_forest (file_tree self)) ->
  Forall aggregated (flatten_forest (file_tree (toggle humanize_size self item s))).
Proof.
  intros Hall.
  destruct (forest_at (file_tree self) item) as [it0|] eqn:Hit0;
    [|rewrite toggle_nothing by exact Hit0; exact Hall].
  destruct item as [|i q]; [discriminate|].
  unfold toggle. set (self1 := set_file_tree _ self).
  assert (H1 : forest_at (file_tree self1) (i :: q) = Some (setCheckState s it0)).
  { unfold self1. cbn [file_tree set_file_tree].
    rewrite forest_alter_at_forest_at, Hit0. reflexivity. }
  destruct (update_checkboxes_file_tree self1 i q _ H1) as (top1 & up & Htop1 & Hloc & ->).
  rewrite Forall_flatten_forest in *. rewrite Forall_lookup in *.
  assert (Htop : exists top, file_tree self !! i = Some top
                             /\ top1 = alter_at (setCheckState s) top q).
  { unfold self1 in Htop1. cbn [file_tree set_file_tree forest_alter_at] in Htop1.
    rewrite list_lookup_alter_eq in Htop1.
    destruct (file_tree self !! i) as [top|]; [|discriminate].
    injection Htop1 as <-. eauto. }
  destruct Htop as (top & Htop & ->).
  intros j c Hc. destruct (decide (i = j)) as [<-|Hne].
  - rewrite list_lookup_insert_eq in Hc by (eapply lookup_lt_Some; exact Htop1).
    injection Hc as <-.
    destruct (locate_spec q _ [] _ up Hloc) as (_ & Hok & _).
    apply update_ancestors_aggregated.
    + apply Hok. constructor.
    + eapply locate_beside_ok; [exact Hloc | | constructor].
      apply beside_ok_alter_at, beside_ok_of_aggregated. exact (Hall i top Htop).
    + apply (same_state_aggregated s).
      match goal with
      | |- Forall _ (flatten ?t) =>
          replace t with (setCheckState s (_set_check_state_to_tree it0 s))
            by (destruct it0; reflexivity)
      end.
      apply set_check_state_to_tree_same.
  - rewrite list_lookup_insert_ne in Hc by exact Hne.
    unfold self1 in Hc. cbn [file_tree set_file_tree forest_alter_at] in Hc.
    rewrite list_lookup_alter_ne in Hc by exact Hne. exact (Hall j c Hc).
Qed.

Lemma traverse_all_checked (node : FileTreeNode) :
  forall name next items,
    Forall (fun x => checkState x = Qt.Checked)
           (flatten (fst (fst (_traverse_file_tree humanize_size name node next items)))).
Proof.
  induction node as [f|entries IH] using FileTreeNode_tree_ind; intros name next items.
  - simpl. repeat constructor.
  - rewrite traverse_directory.
    assert (Hes : forall n0 i0,
      Forall (fun c => Forall (fun x => checkState x = Qt.Checked) (flatten c))
             (fst (fst (_traverse_entries humanize_size entries n0 i0)))).
    { induction IH as [|[nm child] es Hchild _ IHes]; intros n0 i0; simpl; [constructor|].
      simpl in Hchild. specialize (Hchild nm n0 i0).
      destruct (_traverse_file_tree humanize_size nm child n0 i0) as [[c n1] i1].
      specialize (IHes n1 i1).
      destruct (_traverse_entries humanize_size es n1 i1) as [[cs n2] i2].
      simpl in *. constructor; assumption. }
    specialize (Hes (S next) items).
    destruct (_traverse_entries humanize_size entries (S next) items) as [[cs n'] i'].
    cbn [fst] in *. rewrite Forall_flatten. split; [reflexivity | exact Hes].
Qed.

Lemma sortItems_item_same_state (s : Qt.CheckState) (item : QTreeWidgetItem) :
  Forall (fun x => checkState x = s) (flatten item) ->
  Forall (fun x => checkState x = s) (flatten (sortItems_item item)).
Proof.
  induction item as [i t0 t1 ic st cs IH] using QTreeWidgetItem_tree_ind.
  rewrite !Forall_flatten. simpl. intros [Hs Hcs]. split; [exact Hs|].
  rewrite sort_level_Permutation.
  change (map ?f ?l) with (f <$> l). apply Forall_fmap.
  rewrite Forall_forall in *. intros c Hc. apply IH; [exact Hc|]. apply Hcs, Hc.
Qed.

Lemma init_all_checked (cls : class_attrs) (filename : string) (torrent_info : TorrentInfo.t) :
  Forall (fun x => checkState x = Qt.Checked)
         (flatten_forest (file_tree (__init__ humanize_size cls filename torrent_info))).
Proof.
  unfold __init__.
  pose proof (traverse_all_checked
    (DownloadInfo.file_tree (TorrentInfo.download_info torrent_info))
    (DownloadInfo.suggested_name (TorrentInfo.download_info torrent_info)) 0%nat []) as H.
  destruct (_traverse_file_tree _ _ _ _ _) as [[top_item n] file_items]. simpl in H.
  cbn [file_tree]. rewrite Forall_flatten_forest. unfold sortItems.
  rewrite sort_level_Permutation. repeat constructor.
  apply sortItems_item_same_state, H.
Qed.

Lemma toggles_aggregated (clicks : list (list nat * Qt.CheckState)) :
  forall self,
    Forall aggregated (flatten_forest (file_tree self)) ->
    Forall aggregated (flatten_forest (file_tree (toggles humanize_size self clicks))).
Proof.
  induction clicks as [|[item s] clicks IH]; intros self H; [exact H|].
  apply IH, toggle_aggregated, H.
Qed.

Lemma reachable_aggregated (cls : class_attrs) (filename : string)
    (torrent_info : TorrentInfo.t) (clicks : list (list nat * Qt.CheckState)) :
  Forall aggregated
    (flatten_forest
       (file_tree (toggles humanize_size (__init__ humanize_size cls filename torrent_info)
                     clicks))).
Proof.
  apply toggles_aggregated. rewrite Forall_flatten_forest.
  pose proof (init_all_checked cls filename torrent_info) as H.
  rewrite Forall_flatten_forest in H.
  eapply Forall_impl; [exact H|]. intros c. apply same_state_aggregated.
Qed.

(** X2. Aggregation holds over the whole tree, not only above the last
    click: in the dialog of any torrent, after any clicks, every item that
    has children is Checked if all its children are, Unchecked if all its
    children are, and partially checked otherwise. *)
Theorem aggregation_everywhere (cls : class_attrs) (filename : string)
    (torrent_info : TorrentInfo.t) (clicks : list (list nat * Qt.CheckState))
    (p : list nat) (x : QTreeWidgetItem) :
  let self := toggles humanize_size (__init__ humanize_size cls filename torrent_info) clicks in
  forest_at (file_tree self) p = Some x ->
  children x <> [] ->
  checkState x = Spec.aggregate (map checkState (children x)).
Proof.
  intros self Hx Hne.
  pose proof (reachable_aggregated cls filename torrent_info clicks) as Hall.
  fold self in Hall. rewrite Forall_forall in Hall.
  destruct (Hall x) as [Hnil|Hagg]; [|contradiction|exact Hagg].
  rewrite list_elem_of_In. destruct p as [|i q]; [discriminate|]. simpl in Hx.
  destruct (file_tree self !! i) as [c|] eqn:Hc; [|discriminate].
  apply in_flatten_forest. exists c. split.
  - rewrite <- list_elem_of_In. apply list_elem_of_lookup. eauto.
  - clear Hc. revert c Hx. induction q as [|j q IH]; intros c Hx; simpl in Hx.
    + injection Hx as <-. rewrite flatten_unfold. left. reflexivity.
    + destruct (children c !! j) as [c'|] eqn:Hc'; [|discriminate].
      rewrite flatten_unfold. right. apply in_flatten_forest. exists c'. split.
      * rewrite <- list_elem_of_In. apply list_elem_of_lookup. eauto.
      * apply IH, Hx.
Qed.

Lemma aggregate_decided (s : Qt.CheckState) (l : list Qt.CheckState) :
  Spec.aggregate l = s -> s <> Qt.PartiallyChecked -> Forall (fun x => x = s) l.
Proof.
  unfold Spec.aggregate. intros Hagg Hs.
  destruct (forallb (fun x => bool_decide (x = Qt.Checked)) l) eqn:Hc.
  - subst s. apply Forall_forall. intros x Hx. rewrite forallb_forall in Hc.
    rewrite list_elem_of_In in Hx. specialize (Hc x Hx).
    apply bool_decide_eq_true in Hc. exact Hc.
  - destruct (forallb (fun x => bool_decide (x = Qt.Unchecked)) l) eqn:Hu; [|congruence].
    subst s. apply Forall_forall. intros x Hx. rewrite forallb_forall in Hu.
    rewrite list_elem_of_In in Hx. specialize (Hu x Hx).
    apply bool_decide_eq_true in Hu. exact Hu.
Qed.

Lemma decided_below (s : Qt.CheckState) (q : list nat) :
  s <> Qt.PartiallyChecked ->
  forall x y,
    Forall aggregated (flatten x) -> checkState x = s ->
    item_at x q = Some y -> checkState y = s.
Proof.
  intros Hs. induction q as [|j q IH]; intros x y Hall Hx; simpl.
  - intros [= <-]. exact Hx.
  - destruct (children x !! j) as [c|] eqn:Hc; [|discriminate].
    apply Forall_flatten in Hall as [Hagg Hcs]. rewrite Forall_lookup in Hcs.
    apply IH; [exact (Hcs j c Hc)|].
    destruct Hagg as [Hnil|Hagg]; [rewrite Hnil in Hc; discriminate|].
    rewrite Hx in Hagg. symmetry in Hagg.
    pose proof (aggregate_decided s _ Hagg Hs) as Hall'.
    rewrite Forall_forall in Hall'. apply Hall'.
    change (map checkState ?l) with (checkState <$> l).
    apply list_elem_of_fmap_2, list_elem_of_lookup. eauto.
Qed.

Lemma aggregated_at (q : list nat) :
  forall item x,
    Forall aggregated (flatten item) -> item_at item q = Some x ->
    Forall aggregated (flatten x).
Proof.
  induction q as [|j q IH]; intros item x Hall; simpl.
  - intros [= <-]. exact Hall.
  - destruct (children item !! j) as [c|] eqn:Hc; [|discriminate].
    apply Forall_flatten in Hall as [_ Hcs]. rewrite Forall_lookup in Hcs.
    apply IH. exact (Hcs j c Hc).
Qed.

(** X3. In the dialog of any torrent, after any clicks, below a Checked item
    every item is Checked and below an Unchecked item every item is
    Unchecked: a directory shown as Checked hides no unchecked file. *)
Theorem decided_items_decide_below (cls : class_attrs) (filename : string)
    (torrent_info : TorrentInfo.t) (clicks : list (list nat * Qt.CheckState))
    (p q : list nat) (x y : QTreeWidgetItem) :
  let self := toggles humanize_size (__init__ humanize_size cls filename torrent_info) clicks in
  forest_at (file_tree self) p = Some x ->
  item_at x q = Some y ->
  checkState x <> Qt.PartiallyChecked ->
  checkState y = checkState x.
Proof.
  intros self Hx Hy Hs.
  pose proof (reachable_aggregated cls filename torrent_info clicks) as Hall.
  fold self in Hall. rewrite Forall_flatten_forest, Forall_lookup in Hall.
  destruct p as [|i p]; [discriminate|]. simpl in Hx.
  destruct (file_tree self !! i) as [c|] eqn:Hc; [|discriminate].
  apply (decided_below (checkState x) q Hs x y); [|reflexivity|exact Hy].
  apply (aggregated_at p c x); [exact (Hall i c Hc) | exact Hx].
Qed.

(** *** The files a dialog selects *)

Lemma toggle_forest_ids (self : TorrentAddingDialog.t) (item : list nat) (s : Qt.CheckState) :
  forest_ids (file_tree (toggle humanize_size self item s)) = forest_ids (file_tree self).
Proof.
  unfold toggle. rewrite update_checkboxes_forest_ids.
  cbn [file_tree set_file_tree]. apply forest_ids_alter_at, ids_setCheckState.
Qed.

Lemma toggles_same_items (clicks : list (list nat * Qt.CheckState)) :
  forall self,
    forest_ids (file_tree (toggles humanize_size self clicks)) = forest_ids (file_tree self)
    /\ _file_items (toggles humanize_size self clicks) = _file_items self.
Proof.
  induction clicks as [|[item s] clicks IH]; intros self; [split; reflexivity|].
  cbn [toggles fold_left]. destruct (IH (toggle humanize_size self item s)) as [H1 H2].
  unfold toggles in H1, H2. rewrite H1, H2, toggle_forest_ids.
  split; [reflexivity|]. apply toggle_keeps.
Qed.

Lemma item_by_ident_In (items : list QTreeWidgetItem) (r : nat) (it : QTreeWidgetItem) :
  item_by_ident items r = Some it -> In it (flatten_forest items) /\ ident it = r.
Proof.
  unfold item_by_ident. intros H. apply find_some in H as [Hin Heq].
  split; [exact Hin | apply Nat.eqb_eq, Heq].
Qed.

(** In the dialog of a torrent, after any clicks, every pair of
    [_file_items] still references an item of the tree. *)
Lemma reachable_references (cls : class_attrs) (filename : string)
    (torrent_info : TorrentInfo.t) (clicks : list (list nat * Qt.CheckState)) :
  let self := toggles humanize_size (__init__ humanize_size cls filename torrent_info) clicks in
  forall f r, In (f, r) (_file_items self) ->
    exists it, item_by_ident (file_tree self) r = Some it
               /\ In it (flatten_forest (file_tree self)).
Proof.
  intros self f r Hfr.
  destruct (toggles_same_items clicks (__init__ humanize_size cls filename torrent_info))
    as [Hids Hitems].
  fold self in Hids, Hitems. rewrite Hitems in Hfr.
  destruct (init_file_items cls filename torrent_info) as [_ Hpairs].
  destruct (Hpairs f r Hfr) as (it0 & Hit0 & _).
  apply item_by_ident_In in Hit0 as [Hin0 Hid0].
  assert (Hr : In r (forest_ids (file_tree self))).
  { rewrite Hids. unfold forest_ids. rewrite <- Hid0. apply in_map, Hin0. }
  unfold forest_ids in Hr. apply in_map_iff in Hr as (it & <- & Hin).
  exists it. split; [|exact Hin].
  apply item_by_ident_found; [|exact Hin].
  destruct (toggles_consistent clicks _ (init_consistent cls filename torrent_info)) as [Hnd _].
  exact Hnd.
Qed.

Lemma weigh_all_checked (w : FileInfo.t -> Z) (file_tree : list QTreeWidgetItem)
    (file_items : list (FileInfo.t * nat)) :
  (forall f r, In (f, r) file_items -> is_checked file_tree r = true) ->
  fold_right Z.add 0 (map (pair_weight w file_tree) file_items) = weigh w (map fst file_items).
Proof.
  unfold weigh. induction file_items as [|[f r] l IH]; intros Hall; [reflexivity|].
  cbn [map fold_right]. rewrite IH by (intros; eapply Hall; right; eassumption).
  change (pair_weight w file_tree (f, r)) with (if is_checked file_tree r then w f else 0).
  rewrite (Hall f r (or_introl eq_refl)). reflexivity.
Qed.

Lemma weigh_bounds (w : FileInfo.t -> Z) (file_tree : list QTreeWidgetItem)
    (file_items : list (FileInfo.t * nat)) :
  Forall (fun f => 0 <= w f) (map fst file_items) ->
  0 <= fold_right Z.add 0 (map (pair_weight w file_tree) file_items)
    <= weigh w (map fst file_items).
Proof.
  unfold weigh. induction file_items as [|[f r] l IH]; intros Hall; [simpl; lia|].
  cbn [map fold_right fst] in *. apply Forall_cons in Hall as [Hf Hall].
  specialize (IH Hall).
  change (pair_weight w file_tree (f, r)) with (if is_checked file_tree r then w f else 0).
  destruct (is_checked file_tree r); lia.
Qed.

Lemma checked_paths_fold (file_tree : list QTreeWidgetItem)
    (file_items : list (FileInfo.t * nat)) (acc : list (list string)) :
  fold_left (fun file_paths '(node, item) =>
               if is_checked file_tree item
               then file_paths ++ [FileInfo.path node]
               else file_paths) file_items acc
  = acc ++ map (fun entry => FileInfo.path (fst entry)) (checked_pairs file_tree file_items).
Proof.
  revert acc. induction file_items as [|[f r] l IH]; intros acc; simpl.
  - rewrite app_nil_r. reflexivity.
  - rewrite IH. unfold checked_pairs. simpl. destruct (is_checked file_tree r); simpl.
    + rewrite <- app_assoc. reflexivity.
    + reflexivity.
Qed.

Lemma checked_paths_pairs (self : TorrentAddingDialog.t) :
  checked_paths self
  = map (fun entry => FileInfo.path (fst entry))
        (checked_pairs (file_tree self) (_file_items self)).
Proof. unfold checked_paths. rewrite checked_paths_fold. reflexivity. Qed.

Lemma checked_pairs_count (file_tree : list QTreeWidgetItem)
    (file_items : list (FileInfo.t * nat)) :
  Z.of_nat (List.length (checked_pairs file_tree file_items))
  = fold_right Z.add 0 (map (pair_weight (fun _ => 1) file_tree) file_items).
Proof.
  unfold checked_pairs. induction file_items as [|[f r] l IH]; [reflexivity|].
  cbn [List.filter map fold_right snd].
  change (pair_weight (fun _ => 1) file_tree (f, r)) with (if is_checked file_tree r then 1 else 0).
  destruct (is_checked file_tree r); cbn [List.length]; lia.
Qed.

Lemma checked_pairs_sublist (file_tree : list QTreeWidgetItem)
    (file_items : list (FileInfo.t * nat)) :
  checked_pairs file_tree file_items `sublist_of` file_items.
Proof.
  unfold checked_pairs. induction file_items as [|e l IH]; [reflexivity|].
  simpl. destruct (is_checked file_tree (snd e)).
  - apply sublist_skip, IH.
  - apply sublist_cons, IH.
Qed.

(** The paths [submit_torrent] whitelists are as many as the Checked leaves. *)
Lemma checked_paths_count (self : TorrentAddingDialog.t) :
  Spec.consistent self ->
  Z.of_nat (List.length (checked_paths self)) = Spec.selectedCount self.
Proof.
  intros Hc. rewrite checked_paths_pairs, length_map, checked_pairs_count.
  pose proof (selected_totals_spec self Hc) as Hspec.
  unfold selected_totals in Hspec. rewrite selected_totals_fold in Hspec.
  injection Hspec as Hcount _. rewrite <- Hcount. lia.
Qed.

Lemma weigh_checked_pairs (w : FileInfo.t -> Z) (file_tree : list QTreeWidgetItem)
    (file_items : list (FileInfo.t * nat)) :
  fold_right Z.add 0 (map (pair_weight w file_tree) file_items)
  = weigh w (map fst (checked_pairs file_tree file_items)).
Proof.
  unfold weigh, checked_pairs. induction file_items as [|[f r] l IH]; [reflexivity|].
  cbn [map fold_right List.filter snd].
  change (pair_weight w file_tree (f, r)) with (if is_checked file_tree r then w f else 0).
  rewrite IH. destruct (is_checked file_tree r); reflexivity.
Qed.

(** The selection, read off the pairs of [_file_items] whose item is
    Checked: the count, the size and the paths that would be whitelisted. *)
Lemma selection_as_pairs (self : TorrentAddingDialog.t) :
  Spec.consistent self ->
  let fs := map fst (checked_pairs (file_tree self) (_file_items self)) in
  Spec.selectedCount self = Z.of_nat (List.length fs)
  /\ Spec.selectedSize self = total_length fs
  /\ checked_paths self = map FileInfo.path fs.
Proof.
  intros Hc fs. pose proof (selected_totals_spec self Hc) as Hspec.
  unfold selected_totals in Hspec. rewrite selected_totals_fold in Hspec.
  injection Hspec as Hcount Hsize. split; [|split].
  - rewrite <- Hcount, <- checked_pairs_count. unfold fs. rewrite length_map. lia.
  - rewrite <- Hsize, weigh_checked_pairs. reflexivity.
  - rewrite checked_paths_pairs. unfold fs. rewrite map_map. reflexivity.
Qed.

Lemma checked_pairs_uniform (s : Qt.CheckState) (file_tree : list QTreeWidgetItem)
    (file_items : list (FileInfo.t * nat)) :
  (forall f r, In (f, r) file_items ->
     exists it, item_by_ident file_tree r = Some it /\ checkState it = s) ->
  checked_pairs file_tree file_items
  = if bool_decide (s = Qt.Checked) then file_items else [].
Proof.
  unfold checked_pairs. induction file_items as [|[f r] l IH]; intros Hall.
  - destruct (bool_decide _); reflexivity.
  - cbn [List.filter snd]. rewrite IH by (intros; eapply Hall; right; eassumption).
    destruct (Hall f r (or_introl eq_refl)) as (it & Hit & Hs).
    unfold is_checked. rewrite Hit, Hs. destruct (bool_decide _); reflexivity.
Qed.

(** In the dialog of a torrent, after any clicks, when every item of the
    tree has the state [s], the Checked pairs are all the pairs or none. *)
Lemma uniform_selection (cls : class_attrs) (filename : string)
    (torrent_info : TorrentInfo.t) (clicks : list (list nat * Qt.CheckState))
    (s : Qt.CheckState) :
  let self := toggles humanize_size (__init__ humanize_size cls filename torrent_info) clicks in
  (forall x, In x (flatten_forest (file_tree self)) -> checkState x = s) ->
  map fst (checked_pairs (file_tree self) (_file_items self))
  = if bool_decide (s = Qt.Checked)
    then files_of (DownloadInfo.file_tree (TorrentInfo.download_info torrent_info))
    else [].
Proof.
  intros self Hall.
  rewrite (checked_pairs_uniform s).
  - destruct (bool_decide _); [|reflexivity].
    destruct (toggles_same_items clicks (__init__ humanize_size cls filename torrent_info))
      as [_ Hitems].
    fold self in Hitems. rewrite Hitems.
    apply (init_file_items cls filename torrent_info).
  - intros f r Hfr.
    destruct (reachable_references cls filename torrent_info clicks f r Hfr) as (it & Hit & Hin).
    exists it. split; [exact Hit | apply Hall, Hin].
Qed.

Lemma reachable_consistent (cls : class_attrs) (filename : string)
    (torrent_info : TorrentInfo.t) (clicks : list (list nat * Qt.CheckState)) :
  Spec.consistent
    (toggles humanize_size (__init__ humanize_size cls filename torrent_info) clicks).
Proof. apply toggles_consistent, init_consistent. Qed.

(** X4. The dialog that [__init__] builds selects the whole torrent: the
    pairs of [_file_items] are the files of the torrent's tree of files in
    its order, the Checked leaves are as many as these files and weigh
    their total length, [submit_torrent] would whitelist the path of every
    file, in the order of the torrent, and the Ok button is enabled. *)
Theorem new_dialog_selects_every_file (cls : class_attrs) (filename : string)
    (torrent_info : TorrentInfo.t) :
  let self := __init__ humanize_size cls filename torrent_info in
  let files := files_of (DownloadInfo.file_tree (TorrentInfo.download_info torrent_info)) in
  map fst (_file_items self) = files
  /\ Spec.selectedCount self = Z.of_nat (List.length files)
  /\ Spec.selectedSize self = total_length files
  /\ checked_paths self = map FileInfo.path files
  /\ ok_enabled self = true.
Proof.
  intros self files.
  pose proof (init_all_checked cls filename torrent_info) as Hall.
  rewrite Forall_forall in Hall.
  pose proof (uniform_selection cls filename torrent_info [] Qt.Checked) as Hsel.
  cbn [toggles fold_left] in Hsel. fold self in Hsel.
  rewrite bool_decide_eq_true_2 in Hsel by reflexivity.
  specialize (Hsel (fun x Hx => Hall x (proj2 (list_elem_of_In _ _) Hx))).
  destruct (selection_as_pairs self (init_consistent cls filename torrent_info))
    as (Hcount & Hsize & Hpaths).
  rewrite Hsel in Hcount, Hsize, Hpaths.
  split; [apply (init_file_items cls filename torrent_info)|].
  split; [exact Hcount|]. split; [exact Hsize|]. split; [exact Hpaths|].
  apply (init_selected_totals cls filename torrent_info).
Qed.

(** After a click on the only top-level item, every item of the tree has
    the state that was written. *)
Lemma toggle_top_level_all (self : TorrentAddingDialog.t) (s : Qt.CheckState) :
  List.length (file_tree self) = 1%nat ->
  forall x, In x (flatten_forest (file_tree (toggle humanize_size self [0%nat] s))) ->
            checkState x = s.
Proof.
  intros Hlen x Hx.
  assert (Hsome : is_Some (forest_at (file_tree self) [0%nat])).
  { simpl. destruct (file_tree self) as [|top_item l]; [discriminate|]. simpl. eauto. }
  destruct (in_flatten_forest_at x _ Hx) as [p Hp].
  assert (Hlen' : List.length (file_tree (toggle humanize_size self [0%nat] s)) = 1%nat).
  { unfold toggle. rewrite update_checkboxes_top_level.
    change (file_tree (set_file_tree ?ft ?d)) with ft.
    rewrite forest_alter_at_length. exact Hlen. }
  destruct p as [|i q]; [discriminate|].
  assert (i = 0%nat) as ->.
  { simpl in Hp. destruct (file_tree (toggle humanize_size self [0%nat] s) !! i) eqn:Hi;
      [|discriminate].
    apply lookup_lt_Some in Hi. lia. }
  exact (toggle_below self [0%nat] s q x Hsome Hp).
Qed.

Lemma toggles_snoc (self : TorrentAddingDialog.t) (clicks : list (list nat * Qt.CheckState))
    (item : list nat) (s : Qt.CheckState) :
  toggles humanize_size self (clicks ++ [(item, s)])
  = toggle humanize_size (toggles humanize_size self clicks) item s.
Proof. unfold toggles. rewrite fold_left_app. reflexivity. Qed.

(** X5. Whatever was clicked before, a click on the top-level item selects
    the whole torrent or nothing of it: when the click leaves the item
    Checked, the Checked leaves are as many as the files of the torrent
    and weigh their total length, every path would be whitelisted, and Ok
    is enabled exactly when the torrent has a file; when it leaves the
    item in another state, no leaf is Checked, no path would be
    whitelisted, Ok is disabled and the label is Nothing to download. *)
Theorem top_level_click_selects_all_or_nothing (cls : class_attrs) (filename : string)
    (torrent_info : TorrentInfo.t) (clicks : list (list nat * Qt.CheckState))
    (s : Qt.CheckState) :
  let self := toggles humanize_size (__init__ humanize_size cls filename torrent_info) clicks in
  let self' := toggle humanize_size self [0%nat] s in
  let files := files_of (DownloadInfo.file_tree (TorrentInfo.download_info torrent_info)) in
  if bool_decide (s = Qt.Checked)
  then Spec.selectedCount self' = Z.of_nat (List.length files)
       /\ Spec.selectedSize self' = total_length files
       /\ checked_paths self' = map FileInfo.path files
       /\ ok_enabled self' = negb (Nat.eqb (List.length files) 0)
  else Spec.selectedCount self' = 0
       /\ Spec.selectedSize self' = 0
       /\ checked_paths self' = []
       /\ ok_enabled self' = false
       /\ _selection_label self' = "Nothing to download".
Proof.
  intros self self' files.
  assert (Hlen : List.length (file_tree self) = 1%nat).
  { unfold self. rewrite (proj2 (toggles_keep clicks _)).
    apply (init_top_level cls filename torrent_info). }
  assert (Hsome : is_Some (forest_at (file_tree self) [0%nat])).
  { simpl. destruct (file_tree self) as [|top_item l]; [discriminate|]. simpl. eauto. }
  pose proof (reachable_consistent cls filename torrent_info clicks) as Hc. fold self in Hc.
  destruct (toggle_reports self [0%nat] s Hc Hsome) as (_ & Hok & Hlabel).
  fold self' in Hok, Hlabel.
  pose proof (uniform_selection cls filename torrent_info (clicks ++ [([0%nat], s)]) s) as Hsel.
  cbv zeta in Hsel. rewrite toggles_snoc in Hsel. fold self self' in Hsel.
  specialize (Hsel (toggle_top_level_all self s Hlen)).
  destruct (selection_as_pairs self' (toggle_consistent self [0%nat] s Hc))
    as (Hcount & Hsize & Hpaths).
  rewrite Hsel in Hcount, Hsize, Hpaths. fold files in Hcount, Hsize, Hpaths.
  destruct (bool_decide (s = Qt.Checked)).
  - split; [exact Hcount|]. split; [exact Hsize|]. split; [exact Hpaths|].
    rewrite Hok, Hcount. destruct files; reflexivity.
  - cbn in Hcount, Hsize, Hpaths. rewrite Hcount in Hok, Hlabel.
    split; [exact Hcount|]. split; [exact Hsize|]. split; [exact Hpaths|].
    split; [exact Hok | exact Hlabel].
Qed.

(** X7. In the dialog of a torrent whose files have lengths that are not
    negative, after any clicks, the number of selected files lies between
    0 and the number of files of the torrent, and the selected size
    between 0 and their total length. *)
Theorem selection_bounds (cls : class_attrs) (filename : string)
    (torrent_info : TorrentInfo.t) (clicks : list (list nat * Qt.CheckState)) :
  let files := files_of (DownloadInfo.file_tree (TorrentInfo.download_info torrent_info)) in
  Forall (fun f => 0 <= FileInfo.length f) files ->
  let self := toggles humanize_size (__init__ humanize_size cls filename torrent_info) clicks in
  0 <= Spec.selectedCount self <= Z.of_nat (List.length files)
  /\ 0 <= Spec.selectedSize self <= total_length files.
Proof.
  intros files Hlengths self.
  pose proof (reachable_consistent cls filename torrent_info clicks) as Hc. fold self in Hc.
  pose proof (selected_totals_spec self Hc) as Hspec.
  unfold selected_totals in Hspec. rewrite selected_totals_fold in Hspec.
  injection Hspec as Hcount Hsize.
  destruct (toggles_same_items clicks (__init__ humanize_size cls filename torrent_info))
    as [_ Hitems].
  fold self in Hitems.
  assert (Hfiles : map fst (_file_items self) = files).
  { rewrite Hitems. apply (init_file_items cls filename torrent_info). }
  split.
  - pose proof (weigh_bounds (fun _ => 1) (file_tree self) (_file_items self)) as Hb.
    rewrite Hfiles, weigh_count in Hb.
    rewrite <- Hcount. cbn [Z.add]. apply Hb, Forall_forall. intros; lia.
  - pose proof (weigh_bounds FileInfo.length (file_tree self) (_file_items self)) as Hb.
    rewrite Hfiles in Hb. rewrite <- Hsize. cbn [Z.add]. apply Hb, Hlengths.
Qed.

(** *** The leaves of the tree and the pairs of [_file_items] *)

Lemma item_named_In (name : string) (items : list QTreeWidgetItem) (c : QTreeWidgetItem) :
  Spec.item_named name items = Some c -> In c items /\ text0 c = name.
Proof.
  unfold Spec.item_named. intros H. apply find_some in H as [Hin Heq].
  split; [exact Hin | apply String.eqb_eq, Heq].
Qed.

Lemma distinct_NoDup (names : list string) : distinct names = true -> NoDup names.
Proof.
  induction names as [|name rest IH]; [constructor|].
  cbn [distinct]. intros H. apply andb_true_iff in H as [Hhead Hrest].
  apply NoDup_cons. split; [|apply IH, Hrest].
  intros Hin. apply negb_true_iff in Hhead.
  assert (Hex : existsb (String.eqb name) rest = true).
  { apply existsb_exists. exists name. split; [|apply String.eqb_refl].
    apply list_elem_of_In, Hin. }
  congruence.
Qed.

Lemma item_named_found (items : list QTreeWidgetItem) (c : QTreeWidgetItem) :
  NoDup (map text0 items) -> In c items -> Spec.item_named (text0 c) items = Some c.
Proof.
  unfold Spec.item_named. induction items as [|x items IH]; [intros _ []|].
  cbn [map find]. intros Hnd Hin. apply NoDup_cons in Hnd as [Hnotin Hnd].
  destruct (String.eqb (text0 x) (text0 c)) eqn:Heq.
  - apply String.eqb_eq in Heq. destruct Hin as [-> | Hin]; [reflexivity|].
    exfalso. apply Hnotin. rewrite Heq. apply list_elem_of_In, in_map, Hin.
  - destruct Hin as [-> | Hin]; [rewrite String.eqb_refl in Heq; discriminate|].
    apply IH; assumption.
Qed.

Lemma item_named_map (g : QTreeWidgetItem -> QTreeWidgetItem) (name : string)
    (items : list QTreeWidgetItem) :
  (forall c, text0 (g c) = text0 c) ->
  Spec.item_named name (map g items) = option_map g (Spec.item_named name items).
Proof.
  intros Hg. unfold Spec.item_named. induction items as [|x items IH]; [reflexivity|].
  cbn [map find]. rewrite Hg. destruct (String.eqb (text0 x) name); [reflexivity | exact IH].
Qed.

Lemma traverse_text0 (name : string) (node : FileTreeNode) (next : nat)
    (items : list (FileInfo.t * nat)) :
  text0 (fst (fst (_traverse_file_tree humanize_size name node next items))) = name.
Proof.
  destruct node as [f|entries]; [reflexivity|]. rewrite traverse_directory.
  destruct (_traverse_entries humanize_size entries (S next) items) as [[cs n] i]. reflexivity.
Qed.

Lemma traverse_entries_names (es : list (string * FileTreeNode)) :
  forall next items,
    map text0 (fst (fst (_traverse_entries humanize_size es next items))) = map fst es.
Proof.
  induction es as [|[name child] es IH]; intros next items; [reflexivity|].
  cbn [_traverse_entries]. pose proof (traverse_text0 name child next items) as Hname.
  destruct (_traverse_file_tree humanize_size name child next items) as [[c n1] i1].
  specialize (IH n1 i1).
  destruct (_traverse_entries humanize_size es n1 i1) as [[cs n2] i2].
  cbn [fst map] in *. rewrite Hname, IH. reflexivity.
Qed.

Lemma sortItems_item_text0 (c : QTreeWidgetItem) : text0 (sortItems_item c) = text0 c.
Proof. destruct c; reflexivity. Qed.

Lemma sortItems_item_children (c : QTreeWidgetItem) :
  children (sortItems_item c) = sort_level (map sortItems_item (children c)).
Proof. destruct c; reflexivity. Qed.

(** In a level that was sorted, every item is still found under its name. *)
Lemma item_named_sorted (cs : list QTreeWidgetItem) (c : QTreeWidgetItem) :
  NoDup (map text0 cs) -> In c cs ->
  Spec.item_named (text0 c) (sort_level (map sortItems_item cs)) = Some (sortItems_item c).
Proof.
  intros Hnd Hin. rewrite <- sortItems_item_text0. apply item_named_found.
  - change (map ?f ?l) with (f <$> l). rewrite sort_level_Permutation.
    change (?f <$> ?l) with (map f l). rewrite map_map.
    erewrite map_ext; [exact Hnd|]. intros x. apply sortItems_item_text0.
  - apply list_elem_of_In. rewrite sort_level_Permutation.
    apply list_elem_of_In, in_map, Hin.
Qed.

(** What [_traverse_file_tree] appends to [_file_items] is the leaves of
    the item it made, as they stand once the tree is sorted. *)
Lemma traverse_leaves (node : FileTreeNode) :
  is_mapping node = true ->
  forall name next items,
    let '(item, _, items') := _traverse_file_tree humanize_size name node next items in
    items' = items ++ map recorded (Spec.leaves node (sortItems_item item)).
Proof.
  induction node as [f|entries IH] using FileTreeNode_tree_ind; intros Hmap name next items.
  - reflexivity.
  - rewrite traverse_directory.
    cbn [is_mapping] in Hmap. apply andb_true_iff in Hmap as [Hnames Hsub].
    apply distinct_NoDup in Hnames.
    assert (Hes : forall (level : list QTreeWidgetItem) n0 i0,
      let '(cs, _, i') := _traverse_entries humanize_size entries n0 i0 in
      (forall c, In c cs -> Spec.item_named (text0 c) level = Some (sortItems_item c)) ->
      i' = i0 ++ map recorded
                   (concat (map (fun e => match Spec.item_named (fst e) level with
                                          | Some c => Spec.leaves (snd e) c
                                          | None => []
                                          end) entries))).
    { intros level. clear Hnames.
      induction IH as [|[nm child] es Hchild _ IHes]; intros n0 i0.
      - simpl. intros _. rewrite app_nil_r. reflexivity.
      - cbn [forallb snd] in Hsub. apply andb_true_iff in Hsub as [Hc Hsub].
        cbn [_traverse_entries]. pose proof (traverse_text0 nm child n0 i0) as Hname.
        cbn [snd] in Hchild. specialize (Hchild Hc nm n0 i0).
        destruct (_traverse_file_tree humanize_size nm child n0 i0) as [[c n1] i1].
        specialize (IHes Hsub n1 i1).
        destruct (_traverse_entries humanize_size es n1 i1) as [[cs n2] i2].
        cbn [fst] in Hname. intros Hlevel. cbn [map concat fst snd].
        pose proof (Hlevel c (or_introl eq_refl)) as Hfound. rewrite Hname in Hfound.
        rewrite Hfound, map_app, app_assoc, <- Hchild.
        apply IHes. intros c' Hc'. apply Hlevel. right. exact Hc'. }
    pose proof (traverse_entries_names entries (S next) items) as Htexts.
    pose proof (fun level => Hes level (S next) items) as Hes'. clear Hes.
    destruct (_traverse_entries humanize_size entries (S next) items) as [[cs n'] i'].
    cbn [fst] in Htexts. cbn [Spec.leaves]. rewrite sortItems_item_children. cbn [children].
    apply Hes'. intros c Hc. apply item_named_sorted; [rewrite Htexts; exact Hnames | exact Hc].
Qed.

(** The leaves of a tree are told by the identities and the names of its
    items, whatever their states. *)
Lemma leaves_skeleton (node : FileTreeNode) :
  forall item, map recorded (Spec.leaves node (skeleton item))
               = map recorded (Spec.leaves node item).
Proof.
  induction node as [f|entries IH] using FileTreeNode_tree_ind; intros item.
  - destruct item; reflexivity.
  - cbn [Spec.leaves]. rewrite skeleton_unfold. cbn [children].
    induction IH as [|e es He _ IHes]; [reflexivity|].
    cbn [map concat]. rewrite !map_app, IHes. f_equal.
    rewrite item_named_map by (intros c; destruct c; reflexivity).
    destruct (Spec.item_named (fst e) (children item)) as [c|]; [apply He | reflexivity].
Qed.

Lemma file_leaves_skeleton (self self' : TorrentAddingDialog.t) :
  _torrent_info self' = _torrent_info self ->
  map skeleton (file_tree self') = map skeleton (file_tree self) ->
  map recorded (Spec.file_leaves self') = map recorded (Spec.file_leaves self).
Proof.
  intros Hinfo Htree.
  assert (Hby : forall d : TorrentAddingDialog.t,
    map recorded (Spec.file_leaves d)
    = match Spec.item_named
              (DownloadInfo.suggested_name (TorrentInfo.download_info (_torrent_info d)))
              (map skeleton (file_tree d)) with
      | Some top_item =>
          map recorded
            (Spec.leaves (DownloadInfo.file_tree (TorrentInfo.download_info (_torrent_info d)))
                         top_item)
      | None => []
      end).
  { intros d. unfold Spec.file_leaves.
    rewrite item_named_map by (intros c; destruct c; reflexivity).
    destruct (Spec.item_named _ (file_tree d)) as [top_item|]; [|reflexivity].
    cbn [option_map]. symmetry. apply leaves_skeleton. }
  rewrite (Hby self'), (Hby self), Hinfo, Htree. reflexivity.
Qed.

Lemma toggles_skeleton (clicks : list (list nat * Qt.CheckState)) :
  forall self,
    map skeleton (file_tree (toggles humanize_size self clicks))
    = map skeleton (file_tree self).
Proof.
  induction clicks as [|[item s] clicks IH]; intros self; [reflexivity|].
  cbn [toggles fold_left]. fold (toggles humanize_size (toggle humanize_size self item s) clicks).
  rewrite IH. apply toggle_keeps.
Qed.

Lemma sort_level_singleton (x : QTreeWidgetItem) : sort_level [x] = [x].
Proof. reflexivity. Qed.

(** In the dialog of a torrent whose directories are mappings, after any
    clicks, [_file_items] holds the leaves of the tree: every file of the
    torrent, in the torrent's order, with the item that shows it. *)
Lemma reachable_pairs (cls : class_attrs) (filename : string)
    (torrent_info : TorrentInfo.t) (clicks : list (list nat * Qt.CheckState)) :
  is_mapping (DownloadInfo.file_tree (TorrentInfo.download_info torrent_info)) = true ->
  let self := toggles humanize_size (__init__ humanize_size cls filename torrent_info) clicks in
  _file_items self = map recorded (Spec.file_leaves self).
Proof.
  intros Hmap self.
  destruct (toggles_same_items clicks (__init__ humanize_size cls filename torrent_info))
    as [_ Hitems].
  fold self in Hitems. rewrite Hitems.
  rewrite (file_leaves_skeleton (__init__ humanize_size cls filename torrent_info) self).
  - unfold Spec.file_leaves, __init__.
    pose proof (traverse_leaves _ Hmap
      (DownloadInfo.suggested_name (TorrentInfo.download_info torrent_info)) 0%nat []) as Hl.
    pose proof (traverse_text0
      (DownloadInfo.suggested_name (TorrentInfo.download_info torrent_info))
      (DownloadInfo.file_tree (TorrentInfo.download_info torrent_info)) 0%nat []) as Hname.
    destruct (_traverse_file_tree _ _ _ _ _) as [[top_item n] file_items].
    cbn [fst] in Hname.
    cbn [_file_items file_tree _torrent_info]. unfold sortItems. cbn [map].
    rewrite sort_level_singleton. unfold Spec.item_named. cbn [find].
    rewrite sortItems_item_text0, Hname, String.eqb_refl. exact Hl.
  - unfold self. rewrite (proj1 (toggles_keep clicks _)). reflexivity.
  - apply toggles_skeleton.
Qed.

Lemma leaves_flatten (node : FileTreeNode) :
  forall item leaf, In leaf (Spec.leaves node item) -> In (snd leaf) (flatten item).
Proof.
  induction node as [f|entries IH] using FileTreeNode_tree_ind; intros item leaf.
  - intros [<- | []]. rewrite flatten_unfold. left. reflexivity.
  - cbn [Spec.leaves]. intros Hin. apply in_concat in Hin as (l & Hl & Hleaf).
    apply in_map_iff in Hl as (e & <- & He).
    rewrite Forall_forall in IH. specialize (IH e (proj2 (list_elem_of_In _ _) He)).
    destruct (Spec.item_named (fst e) (children item)) as [c|] eqn:Hc; [|destruct Hleaf].
    apply item_named_In in Hc as [Hc _].
    rewrite flatten_unfold. right. apply in_flatten_forest. exists c.
    split; [exact Hc | apply IH, Hleaf].
Qed.

Lemma file_leaves_flatten (self : TorrentAddingDialog.t) (leaf : FileInfo.t * QTreeWidgetItem) :
  In leaf (Spec.file_leaves self) -> In (snd leaf) (flatten_forest (file_tree self)).
Proof.
  unfold Spec.file_leaves.
  destruct (Spec.item_named _ (file_tree self)) as [top_item|] eqn:Htop; [|intros []].
  apply item_named_In in Htop as [Htop _]. intros Hleaf.
  apply in_flatten_forest. exists top_item. split; [exact Htop|].
  eapply leaves_flatten, Hleaf.
Qed.

Lemma checked_pairs_recorded (forest : list QTreeWidgetItem)
    (ls : list (FileInfo.t * QTreeWidgetItem)) :
  NoDup (forest_ids forest) ->
  (forall leaf, In leaf ls -> In (snd leaf) (flatten_forest forest)) ->
  checked_pairs forest (map recorded ls)
  = map recorded
      (List.filter (fun leaf => bool_decide (checkState (snd leaf) = Qt.Checked)) ls).
Proof.
  intros Hnd. unfold checked_pairs. induction ls as [|leaf ls IH]; intros Hin; [reflexivity|].
  cbn [map List.filter]. rewrite IH by (intros; apply Hin; right; assumption).
  unfold recorded at 1. cbn [snd]. unfold is_checked.
  rewrite (item_by_ident_found forest (snd leaf) Hnd (Hin leaf (or_introl eq_refl))).
  destruct (bool_decide (checkState (snd leaf) = Qt.Checked)); reflexivity.
Qed.

(** The selection of a dialog, read off the leaves of its tree, is what its
    loops over [_file_items] go through. *)
Lemma reachable_selection (cls : class_attrs) (filename : string)
    (torrent_info : TorrentInfo.t) (clicks : list (list nat * Qt.CheckState)) :
  is_mapping (DownloadInfo.file_tree (TorrentInfo.download_info torrent_info)) = true ->
  let self := toggles humanize_size (__init__ humanize_size cls filename torrent_info) clicks in
  map fst (Spec.file_leaves self)
  = files_of (DownloadInfo.file_tree (TorrentInfo.download_info torrent_info))
  /\ Spec.checked_files self = map fst (checked_pairs (file_tree self) (_file_items self))
  /\ selected_totals self = (Spec.checked_count self, Spec.checked_size self)
  /\ checked_paths self = map FileInfo.path (Spec.checked_files self).
Proof.
  intros Hmap self.
  pose proof (reachable_pairs cls filename torrent_info clicks Hmap) as Hpairs.
  fold self in Hpairs.
  pose proof (reachable_consistent cls filename torrent_info clicks) as Hc. fold self in Hc.
  assert (Hfst : forall ls : list (FileInfo.t * QTreeWidgetItem),
            map fst (map recorded ls) = map fst ls).
  { intros ls. rewrite map_map. reflexivity. }
  assert (Hfiles : Spec.checked_files self
                   = map fst (checked_pairs (file_tree self) (_file_items self))).
  { rewrite Hpairs, checked_pairs_recorded.
    - rewrite Hfst. reflexivity.
    - exact (proj1 Hc).
    - apply file_leaves_flatten. }
  split.
  { rewrite <- Hfst, <- Hpairs.
    destruct (toggles_same_items clicks (__init__ humanize_size cls filename torrent_info))
      as [_ Hitems].
    fold self in Hitems. rewrite Hitems. apply (init_file_items cls filename torrent_info). }
  split; [exact Hfiles|].
  destruct (selection_as_pairs self Hc) as (Hcount & Hsize & Hpaths).
  rewrite <- Hfiles in Hcount, Hsize, Hpaths. split; [|exact Hpaths].
  rewrite (selected_totals_spec self Hc), Hcount, Hsize. reflexivity.
Qed.

(** *** What the dialog reports, against the leaves of the tree *)

(** C4. In the dialog of any torrent, after any clicks, the last of them on
    an item of the tree: the leaves of the tree are the files of the
    torrent, each beside the item that shows it; the totals that
    [_update_selection_label] computed are the number of the files whose
    leaf is Checked and the sum of their lengths; and the label shows them
    (or that nothing is selected). The leaves are found from the torrent's
    tree of files and the names the items show, not from [_file_items]. *)
Theorem selection_totals_after_toggles (cls : class_attrs) (filename : string)
    (torrent_info : TorrentInfo.t) (clicks : list (list nat * Qt.CheckState))
    (item : list nat) (s : Qt.CheckState) :
  is_mapping (DownloadInfo.file_tree (TorrentInfo.download_info torrent_info)) = true ->
  let self := toggles humanize_size (__init__ humanize_size cls filename torrent_info) clicks in
  is_Some (forest_at (file_tree self) item) ->
  let self' := toggle humanize_size self item s in
  map fst (Spec.file_leaves self')
  = files_of (DownloadInfo.file_tree (TorrentInfo.download_info torrent_info))
  /\ selected_totals self' = (Spec.checked_count self', Spec.checked_size self')
  /\ _selection_label self'
     = (if decide (Spec.checked_count self' = 0) then "Nothing to download"
        else SELECTION_LABEL_FORMAT (Spec.checked_count self')
               (humanize_size (Spec.checked_size self'))).
Proof.
  intros Hmap self Hsome self'.
  destruct (reachable_selection cls filename torrent_info (clicks ++ [(item, s)]) Hmap)
    as (Hleaves & _ & Htotals & _).
  rewrite toggles_snoc in Hleaves, Htotals. fold self self' in Hleaves, Htotals.
  pose proof (reachable_consistent cls filename torrent_info clicks) as Hc. fold self in Hc.
  destruct (toggle_reports self item s Hc Hsome) as (Hold & _ & Hlabel).
  fold self' in Hold, Hlabel. rewrite Htotals in Hold. injection Hold as Hcount Hsize.
  rewrite <- Hcount, <- Hsize in Hlabel.
  split; [exact Hleaves|]. split; [exact Htotals | exact Hlabel].
Qed.

(** X17. Where the Ok button follows the selection: in the dialog of a
    torrent that has a file, from its construction on and after whatever
    clicks; and in the dialog of any torrent after a click on an item of
    the tree. There the button is disabled when no file has its leaf
    Checked and enabled when one has; nothing is raised. *)
Theorem submission_enabled_iff_selected (cls : class_attrs) (filename : string)
    (torrent_info : TorrentInfo.t) (clicks : list (list nat * Qt.CheckState)) :
  is_mapping (DownloadInfo.file_tree (TorrentInfo.download_info torrent_info)) = true ->
  files_of (DownloadInfo.file_tree (TorrentInfo.download_info torrent_info)) <> []
  \/ (exists earlier item s,
        clicks = earlier ++ [(item, s)]
        /\ is_Some (forest_at
                      (file_tree (toggles humanize_size
                                    (__init__ humanize_size cls filename torrent_info)
                                    earlier))
                      item)) ->
  let self := toggles humanize_size (__init__ humanize_size cls filename torrent_info) clicks in
  ok_enabled self = negb (Z.eqb (Spec.checked_count self) 0).
Proof.
  intros Hmap Hwhen self.
  destruct (reachable_selection cls filename torrent_info clicks Hmap) as (_ & _ & Htotals & _).
  fold self in Htotals.
  pose proof (reachable_consistent cls filename torrent_info clicks) as Hc. fold self in Hc.
  rewrite (selected_totals_spec self Hc) in Htotals. injection Htotals as Hcount _.
  rewrite <- Hcount.
  destruct Hwhen as [Hfiles | (earlier & item & s & Hclicks & Hsome)].
  - apply (submission_enabled_from_the_start cls filename torrent_info clicks Hfiles).
  - unfold self. rewrite Hclicks, toggles_snoc.
    apply toggle_reports; [apply reachable_consistent | exact Hsome].
Qed.

(** X6. Submitting the dialog of a torrent of several files, whatever was
    clicked: the dialog calls [select_files] once, in whitelist mode, with
    the paths of exactly the files of the torrent whose leaf is Checked,
    in the order of the torrent's files (not the sorted order of the
    tree); these files are as many as [selectedCount] and weigh
    [selectedSize]; then it hands its torrent, with [download_dir] set to
    the download directory of the class, to the engine's [add], and
    closes. What [select_files] writes into the torrent's [download_info]
    is not shown: [models] is not among the sources. *)
Theorem multi_file_submission (cls cls' : class_attrs) (filename : string)
    (torrent_info : TorrentInfo.t) (clicks : list (list nat * Qt.CheckState)) :
  DownloadInfo.single_file_mode (TorrentInfo.download_info torrent_info) = false ->
  is_mapping (DownloadInfo.file_tree (TorrentInfo.download_info torrent_info)) = true ->
  let self := toggles humanize_size (__init__ humanize_size cls filename torrent_info) clicks in
  Spec.checked_files self
    `sublist_of` files_of (DownloadInfo.file_tree (TorrentInfo.download_info torrent_info))
  /\ Spec.selectedCount self = Z.of_nat (List.length (Spec.checked_files self))
  /\ Spec.selectedSize self = total_length (Spec.checked_files self)
  /\ snd (submit_torrent self cls')
     = [select_files (map FileInfo.path (Spec.checked_files self)) "whitelist";
        call_soon_threadsafe_add
          (TorrentInfo.set_download_dir (selected_download_dir cls') torrent_info);
        close]
  /\ closed (fst (submit_torrent self cls')) = true.
Proof.
  intros Hmode Hmap self.
  destruct (reachable_selection cls filename torrent_info clicks Hmap)
    as (_ & Hfiles & _ & Hpaths).
  fold self in Hfiles, Hpaths.
  pose proof (reachable_consistent cls filename torrent_info clicks) as Hc. fold self in Hc.
  destruct (selection_as_pairs self Hc) as (Hcount & Hsize & _).
  rewrite <- Hfiles in Hcount, Hsize.
  destruct (toggles_same_items clicks (__init__ humanize_size cls filename torrent_info))
    as [_ Hitems].
  fold self in Hitems.
  assert (Hinfo : _torrent_info self = torrent_info).
  { unfold self. rewrite (proj1 (toggles_keep clicks _)).
    apply (init_top_level cls filename torrent_info). }
  split.
  { rewrite Hfiles, <- (proj1 (init_file_items cls filename torrent_info)), <- Hitems.
    change (map fst ?l) with (fst <$> l). apply fmap_sublist, checked_pairs_sublist. }
  split; [exact Hcount|]. split; [exact Hsize|]. split; [|reflexivity].
  unfold submit_torrent. cbn [snd]. rewrite Hinfo, Hpaths.
  cbn [TorrentInfo.set_download_dir TorrentInfo.download_info]. rewrite Hmode. reflexivity.
Qed.

(** *** Sessions *)

(** A click that is on no item of the tree changes nothing, whatever the
    column. *)
Lemma update_checkboxes_nothing (self : TorrentAddingDialog.t) (item : list nat) (column : Z) :
  forest_at (file_tree self) item = None ->
  _update_checkboxes humanize_size self item column = self.
Proof.
  intros H. unfold _update_checkboxes.
  destruct (decide (column <> 0)); [reflexivity|].
  destruct item as [|i q]; [reflexivity|]. simpl in H.
  destruct (file_tree self !! i) as [top_item|]; [|reflexivity].
  destruct (locate top_item [] q) as [[it up]|] eqn:Hloc; [|reflexivity].
  apply locate_spec in Hloc as (_ & _ & Hat). congruence.
Qed.

Lemma button_ok_init (cls : class_attrs) (filename : string) (torrent_info : TorrentInfo.t) :
  files_of (DownloadInfo.file_tree (TorrentInfo.download_info torrent_info)) <> [] ->
  button_ok (__init__ humanize_size cls filename torrent_info).
Proof.
  intros Hfiles. pose proof (init_consistent cls filename torrent_info) as Hc.
  split; [exact Hc|].
  destruct (init_selected_totals cls filename torrent_info) as [Hcount ->].
  destruct (init_file_items cls filename torrent_info) as [Hfst _].
  rewrite (selected_totals_spec _ Hc) in Hcount. simpl in Hcount. rewrite Hcount.
  symmetry. apply negb_true_iff, Z.eqb_neq.
  assert (List.length (_file_items (__init__ humanize_size cls filename torrent_info)) <> 0%nat).
  { intros Hlen. apply Hfiles. rewrite <- Hfst.
    apply length_zero_iff_nil in Hlen. rewrite Hlen. reflexivity. }
  lia.
Qed.

Lemma button_ok_update (d : TorrentAddingDialog.t) (item : list nat) :
  button_ok d -> button_ok (_update_checkboxes humanize_size d item 0).
Proof.
  intros [Hc Hok]. destruct (forest_at (file_tree d) item) as [it|] eqn:Hit.
  - split; [apply update_checkboxes_consistent, Hc|].
    apply update_checkboxes_reports; [exact Hc | rewrite Hit; eauto].
  - rewrite update_checkboxes_nothing by exact Hit. split; assumption.
Qed.

Lemma button_ok_toggle (d : TorrentAddingDialog.t) (item : list nat) (s : Qt.CheckState) :
  button_ok d -> button_ok (toggle humanize_size d item s).
Proof.
  intros [Hc Hok]. destruct (forest_at (file_tree d) item) as [it|] eqn:Hit.
  - split; [apply toggle_consistent, Hc|].
    apply toggle_reports; [exact Hc | rewrite Hit; eauto].
  - rewrite toggle_nothing by exact Hit. split; assumption.
Qed.

Lemma init_path_edit (cls : class_attrs) (filename : string) (torrent_info : TorrentInfo.t) :
  _path_edit (__init__ humanize_size cls filename torrent_info) = selected_download_dir cls.
Proof.
  unfold __init__. destruct (_traverse_file_tree _ _ _ _ _) as [[top_item n] file_items].
  reflexivity.
Qed.

Lemma button_ok_path_edit (s : string) (d : TorrentAddingDialog.t) :
  button_ok d -> button_ok (set_path_edit s d).
Proof. intros H. exact H. Qed.

Lemma step_session_ok (st : Sessions.t) (e : Sessions.event) :
  deliverable e -> session_ok st -> session_ok (Sessions.step humanize_size st e).
Proof.
  intros He [Hd Hcalls]. unfold Sessions.step.
  destruct e as [f ti|chosen|item written column| |];
    destruct (Sessions.dialog st) as [d|] eqn:Hdlg;
    try (split; [rewrite Hdlg; exact Hd | exact Hcalls]).
  - (* a dialog is opened *)
    split; [|exact Hcalls]. cbn [Sessions.dialog]. intros d [= <-].
    apply button_ok_init, He.
  - (* a directory is browsed *)
    pose proof (Hd d eq_refl) as Hb. unfold _browse.
    destruct (decide (chosen = "")).
    + split; [|exact Hcalls]. cbn [Sessions.dialog]. intros d' [= <-]. exact Hb.
    + split; [|exact Hcalls]. cbn [Sessions.dialog]. intros d' [= <-].
      apply button_ok_path_edit, Hb.
  - (* an item is clicked *)
    pose proof (Hd d eq_refl) as Hb.
    split; [|exact Hcalls]. cbn [Sessions.dialog]. intros d' [= <-].
    destruct He as [-> | ->].
    + destruct written as [s|].
      * exact (button_ok_toggle d item s Hb).
      * apply button_ok_update, Hb.
    + destruct (decide (column = 0)) as [-> | Hcol]; [apply button_ok_update, Hb|].
      unfold _update_checkboxes. destruct (decide (column <> 0)); [exact Hb | contradiction].
  - (* Ok *)
    destruct (Hd d eq_refl) as [Hc Hok].
    destruct (ok_enabled d) eqn:Hen; [|split; [rewrite Hdlg; exact Hd | exact Hcalls]].
    unfold submit_torrent. split; [intros d' [=]|].
    cbn [Sessions.calls]. intros ps mode Hin. apply in_app_or in Hin as [Hin | Hin].
    { exact (Hcalls ps mode Hin). }
    apply in_app_or in Hin as [Hin | Hin].
    + destruct (DownloadInfo.single_file_mode _); [destruct Hin|].
      destruct Hin as [[= <- <-] | []]. split; [|reflexivity].
      intros Hnil. pose proof (checked_paths_count d Hc) as Hn.
      rewrite Hnil in Hn. cbn [List.length] in Hn.
      rewrite <- Hn in Hok. discriminate.
    + destruct Hin as [[=] | [[=] | []]].
  - (* Cancel *)
    split; [intros d' [=]|].
    cbn [Sessions.calls]. intros ps mode Hin. apply in_app_or in Hin as [Hin | Hin].
    + exact (Hcalls ps mode Hin).
    + destruct Hin as [[=] | []].
Qed.

Lemma step_shows_directory (st : Sessions.t) (e : Sessions.event) :
  shows_directory st -> shows_directory (Sessions.step humanize_size st e).
Proof.
  intros Hd. unfold Sessions.step.
  destruct e as [f ti|chosen|item written column| |];
    destruct (Sessions.dialog st) as [d|] eqn:Hdlg; try exact Hd.
  - unfold shows_directory. cbn [Sessions.dialog Sessions.cls].
    intros d' [= <-]. apply init_path_edit.
  - pose proof (Hd d Hdlg) as Hp. unfold _browse.
    destruct (decide (chosen = "")); unfold shows_directory;
      cbn [Sessions.dialog Sessions.cls]; intros d' [= <-]; [exact Hp | reflexivity].
  - pose proof (Hd d Hdlg) as Hp. unfold shows_directory.
    cbn [Sessions.dialog Sessions.cls]. intros d' [= <-].
    rewrite (proj1 (update_checkboxes_frame _ item column)).
    destruct written; exact Hp.
  - destruct (ok_enabled d); [|exact Hd].
    unfold submit_torrent, shows_directory. cbn [Sessions.dialog]. intros d' [=].
  - unfold shows_directory. cbn [Sessions.dialog]. intros d' [=].
Qed.

Lemma run_shows_directory (es : list Sessions.event) :
  forall st, shows_directory st -> shows_directory (Sessions.run humanize_size st es).
Proof.
  induction es as [|e es IH]; intros st Hst; [exact Hst|].
  cbn [Sessions.run fold_left]. apply IH, step_shows_directory, Hst.
Qed.

Lemma run_session_ok (es : list Sessions.event) :
  forall st, Forall deliverable es -> session_ok st ->
             session_ok (Sessions.run humanize_size st es).
Proof.
  induction es as [|e es IH]; intros st Hes Hst; [exact Hst|].
  apply Forall_cons in Hes as [He Hes].
  cbn [Sessions.run fold_left]. apply IH; [exact Hes|]. apply step_session_ok; assumption.
Qed.

Lemma start_session_ok (cwd : string) : session_ok (Sessions.start cwd).
Proof. split; [intros d [=] | intros ps mode []]. Qed.

(** X8. In a session of the program, whatever dialogs were opened for
    torrents that have a file, whatever was browsed, clicked, submitted
    or cancelled: every call of [select_files] the session has made is
    in whitelist mode with at least one path. The Ok button is the only
    guard: [submit_torrent] itself does not look at the list. *)
Theorem no_empty_whitelist (cwd : string) (es : list Sessions.event)
    (file_paths : list (list string)) (mode : string) :
  Forall deliverable es ->
  In (select_files file_paths mode)
     (Sessions.calls (Sessions.run humanize_size (Sessions.start cwd) es)) ->
  file_paths <> [] /\ mode = "whitelist".
Proof.
  intros Hes. apply (run_session_ok es _ Hes (start_session_ok cwd)).
Qed.

(** X9. The directory a dialog shows is the directory its torrent gets:
    in a session, whatever happened before, when Ok is clicked in an open
    dialog whose Ok button is enabled, the dialog is gone afterwards and
    the calls the click adds are at most one call of [select_files], then
    the torrent of the dialog, its download directory set to the text of
    the dialog's directory field, handed to the engine's [add], and
    [close]. *)
Theorem submitted_directory_is_the_one_shown (cwd : string) (es : list Sessions.event)
    (d : TorrentAddingDialog.t) :
  let st := Sessions.run humanize_size (Sessions.start cwd) es in
  Sessions.dialog st = Some d ->
  ok_enabled d = true ->
  let st' := Sessions.step humanize_size st Sessions.ok_clicked in
  Sessions.dialog st' = None
  /\ exists selecting,
       Sessions.calls st'
       = Sessions.calls st ++ selecting
         ++ [call_soon_threadsafe_add
               (TorrentInfo.set_download_dir (_path_edit d) (_torrent_info d));
             close]
       /\ (List.length selecting <= 1)%nat.
Proof.
  intros st Hdlg Hen st'.
  assert (Hp : _path_edit d = selected_download_dir (Sessions.cls st)).
  { apply (run_shows_directory es (Sessions.start cwd)); [intros d' [=] | exact Hdlg]. }
  unfold st', Sessions.step. rewrite Hdlg, Hen. unfold submit_torrent.
  cbn [Sessions.dialog Sessions.calls]. split; [reflexivity|].
  rewrite Hp. eexists. split; [reflexivity|].
  destruct (DownloadInfo.single_file_mode _); cbn [List.length]; lia.
Qed.

End Dialog.

(** ** The list of the main window *)

(** *** The order on names *)

Lemma string_compare_refl (s : string) : String.compare s s = Eq.
Proof.
  induction s as [|c s IH]; simpl; [reflexivity|].
  unfold Ascii.compare. rewrite N.compare_refl. exact IH.
Qed.

Lemma string_leb_refl (s : string) : String.leb s s = true.
Proof. unfold String.leb. rewrite string_compare_refl. reflexivity. Qed.

Lemma string_leb_trans (a b c : string) :
  String.leb a b = true -> String.leb b c = true -> String.leb a c = true.
Proof.
  unfold String.leb. revert b c.
  induction a as [|x a IH]; intros [|y b] [|z c]; simpl; try congruence.
  unfold Ascii.compare.
  destruct (N.compare_spec (N_of_ascii x) (N_of_ascii y)) as [Hxy|Hxy|Hxy];
    destruct (N.compare_spec (N_of_ascii y) (N_of_ascii z)) as [Hyz|Hyz|Hyz];
    destruct (N.compare_spec (N_of_ascii x) (N_of_ascii z)) as [Hxz|Hxz|Hxz];
    try congruence; try lia.
  apply IH.
Qed.

Lemma string_ltb_leb (a b : string) : String.ltb a b = true -> String.leb a b = true.
Proof. unfold String.ltb, String.leb. destruct (String.compare a b); congruence. Qed.

Lemma string_not_ltb_leb (a b : string) : String.ltb a b = false -> String.leb b a = true.
Proof.
  unfold String.ltb, String.leb. rewrite (String.compare_antisym b a).
  destruct (String.compare a b); simpl; congruence.
Qed.

(** *** Rows in order *)

Lemma rows_sorted_lookup (rows : list MainWindow.row) :
  rows_sorted rows ->
  forall i j ri rj, (i < j)%nat -> rows !! i = Some ri -> rows !! j = Some rj -> name_le ri rj.
Proof.
  induction 1 as [|r rows Hs IH Hall]; intros i j ri rj Hij Hi Hj; [discriminate|].
  destruct j as [|j]; [lia|]. simpl in Hj. destruct i as [|i].
  - simpl in Hi. injection Hi as <-.
    rewrite Forall_forall in Hall. apply Hall.
    apply list_elem_of_lookup. eauto.
  - simpl in Hi. apply (IH i j); [lia|assumption|assumption].
Qed.

Lemma insertItem_cons (r x : MainWindow.row) (rows : list MainWindow.row) :
  MainWindow.insertItem
    (MainWindow.items_upper (x :: rows) (MainWindow.row_name r)) r (x :: rows)
  = if String.ltb (MainWindow.row_name r) (MainWindow.row_name x)
    then r :: x :: rows
    else x :: MainWindow.insertItem
                (MainWindow.items_upper rows (MainWindow.row_name r)) r rows.
Proof.
  simpl. destruct (String.ltb (MainWindow.row_name r) (MainWindow.row_name x)); reflexivity.
Qed.

Lemma insertItem_Permutation (r : MainWindow.row) (rows : list MainWindow.row) :
  MainWindow.insertItem (MainWindow.items_upper rows (MainWindow.row_name r)) r rows
  ≡ₚ r :: rows.
Proof.
  induction rows as [|x rows IH]; [reflexivity|].
  rewrite insertItem_cons.
  destruct (String.ltb _ _); [reflexivity|]. rewrite IH. apply Permutation_swap.
Qed.

(** The new row goes where the order of the names is kept. *)
Lemma insertItem_sorted (r : MainWindow.row) (rows : list MainWindow.row) :
  rows_sorted rows ->
  rows_sorted
    (MainWindow.insertItem (MainWindow.items_upper rows (MainWindow.row_name r)) r rows).
Proof.
  induction 1 as [|x rows Hs IH Hall].
  - repeat constructor.
  - rewrite insertItem_cons.
    destruct (String.ltb (MainWindow.row_name r) (MainWindow.row_name x)) eqn:Hlt.
    + constructor; [constructor; assumption|].
      apply string_ltb_leb in Hlt. constructor; [exact Hlt|].
      eapply Forall_impl; [exact Hall|]. intros y Hy.
      unfold name_le in *. eapply string_leb_trans; eassumption.
    + constructor; [exact IH|].
      rewrite insertItem_Permutation. constructor; [|exact Hall].
      apply string_not_ltb_leb, Hlt.
Qed.

(** [takeItem(row(item))] takes the first row of the item. *)
Lemma takeItem_cons (item : nat) (x : MainWindow.row) (rows : list MainWindow.row) :
  MainWindow.takeItem (MainWindow.row_of (x :: rows) item) (x :: rows)
  = if Nat.eqb (MainWindow.row_ident x) item then rows
    else x :: MainWindow.takeItem (MainWindow.row_of rows item) rows.
Proof.
  simpl. destruct (Nat.eqb (MainWindow.row_ident x) item); [reflexivity|].
  destruct (MainWindow.row_of rows item); reflexivity.
Qed.

Lemma takeItem_sublist (item : nat) (rows : list MainWindow.row) :
  MainWindow.takeItem (MainWindow.row_of rows item) rows `sublist_of` rows.
Proof.
  induction rows as [|x rows IH]; [reflexivity|].
  rewrite takeItem_cons. destruct (Nat.eqb _ _).
  - apply sublist_cons, reflexivity.
  - apply sublist_skip, IH.
Qed.

Lemma rows_sorted_sublist (rows rows' : list MainWindow.row) :
  rows' `sublist_of` rows -> rows_sorted rows -> rows_sorted rows'.
Proof.
  intros Hsub Hs. revert rows' Hsub.
  induction Hs as [|x rows Hs IH Hall]; intros rows' Hsub.
  - apply sublist_nil_r in Hsub as ->. constructor.
  - apply sublist_cons_r in Hsub as [Hsub|(l' & -> & Hsub)]; [apply IH, Hsub|].
    constructor; [apply IH, Hsub|].
    rewrite Forall_forall in *. intros y Hy. apply Hall.
    eapply elem_of_sublist; eassumption.
Qed.

(** *** The dictionary and the rows *)

Lemma NoDup_map_inj {A B : Type} (f : A -> B) (l : list A) (x y : A) :
  NoDup (map f l) -> x ∈ l -> y ∈ l -> f x = f y -> x = y.
Proof.
  induction l as [|a l IH]; simpl; intros Hnd Hx Hy Hf.
  - inversion Hx.
  - apply NoDup_cons in Hnd as [Hnotin Hnd].
    apply elem_of_cons in Hx as [->|Hx]; apply elem_of_cons in Hy as [->|Hy].
    + reflexivity.
    + exfalso. apply Hnotin. rewrite Hf. change (map f l) with (f <$> l).
      apply list_elem_of_fmap_2, Hy.
    + exfalso. apply Hnotin. rewrite <- Hf. change (map f l) with (f <$> l).
      apply list_elem_of_fmap_2, Hx.
    + apply IH; assumption.
Qed.

Lemma registry_ok_invariant (w : MainWindow.t) : registry_ok w -> Spec.registry_invariant w.
Proof.
  intros (Hs & _ & _ & _ & Hd). split.
  - intros i j ri rj Hij Hi Hj. exact (rows_sorted_lookup _ Hs i j ri rj Hij Hi Hj).
  - unfold Spec.dictionary_ids, Spec.sequence_ids. apply set_eq. intros h.
    rewrite elem_of_dom, elem_of_list_to_set.
    change (map ?f ?l) with (f <$> l). rewrite list_elem_of_fmap. split.
    + intros [i Hi]. apply Hd in Hi as (r & Hr & Hdata & _). eauto.
    + intros (r & -> & Hr). exists (MainWindow.row_ident r). apply Hd. eauto.
Qed.

Lemma init_registry_ok : registry_ok MainWindow.__init__.
Proof.
  unfold registry_ok, MainWindow.__init__. simpl.
  split; [constructor|]. split; [constructor|]. split; [constructor|].
  split; [intros r Hr; inversion Hr|].
  intros h i. rewrite lookup_empty. split; [discriminate|].
  intros (r & Hr & _). inversion Hr.
Qed.

Lemma update_control_action_state_fields (w : MainWindow.t) :
  MainWindow._list_widget (MainWindow._update_control_action_state w)
  = MainWindow._list_widget w
  /\ MainWindow._torrent_to_item (MainWindow._update_control_action_state w)
     = MainWindow._torrent_to_item w
  /\ MainWindow.next_item (MainWindow._update_control_action_state w)
     = MainWindow.next_item w.
Proof.
  unfold MainWindow._update_control_action_state.
  destruct (fold_left _ _ _) as [[p r] m]. simpl. auto.
Qed.

Lemma update_control_action_state_ok (w : MainWindow.t) :
  registry_ok w -> registry_ok (MainWindow._update_control_action_state w).
Proof.
  unfold registry_ok.
  destruct (update_control_action_state_fields w) as (-> & -> & ->). auto.
Qed.

(** [_add_torrent_item] for a torrent that the dictionary does not have. *)
Lemma add_torrent_item_ok (w : MainWindow.t) (state : TorrentState.t) :
  registry_ok w ->
  MainWindow._torrent_to_item w !! TorrentState.info_hash state = None ->
  registry_ok (MainWindow._add_torrent_item w state).
Proof.
  intros (Hs & Hni & Hnd & Hlt & Hd) Hnew.
  unfold registry_ok, MainWindow._add_torrent_item. cbn [MainWindow._list_widget
    MainWindow._torrent_to_item MainWindow.next_item QListWidgetItem.ident].
  set (r := (QListWidgetItem.mk (MainWindow.next_item w) _ _ false, TorrentWidgetItem.mk state)).
  assert (Hname : TorrentState.suggested_name state = MainWindow.row_name r) by reflexivity.
  rewrite Hname.
  pose proof (insertItem_Permutation r (MainWindow._list_widget w)) as Hperm.
  assert (Hfresh : forall x, x ∈ MainWindow._list_widget w ->
                             MainWindow.row_data x <> TorrentState.info_hash state).
  { intros x Hx Hdata.
    assert (MainWindow._torrent_to_item w !! TorrentState.info_hash state
            = Some (MainWindow.row_ident x)) as Hsome by (apply Hd; eauto).
    congruence. }
  split; [apply insertItem_sorted, Hs|]. split; [|split; [|split]].
  - change (map ?f ?l) with (f <$> l). rewrite Hperm. simpl. apply NoDup_cons. split; [|exact Hni].
    change (MainWindow.row_ident r) with (MainWindow.next_item w).
    intros Hin. apply list_elem_of_fmap in Hin as (x & Hx & Hin). apply Hlt in Hin. lia.
  - change (map ?f ?l) with (f <$> l). rewrite Hperm. simpl. apply NoDup_cons. split; [|exact Hnd].
    intros Hin. apply list_elem_of_fmap in Hin as (x & Hx & Hin).
    apply (Hfresh x Hin). symmetry. exact Hx.
  - intros x Hx. rewrite Hperm in Hx. apply elem_of_cons in Hx as [->|Hx].
    + change (MainWindow.row_ident r) with (MainWindow.next_item w). lia.
    + apply Hlt in Hx. lia.
  - intros h i. destruct (decide (TorrentState.info_hash state = h)) as [<-|Hne].
    + rewrite lookup_insert_eq. split.
      * intros [= <-]. exists r. rewrite Hperm. split; [apply elem_of_cons; auto|].
        split; reflexivity.
      * intros (x & Hx & Hdata & Hident). rewrite Hperm in Hx.
        apply elem_of_cons in Hx as [->|Hx]; [f_equal; exact Hident|].
        exfalso. exact (Hfresh x Hx Hdata).
    + rewrite lookup_insert_ne by exact Hne. rewrite Hd. split.
      * intros (x & Hx & Hdata & Hident). exists x. rewrite Hperm.
        split; [apply elem_of_cons; auto|]. auto.
      * intros (x & Hx & Hdata & Hident). rewrite Hperm in Hx.
        apply elem_of_cons in Hx as [->|Hx]; [|eauto].
        exfalso. apply Hne. exact Hdata.
Qed.

Lemma rows_sorted_map (f : MainWindow.row -> MainWindow.row) (rows : list MainWindow.row) :
  (forall r, r ∈ rows -> MainWindow.row_name (f r) = MainWindow.row_name r) ->
  rows_sorted rows -> rows_sorted (map f rows).
Proof.
  intros Hf Hs. induction Hs as [|x rows Hs IH Hall]; [constructor|].
  simpl. constructor.
  - apply IH. intros r Hr. apply Hf. apply elem_of_cons. auto.
  - change (map f rows) with (f <$> rows). apply Forall_fmap.
    rewrite Forall_forall in *. intros y Hy. unfold name_le, compose.
    rewrite !Hf by (apply elem_of_cons; auto). apply Hall, Hy.
Qed.

Lemma set_widget_state_ident (item : nat) (state : TorrentState.t) (r : MainWindow.row) :
  MainWindow.row_ident (MainWindow.set_widget_state item state r) = MainWindow.row_ident r.
Proof. unfold MainWindow.set_widget_state. destruct (Nat.eqb _ _); reflexivity. Qed.

Lemma set_widget_state_data (item : nat) (state : TorrentState.t) (r : MainWindow.row) :
  MainWindow.row_data (MainWindow.set_widget_state item state r) = MainWindow.row_data r.
Proof. unfold MainWindow.set_widget_state. destruct (Nat.eqb _ _); reflexivity. Qed.

(** [_update_torrent_item] with a snapshot that has the name of its row. *)
Lemma update_torrent_item_ok (w w' : MainWindow.t) (state : TorrentState.t) :
  registry_ok w ->
  Spec.admissible w (MainWindow.changed state) ->
  MainWindow._update_torrent_item w state = Ok w' ->
  registry_ok w'.
Proof.
  intros (Hs & Hni & Hnd & Hlt & Hd) Hadm. unfold MainWindow._update_torrent_item.
  destruct (MainWindow._torrent_to_item w !! TorrentState.info_hash state) as [item|] eqn:Hitem;
    [|discriminate].
  destruct (MainWindow.row_of (MainWindow._list_widget w) item); [|discriminate].
  intros [= <-]. apply update_control_action_state_ok.
  unfold registry_ok. cbn [MainWindow._list_widget MainWindow._torrent_to_item
    MainWindow.next_item].
  set (f := MainWindow.set_widget_state item state).
  apply Hd in Hitem as (r0 & Hr0 & Hdata0 & Hident0).
  assert (Hname : forall r, r ∈ MainWindow._list_widget w ->
                            MainWindow.row_name (f r) = MainWindow.row_name r).
  { intros r Hr. unfold f, MainWindow.set_widget_state.
    destruct (Nat.eqb_spec (MainWindow.row_ident r) item) as [Heq|Hne]; [|reflexivity].
    assert (r = r0) as -> by (eapply (NoDup_map_inj MainWindow.row_ident); eauto; congruence).
    simpl in Hadm. rewrite (Hadm r0 Hr0 Hdata0). reflexivity. }
  assert (Hidents : map MainWindow.row_ident (map f (MainWindow._list_widget w))
                    = map MainWindow.row_ident (MainWindow._list_widget w)).
  { rewrite map_map. apply map_ext. intros r. apply set_widget_state_ident. }
  assert (Hdatas : map MainWindow.row_data (map f (MainWindow._list_widget w))
                   = map MainWindow.row_data (MainWindow._list_widget w)).
  { rewrite map_map. apply map_ext. intros r. apply set_widget_state_data. }
  rewrite Hidents, Hdatas.
  split; [apply rows_sorted_map; assumption|]. split; [exact Hni|]. split; [exact Hnd|].
  split.
  - intros r Hr. change (map f ?l) with (f <$> l) in Hr.
    apply list_elem_of_fmap in Hr as (x & -> & Hx).
    unfold f. rewrite set_widget_state_ident. apply Hlt, Hx.
  - intros h i. rewrite Hd. change (map f ?l) with (f <$> l). split.
    + intros (x & Hx & Hdata & Hident). exists (f x).
      split; [apply list_elem_of_fmap_2, Hx|].
      unfold f. rewrite set_widget_state_data, set_widget_state_ident. auto.
    + intros (y & Hy & Hdata & Hident).
      apply list_elem_of_fmap in Hy as (x & -> & Hx). exists x.
      unfold f in Hdata, Hident.
      rewrite set_widget_state_data in Hdata. rewrite set_widget_state_ident in Hident. auto.
Qed.

Lemma takeItem_elem_of (item : nat) (rows : list MainWindow.row) (r : MainWindow.row) :
  NoDup (map MainWindow.row_ident rows) ->
  r ∈ MainWindow.takeItem (MainWindow.row_of rows item) rows
  <-> r ∈ rows /\ MainWindow.row_ident r <> item.
Proof.
  induction rows as [|x rows IH]; intros Hnd.
  - simpl. split; [intros H; inversion H | intros [H _]; inversion H].
  - simpl in Hnd. apply NoDup_cons in Hnd as [Hnotin Hnd].
    rewrite takeItem_cons.
    destruct (Nat.eqb_spec (MainWindow.row_ident x) item) as [Heq|Hne].
    + split.
      * intros Hr. split; [apply elem_of_cons; auto|].
        intros Hr'. apply Hnotin. rewrite Heq, <- Hr'.
        change (map ?f ?l) with (f <$> l). apply list_elem_of_fmap_2, Hr.
      * intros [Hr Hr']. apply elem_of_cons in Hr as [->|Hr]; [contradiction|exact Hr].
    + rewrite !elem_of_cons, (IH Hnd). split.
      * intros [->|[Hr Hr']]; auto.
      * intros [[->|Hr] Hr']; auto.
Qed.

(** [_remove_torrent_item] *)
Lemma remove_torrent_item_ok (w w' : MainWindow.t) (info_hash : string) :
  registry_ok w ->
  MainWindow._remove_torrent_item w info_hash = Ok w' ->
  registry_ok w'.
Proof.
  intros (Hs & Hni & Hnd & Hlt & Hd). unfold MainWindow._remove_torrent_item.
  destruct (MainWindow._torrent_to_item w !! info_hash) as [item|] eqn:Hitem; [|discriminate].
  intros [= <-]. apply update_control_action_state_ok.
  unfold registry_ok. cbn [MainWindow._list_widget MainWindow._torrent_to_item
    MainWindow.next_item].
  pose proof (takeItem_sublist item (MainWindow._list_widget w)) as Hsub.
  apply Hd in Hitem as (r0 & Hr0 & Hdata0 & Hident0).
  split; [eapply rows_sorted_sublist; eassumption|].
  split; [|split; [|split]].
  - change (map ?f ?l) with (f <$> l) in *.
    eapply sublist_NoDup; [exact Hni|]. apply fmap_sublist, Hsub.
  - change (map ?f ?l) with (f <$> l) in *.
    eapply sublist_NoDup; [exact Hnd|]. apply fmap_sublist, Hsub.
  - intros r Hr. apply Hlt. eapply elem_of_sublist; eassumption.
  - intros h i. destruct (decide (info_hash = h)) as [<-|Hne].
    + rewrite lookup_delete_eq. split; [discriminate|].
      intros (r & Hr & Hdata & Hident). exfalso.
      apply takeItem_elem_of in Hr as [Hr Hr']; [|exact Hni].
      assert (r = r0) as -> by (eapply (NoDup_map_inj MainWindow.row_data); eauto; congruence).
      contradiction.
    + rewrite lookup_delete_ne by exact Hne. rewrite Hd. split.
      * intros (r & Hr & Hdata & Hident). exists r. split; [|auto].
        apply takeItem_elem_of; [exact Hni|]. split; [exact Hr|].
        intros Heq. apply Hne.
        assert (r = r0) as -> by (eapply (NoDup_map_inj MainWindow.row_ident); eauto; congruence).
        congruence.
      * intros (r & Hr & Hdata & Hident).
        apply takeItem_elem_of in Hr as [Hr _]; [|exact Hni]. eauto.
Qed.

Lemma apply_ok (w : MainWindow.t) (o : MainWindow.op) :
  registry_ok w -> Spec.admissible w o -> registry_ok (MainWindow.apply w o).
Proof.
  intros Hok Hadm. unfold MainWindow.apply.
  destruct (MainWindow.step w o) as [w'|e] eqn:Hstep; [|exact Hok].
  destruct o as [state|state|info_hash]; simpl in Hstep.
  - injection Hstep as <-. apply add_torrent_item_ok; assumption.
  - eapply update_torrent_item_ok; eassumption.
  - eapply remove_torrent_item_ok; eassumption.
Qed.

Lemma run_ok (ops : list MainWindow.op) :
  forall w k,
    registry_ok w -> Spec.admissible_run w ops ->
    registry_ok (MainWindow.run w (take k ops)).
Proof.
  induction ops as [|o ops IH]; intros w k Hok Hadm.
  - rewrite take_nil. exact Hok.
  - destruct k as [|k]; [exact Hok|]. destruct Hadm as [Ho Hops].
    simpl. apply IH; [apply apply_ok; assumption | exact Hops].
Qed.

(** C2, as the code has it. For any sequence of added, changed and removed
    signals in which a torrent is added only under an id that the dictionary
    does not have and a snapshot has the name of the row of its torrent,
    after each of them the rows are in ascending order of their names and
    the ids of the dictionary are the ids of the rows. *)
Theorem registry_invariant_after_each (ops : list MainWindow.op) (k : nat) :
  Spec.admissible_run MainWindow.__init__ ops ->
  Spec.registry_invariant (MainWindow.run MainWindow.__init__ (take k ops)).
Proof.
  intros Hadm. apply registry_ok_invariant, run_ok; [apply init_registry_ok | exact Hadm].
Qed.

(** *** The actions of the tool bar *)

Lemma scan_selected_fold (rows : list MainWindow.row) (pause resume remove : bool) :
  fold_left MainWindow.scan_selected rows (pause, resume, remove)
  = (pause || existsb (fun r => QListWidgetItem.selected (fst r)
                                && negb (TorrentState.paused (MainWindow.row_state r))) rows,
     resume || existsb (fun r => QListWidgetItem.selected (fst r)
                                 && TorrentState.paused (MainWindow.row_state r)) rows,
     remove || existsb (fun r => QListWidgetItem.selected (fst r)) rows).
Proof.
  revert pause resume remove. induction rows as [|r rows IH]; intros pause resume remove.
  - simpl. rewrite !orb_false_r. reflexivity.
  - cbn [fold_left existsb]. unfold MainWindow.scan_selected at 2.
    destruct (QListWidgetItem.selected (fst r)); cbn [andb orb].
    + destruct (TorrentState.paused (MainWindow.row_state r)); rewrite IH; cbn [negb orb];
        rewrite ?orb_true_r, ?orb_true_l; reflexivity.
    + rewrite IH. reflexivity.
Qed.

(** X10. [_update_control_action_state] leaves the three actions as the
    selection asks, whatever they were before: Pause is enabled exactly
    when a selected row shows a torrent that is not paused, Resume exactly
    when a selected row shows a paused torrent, Remove exactly when a row
    is selected, so Remove is enabled exactly when Pause or Resume is; the
    rows and the dictionary are as they were. *)
Theorem control_actions_follow_selection (w : MainWindow.t) :
  let w' := MainWindow._update_control_action_state w in
  (MainWindow.pause_enabled w' = true
   <-> exists r, In r (selected_rows w) /\ TorrentState.paused (MainWindow.row_state r) = false)
  /\ (MainWindow.resume_enabled w' = true
      <-> exists r, In r (selected_rows w) /\ TorrentState.paused (MainWindow.row_state r) = true)
  /\ (MainWindow.remove_enabled w' = true <-> selected_rows w <> [])
  /\ MainWindow.remove_enabled w'
     = MainWindow.pause_enabled w' || MainWindow.resume_enabled w'
  /\ MainWindow._list_widget w' = MainWindow._list_widget w
  /\ MainWindow._torrent_to_item w' = MainWindow._torrent_to_item w.
Proof.
  unfold MainWindow._update_control_action_state, selected_rows.
  rewrite scan_selected_fold. cbn [orb MainWindow.pause_enabled MainWindow.resume_enabled
    MainWindow.remove_enabled MainWindow._list_widget MainWindow._torrent_to_item].
  split; [|split; [|split; [|split; [|split; reflexivity]]]].
  - rewrite existsb_exists. split.
    + intros (r & Hr & Hsel). apply andb_true_iff in Hsel as [Hsel Hp].
      exists r. split; [apply filter_In; auto | apply negb_true_iff, Hp].
    + intros (r & Hr & Hp). apply filter_In in Hr as [Hr Hsel].
      exists r. split; [exact Hr|]. rewrite Hsel, Hp. reflexivity.
  - rewrite existsb_exists. split.
    + intros (r & Hr & Hsel). apply andb_true_iff in Hsel as [Hsel Hp].
      exists r. split; [apply filter_In; auto | exact Hp].
    + intros (r & Hr & Hp). apply filter_In in Hr as [Hr Hsel].
      exists r. split; [exact Hr|]. rewrite Hsel, Hp. reflexivity.
  - rewrite existsb_exists. split.
    + intros (r & Hr & Hsel) Hnil.
      assert (Hin : In r (List.filter (fun r => QListWidgetItem.selected (fst r))
                                      (MainWindow._list_widget w)))
        by (apply filter_In; auto).
      rewrite Hnil in Hin. exact Hin.
    + intros Hne. destruct (List.filter _ _) as [|r l] eqn:Hf; [contradiction|].
      assert (Hin : In r (r :: l)) by (left; reflexivity).
      rewrite <- Hf in Hin. apply filter_In in Hin. eauto.
  - induction (MainWindow._list_widget w) as [|r rows IH]; [reflexivity|].
    cbn [existsb]. rewrite IH.
    destruct (QListWidgetItem.selected (fst r)); cbn [andb orb]; [|reflexivity].
    destruct (TorrentState.paused (MainWindow.row_state r)); cbn [negb orb];
      rewrite ?orb_true_r; reflexivity.
Qed.

(** *** Items that the dictionary holds *)

Lemma row_of_is_Some (rows : list MainWindow.row) (item : nat) (r : MainWindow.row) :
  r ∈ rows -> MainWindow.row_ident r = item ->
  exists n r', MainWindow.row_of rows item = Some n /\ rows !! n = Some r'
               /\ MainWindow.row_ident r' = item.
Proof.
  induction rows as [|x rows IH]; intros Hr Hid; [inversion Hr|].
  cbn [MainWindow.row_of].
  destruct (Nat.eqb (MainWindow.row_ident x) item) eqn:Hx.
  - exists 0%nat, x. apply Nat.eqb_eq in Hx. auto.
  - apply elem_of_cons in Hr as [-> | Hr].
    + apply Nat.eqb_neq in Hx. contradiction.
    + destruct (IH Hr Hid) as (n & r' & -> & Hn & Hr').
      exists (S n), r'. auto.
Qed.

Lemma init_items_live : items_live MainWindow.__init__.
Proof.
  split; [constructor|]. split; [intros r Hr; inversion Hr|].
  intros h i. unfold MainWindow.__init__. cbn [MainWindow._torrent_to_item].
  rewrite lookup_empty. discriminate.
Qed.

Lemma update_control_action_state_live (w : MainWindow.t) :
  items_live w -> items_live (MainWindow._update_control_action_state w).
Proof.
  unfold items_live.
  destruct (update_control_action_state_fields w) as (-> & -> & ->). auto.
Qed.

Lemma add_torrent_item_live (w : MainWindow.t) (state : TorrentState.t) :
  items_live w -> items_live (MainWindow._add_torrent_item w state).
Proof.
  intros (Hni & Hlt & Hd). unfold items_live, MainWindow._add_torrent_item.
  cbn [MainWindow._list_widget MainWindow._torrent_to_item MainWindow.next_item
       QListWidgetItem.ident].
  set (r0 := (QListWidgetItem.mk (MainWindow.next_item w)
                (if TorrentState.single_file_mode state then file_icon else directory_icon)
                (TorrentState.info_hash state) false, TorrentWidgetItem.mk state)).
  pose proof (insertItem_Permutation r0 (MainWindow._list_widget w)) as Hperm.
  change (MainWindow.row_name r0) with (TorrentState.suggested_name state) in Hperm.
  split; [|split].
  - change (map ?f ?l) with (f <$> l). rewrite Hperm. rewrite fmap_cons.
    apply NoDup_cons. split; [|exact Hni].
    change (MainWindow.row_ident r0) with (MainWindow.next_item w).
    intros Hin. apply list_elem_of_fmap in Hin as (r & Hid & Hr).
    apply Hlt in Hr. lia.
  - intros r Hr. rewrite Hperm in Hr. apply elem_of_cons in Hr as [-> | Hr].
    + change (MainWindow.row_ident r0) with (MainWindow.next_item w). lia.
    + apply Hlt in Hr. lia.
  - intros h i Hhi. destruct (decide (TorrentState.info_hash state = h)) as [<- | Hne].
    + rewrite lookup_insert_eq in Hhi. injection Hhi as <-.
      exists r0. split; [rewrite Hperm; left | auto].
    + rewrite lookup_insert_ne in Hhi by exact Hne.
      destruct (Hd h i Hhi) as (r & Hr & Hdata & Hid).
      exists r. split; [rewrite Hperm; right; exact Hr | auto].
Qed.

Lemma update_torrent_item_live (w w' : MainWindow.t) (state : TorrentState.t) :
  items_live w -> MainWindow._update_torrent_item w state = Ok w' -> items_live w'.
Proof.
  intros (Hni & Hlt & Hd). unfold MainWindow._update_torrent_item.
  destruct (MainWindow._torrent_to_item w !! TorrentState.info_hash state) as [item|];
    [|discriminate].
  destruct (MainWindow.row_of (MainWindow._list_widget w) item); [|discriminate].
  intros [= <-]. apply update_control_action_state_live.
  unfold items_live. cbn [MainWindow._list_widget MainWindow._torrent_to_item
    MainWindow.next_item].
  assert (Hids : map MainWindow.row_ident
                   (map (MainWindow.set_widget_state item state) (MainWindow._list_widget w))
                 = map MainWindow.row_ident (MainWindow._list_widget w)).
  { rewrite map_map. apply map_ext. intros r. apply set_widget_state_ident. }
  split; [rewrite Hids; exact Hni|]. split.
  - intros r Hr. change (map ?f ?l) with (f <$> l) in Hr.
    apply list_elem_of_fmap in Hr as (r1 & -> & Hr1).
    rewrite set_widget_state_ident. apply Hlt, Hr1.
  - intros h i Hhi. destruct (Hd h i Hhi) as (r & Hr & Hdata & Hid).
    exists (MainWindow.set_widget_state item state r).
    split; [change (map ?f ?l) with (f <$> l); apply list_elem_of_fmap_2, Hr|].
    rewrite set_widget_state_ident, set_widget_state_data. auto.
Qed.

Lemma remove_torrent_item_live (w w' : MainWindow.t) (info_hash : string) :
  items_live w -> MainWindow._remove_torrent_item w info_hash = Ok w' -> items_live w'.
Proof.
  intros (Hni & Hlt & Hd). unfold MainWindow._remove_torrent_item.
  destruct (MainWindow._torrent_to_item w !! info_hash) as [item|] eqn:Hitem; [|discriminate].
  intros [= <-]. apply update_control_action_state_live.
  unfold items_live. cbn [MainWindow._list_widget MainWindow._torrent_to_item
    MainWindow.next_item].
  pose proof (takeItem_sublist item (MainWindow._list_widget w)) as Hsub.
  destruct (Hd _ _ Hitem) as (r0 & Hr0 & Hdata0 & Hident0).
  split; [|split].
  - change (map ?f ?l) with (f <$> l) in *.
    eapply sublist_NoDup; [exact Hni|]. apply fmap_sublist, Hsub.
  - intros r Hr. apply Hlt. eapply elem_of_sublist; eassumption.
  - intros h i Hhi. destruct (decide (info_hash = h)) as [<- | Hne].
    + rewrite lookup_delete_eq in Hhi. discriminate.
    + rewrite lookup_delete_ne in Hhi by exact Hne.
      destruct (Hd h i Hhi) as (r & Hr & Hdata & Hid).
      exists r. split; [|auto].
      apply takeItem_elem_of; [exact Hni|]. split; [exact Hr|].
      intros Heq. apply Hne.
      assert (r = r0) as -> by (eapply (NoDup_map_inj MainWindow.row_ident); eauto; congruence).
      congruence.
Qed.

Lemma run_items_live (ops : list MainWindow.op) :
  forall w, items_live w -> items_live (MainWindow.run w ops).
Proof.
  induction ops as [|o ops IH]; intros w Hw; [exact Hw|].
  cbn [MainWindow.run fold_left]. apply IH. unfold MainWindow.apply.
  destruct (MainWindow.step w o) as [w'|e] eqn:Hstep; [|exact Hw].
  destruct o as [state|state|info_hash]; cbn [MainWindow.step] in Hstep.
  - injection Hstep as <-. apply add_torrent_item_live, Hw.
  - eapply update_torrent_item_live; eassumption.
  - eapply remove_torrent_item_live; eassumption.
Qed.

Lemma map_one_row (f : MainWindow.row -> MainWindow.row) (rows : list MainWindow.row)
    (n : nat) (r : MainWindow.row) :
  rows !! n = Some r ->
  (forall m r', rows !! m = Some r' -> m <> n -> f r' = r') ->
  map f rows = <[n := f r]> rows.
Proof.
  intros Hn Hother. apply list_eq. intros m.
  change (map f rows) with (f <$> rows). rewrite list_lookup_fmap.
  destruct (decide (m = n)) as [-> | Hne].
  - rewrite list_lookup_insert_eq by (eapply lookup_lt_Some; eassumption).
    rewrite Hn. reflexivity.
  - rewrite list_lookup_insert_ne by congruence.
    destruct (rows !! m) as [r'|] eqn:Hm; [|reflexivity].
    cbn. rewrite (Hother m r' Hm Hne). reflexivity.
Qed.

(** X11. In the window after any signals whatever, admissible or not, a
    changed signal finds the widget of its torrent or raises KeyError: the
    item that the dictionary holds is always an item of the list, so
    [itemWidget] never returns None. When the dictionary has the id, one
    row changes, a row of that torrent, which now shows the snapshot; the
    other rows, their order and the dictionary are as they were. *)
Theorem update_finds_its_widget (ops : list MainWindow.op) (state : TorrentState.t) :
  let w := MainWindow.run MainWindow.__init__ ops in
  let info_hash := TorrentState.info_hash state in
  match MainWindow._update_torrent_item w state with
  | Ok w' =>
      exists n r,
        MainWindow._list_widget w !! n = Some r
        /\ MainWindow.row_data r = info_hash
        /\ MainWindow._torrent_to_item w !! info_hash = Some (MainWindow.row_ident r)
        /\ MainWindow._list_widget w'
           = <[n := (fst r, TorrentWidgetItem.mk state)]> (MainWindow._list_widget w)
        /\ MainWindow._torrent_to_item w' = MainWindow._torrent_to_item w
  | Raise e =>
      e = KeyError info_hash /\ MainWindow._torrent_to_item w !! info_hash = None
  end.
Proof.
  intros w info_hash.
  destruct (run_items_live ops _ init_items_live) as (Hni & _ & Hd). fold w in Hni, Hd.
  unfold MainWindow._update_torrent_item. fold info_hash.
  destruct (MainWindow._torrent_to_item w !! info_hash) as [item|] eqn:Hitem; [|auto].
  destruct (Hd _ _ Hitem) as (r0 & Hr0 & Hdata0 & Hident0).
  destruct (row_of_is_Some _ _ _ Hr0 Hident0) as (n & r & -> & Hn & Hr).
  destruct (update_control_action_state_fields
    (MainWindow.mk (map (MainWindow.set_widget_state item state) (MainWindow._list_widget w))
       (MainWindow._torrent_to_item w) (MainWindow.next_item w)
       (MainWindow.pause_enabled w) (MainWindow.resume_enabled w)
       (MainWindow.remove_enabled w))) as (-> & -> & _).
  cbn [MainWindow._list_widget MainWindow._torrent_to_item].
  assert (r = r0) as ->.
  { eapply (NoDup_map_inj MainWindow.row_ident); eauto; [|congruence].
    apply list_elem_of_lookup. eauto. }
  exists n, r0. split; [exact Hn|]. split; [exact Hdata0|].
  split; [rewrite Hident0; reflexivity|]. split; [|reflexivity].
  rewrite (map_one_row (MainWindow.set_widget_state item state) _ n r0 Hn).
  - unfold MainWindow.set_widget_state. rewrite Hident0, Nat.eqb_refl. reflexivity.
  - intros m r' Hm Hne. unfold MainWindow.set_widget_state.
    destruct (Nat.eqb (MainWindow.row_ident r') item) eqn:Heq; [|reflexivity].
    exfalso. apply Hne. apply Nat.eqb_eq in Heq.
    change (map ?f ?l) with (f <$> l) in Hni.
    eapply NoDup_lookup; [exact Hni | |].
    + rewrite list_lookup_fmap, Hm. reflexivity.
    + rewrite list_lookup_fmap, Hn. cbn. congruence.
Qed.

Lemma takeItem_inserted (item : nat) (r : MainWindow.row) (rows : list MainWindow.row) :
  MainWindow.row_ident r = item ->
  (forall x, x ∈ rows -> MainWindow.row_ident x <> item) ->
  forall n,
    MainWindow.takeItem (MainWindow.row_of (MainWindow.insertItem n r rows) item)
                        (MainWindow.insertItem n r rows)
    = rows.
Proof.
  intros Hr. induction rows as [|x rows IH]; intros Hfresh n.
  - unfold MainWindow.insertItem. rewrite take_nil, drop_nil. cbn [app].
    rewrite takeItem_cons, Hr, Nat.eqb_refl. reflexivity.
  - destruct n as [|n].
    + unfold MainWindow.insertItem. cbn [take drop app].
      rewrite takeItem_cons, Hr, Nat.eqb_refl. reflexivity.
    + change (MainWindow.insertItem (S n) r (x :: rows))
        with (x :: MainWindow.insertItem n r rows).
      rewrite takeItem_cons.
      destruct (Nat.eqb (MainWindow.row_ident x) item) eqn:Hx.
      * apply Nat.eqb_eq in Hx. exfalso. apply (Hfresh x); [left | exact Hx].
      * f_equal. apply IH. intros y Hy. apply Hfresh. right. exact Hy.
Qed.

(** X12. Adding a torrent and removing it again gives back the list: in
    the window after any signals whatever, an added signal followed by the
    removed signal of the same id does not raise, and leaves the rows as
    they were before the two, in the same order, and the dictionary
    without the id. *)
Theorem add_then_remove (ops : list MainWindow.op) (state : TorrentState.t) :
  let w := MainWindow.run MainWindow.__init__ ops in
  let info_hash := TorrentState.info_hash state in
  exists w',
    MainWindow._remove_torrent_item (MainWindow._add_torrent_item w state) info_hash = Ok w'
    /\ MainWindow._list_widget w' = MainWindow._list_widget w
    /\ MainWindow._torrent_to_item w' = delete info_hash (MainWindow._torrent_to_item w).
Proof.
  intros w info_hash.
  destruct (run_items_live ops _ init_items_live) as (_ & Hlt & _). fold w in Hlt.
  unfold MainWindow._remove_torrent_item, MainWindow._add_torrent_item.
  cbn [MainWindow._list_widget MainWindow._torrent_to_item MainWindow.next_item
       QListWidgetItem.ident].
  fold info_hash. rewrite lookup_insert_eq. eexists. split; [reflexivity|].
  match goal with
  | |- context [MainWindow._update_control_action_state ?x] =>
      destruct (update_control_action_state_fields x) as (-> & -> & _)
  end.
  cbn [MainWindow._list_widget MainWindow._torrent_to_item].
  split; [|apply delete_insert_eq].
  apply takeItem_inserted; [reflexivity|].
  intros x Hx Heq. apply Hlt in Hx. lia.
Qed.

(** X13. What Add torrent does, in the window after admissible signals.
    With no file chosen, nothing. With a file that [from_file] fails on, a
    message box with the text of the exception. With a file whose torrent
    is shown in a row of the list, a message box that says This torrent is
    already added, and no dialog. Otherwise, and only then, the adding
    dialog for the torrent. *)
Theorem add_dialog_only_for_new_torrents (ops : list MainWindow.op) (filename : string)
    (parsed : MainWindow.parse_result) :
  Spec.admissible_run MainWindow.__init__ ops ->
  let w := MainWindow.run MainWindow.__init__ ops in
  MainWindow._add_torrent_triggered w filename parsed
  = if decide (filename = "") then None
    else match parsed with
         | MainWindow.Failed message => Some (inl message)
         | MainWindow.Parsed torrent_info =>
             if decide (DownloadInfo.info_hash (TorrentInfo.download_info torrent_info)
                          ∈ Spec.sequence_ids w)
             then Some (inl "This torrent is already added")
             else Some (inr torrent_info)
         end.
Proof.
  intros Hadm w.
  pose proof (run_ok ops _ (List.length ops) init_registry_ok Hadm) as Hok.
  rewrite firstn_all in Hok. fold w in Hok.
  apply registry_ok_invariant in Hok as [_ Hids].
  unfold MainWindow._add_torrent_triggered.
  destruct (decide (filename = "")); [reflexivity|].
  destruct parsed as [torrent_info | message]; [|reflexivity].
  rewrite <- Hids. unfold Spec.dictionary_ids.
  destruct (decide (is_Some (MainWindow._torrent_to_item w
      !! DownloadInfo.info_hash (TorrentInfo.download_info torrent_info)))) as [Hin | Hnotin];
    destruct (decide (DownloadInfo.info_hash (TorrentInfo.download_info torrent_info)
                        ∈ dom (MainWindow._torrent_to_item w))) as [Hdom | Hnotdom];
    try reflexivity.
  - exfalso. apply Hnotdom, elem_of_dom, Hin.
  - exfalso. apply Hnotin, elem_of_dom, Hdom.
Qed.

(** *** Where a new row goes *)

Lemma string_ltb_leb_trans (a b c : string) :
  String.ltb a b = true -> String.leb b c = true -> String.ltb a c = true.
Proof.
  unfold String.ltb, String.leb. revert b c.
  induction a as [|x a IH]; intros [|y b] [|z c]; simpl; try congruence.
  unfold Ascii.compare.
  destruct (N.compare_spec (N_of_ascii x) (N_of_ascii y)) as [Hxy|Hxy|Hxy];
    destruct (N.compare_spec (N_of_ascii y) (N_of_ascii z)) as [Hyz|Hyz|Hyz];
    destruct (N.compare_spec (N_of_ascii x) (N_of_ascii z)) as [Hxz|Hxz|Hxz];
    try congruence; try lia.
  apply IH.
Qed.

Lemma items_upper_split (name : string) (rows : list MainWindow.row) :
  rows_sorted rows ->
  Forall (fun r => String.leb (MainWindow.row_name r) name = true)
         (take (MainWindow.items_upper rows name) rows)
  /\ Forall (fun r => String.ltb name (MainWindow.row_name r) = true)
            (drop (MainWindow.items_upper rows name) rows).
Proof.
  induction 1 as [|x rows Hs IH Hall]; [split; constructor|].
  cbn [MainWindow.items_upper].
  destruct (String.ltb name (MainWindow.row_name x)) eqn:Hlt.
  - split; [constructor|]. cbn [drop]. constructor; [exact Hlt|].
    eapply Forall_impl; [exact Hall|]. intros y Hy.
    eapply string_ltb_leb_trans; [exact Hlt | exact Hy].
  - destruct IH as [Hbefore Hafter]. cbn [take drop]. split; [|exact Hafter].
    constructor; [apply string_not_ltb_leb, Hlt | exact Hbefore].
Qed.

(** X16. Where [_add_torrent_item] puts the row of a torrent, in the
    window after admissible signals: the rows that were there keep their
    order, the new row shows the snapshot and carries the id, every row
    before it has a name that is not greater than the new name, and every
    row after it a name that is greater. So a torrent goes after the
    torrents that have its name. *)
Theorem new_row_goes_after_equal_names (ops : list MainWindow.op) (state : TorrentState.t) :
  Spec.admissible_run MainWindow.__init__ ops ->
  let w := MainWindow.run MainWindow.__init__ ops in
  let w' := MainWindow._add_torrent_item w state in
  exists before new after,
    MainWindow._list_widget w = before ++ after
    /\ MainWindow._list_widget w' = before ++ new :: after
    /\ MainWindow.row_state new = state
    /\ MainWindow.row_data new = TorrentState.info_hash state
    /\ MainWindow._torrent_to_item w' !! TorrentState.info_hash state
       = Some (MainWindow.row_ident new)
    /\ Forall (fun r => String.leb (MainWindow.row_name r)
                                   (TorrentState.suggested_name state) = true) before
    /\ Forall (fun r => String.ltb (TorrentState.suggested_name state)
                                   (MainWindow.row_name r) = true) after.
Proof.
  intros Hadm w w'.
  pose proof (run_ok ops _ (List.length ops) init_registry_ok Hadm) as Hok.
  rewrite firstn_all in Hok. fold w in Hok. destruct Hok as (Hs & _).
  destruct (items_upper_split (TorrentState.suggested_name state) _ Hs) as [Hbefore Hafter].
  eexists _, _, _. split; [symmetry; apply take_drop|].
  split; [reflexivity|]. split; [reflexivity|]. split; [reflexivity|].
  split; [apply lookup_insert_eq|]. split; [exact Hbefore | exact Hafter].
Qed.

(** ** Control actions on an id the engine does not know *)

(** C5. A pause, resume or remove of an id that the engine does not know
    raises NotFound inside [_invoke_control_action], which suppresses it:
    the coroutine completes with a result and not an exception, no signal
    was emitted, and the engine is as it was. *)
Theorem unknown_id_is_suppressed (act : MainWindow.action) (info_hash : string)
    (control : ControlManager.t) :
  act = ControlManager.pause \/ act = ControlManager.resume \/ act = ControlManager.remove ->
  ControlManager.torrents control !! info_hash = None ->
  MainWindow._invoke_control_action act info_hash control = (Ok tt, control, []).
Proof.
  intros Hact Hunknown. unfold MainWindow._invoke_control_action.
  destruct Hact as [->|[->| ->]];
    unfold ControlManager.pause, ControlManager.resume, ControlManager.remove;
    rewrite Hunknown; reflexivity.
Qed.

(** ** The thread of the engine *)

Lemma occurrences_emit (is_it : ControlManagerThread.effect -> bool)
    (es : list ControlManagerThread.effect) (self : ControlManagerThread.t) :
  ControlManagerThread.occurrences is_it (ControlManagerThread.emit es self)
  = (ControlManagerThread.occurrences is_it self + List.length (List.filter is_it es))%nat.
Proof.
  unfold ControlManagerThread.occurrences, ControlManagerThread.emit. simpl.
  rewrite List.filter_app, length_app. reflexivity.
Qed.





(** C8, as the code has it. When the engine has started: if there is no
    state file, [run] loads nothing and enters [run_forever]; if there is
    one and opening or loading it raises, [run] ends with that exception,
    the loop is closed, [run_forever] was never entered and nothing was
    saved. *)
Theorem load_state_at_startup (o : ControlManagerThread.outcomes) :
  ControlManagerThread.control_start_result o = Ok tt ->
  let self := ControlManagerThread.run_enter o ControlManagerThread.__init__ in
  (ControlManagerThread.state_file_found o = false ->
     ControlManagerThread._loop self = Some ControlManagerThread.LoopRunning
     /\ ControlManagerThread.finished self = None
     /\ ControlManagerThread.occurrences ControlManagerThread.is_control_load self = 0%nat
     /\ ControlManagerThread.occurrences ControlManagerThread.is_run_forever self = 1%nat)
  /\ (ControlManagerThread.state_file_found o = true ->
      forall e,
        ControlManagerThread.open_rb_result o = Raise e
        \/ (ControlManagerThread.open_rb_result o = Ok tt
            /\ ControlManagerThread.control_load_result o = Raise e) ->
        ControlManagerThread.finished self = Some (Raise e)
        /\ ControlManagerThread._loop self = Some ControlManagerThread.LoopClosed
        /\ ControlManagerThread.occurrences ControlManagerThread.is_run_forever self = 0%nat
        /\ ControlManagerThread.saves self = 0%nat).
Proof.
  intros Hstart self. subst self.
  unfold ControlManagerThread.run_enter, ControlManagerThread._load_state.
  rewrite Hstart. split.
  - intros ->. repeat split; reflexivity.
  - intros -> e [Hopen|[Hopen Hload]]; rewrite Hopen; [|rewrite Hload];
      repeat split; reflexivity.
Qed.

(** *** A whole life of the thread *)


(** X15. When the engine does not start, [run] ends with the exception of
    [control.start()] right away: the loop was created and is closed, the
    state file was not looked for, [run_forever] was not entered and
    nothing was saved. A [stop] afterwards raises on the closed loop: it
    schedules nothing and does not wait, but it has set [_stopping], so
    the next [stop] returns at once. *)
Theorem engine_start_failure (o o' o'' : ControlManagerThread.outcomes) (e : exn) :
  ControlManagerThread.control_start_result o = Raise e ->
  let self := ControlManagerThread.run_enter o ControlManagerThread.__init__ in
  ControlManagerThread.trace self
  = [ControlManagerThread.new_event_loop; ControlManagerThread.set_event_loop;
     ControlManagerThread.control_start; ControlManagerThread.loop_close]
  /\ ControlManagerThread.finished self = Some (Raise e)
  /\ ControlManagerThread._loop self = Some ControlManagerThread.LoopClosed
  /\ fst (ControlManagerThread.stop o' self) = Raise (RuntimeError "Event loop is closed")
  /\ ControlManagerThread.trace (snd (ControlManagerThread.stop o' self))
     = ControlManagerThread.trace self
  /\ ControlManagerThread.stop o'' (snd (ControlManagerThread.stop o' self))
     = (Ok tt, snd (ControlManagerThread.stop o' self)).
Proof.
  intros Hstart self. subst self. unfold ControlManagerThread.run_enter.
  rewrite Hstart. repeat split; reflexivity.
Qed.

(** ** A scenario, and the theorems at work on it *)

Example scenario_of_the_specification :
  let self := TorrentAddingDialog.toggles humanize scenario only_y_and_z in
  Spec.selectedCount self = 2
  /\ Spec.selectedSize self = 250
  /\ checkState <$> forest_at (TorrentAddingDialog.file_tree self) [0; 0]%nat
     = Some Qt.PartiallyChecked
  /\ checkState <$> forest_at (TorrentAddingDialog.file_tree self) [0; 1]%nat
     = Some Qt.Checked
  /\ checkState <$> forest_at (TorrentAddingDialog.file_tree self) [0]%nat
     = Some Qt.PartiallyChecked
  /\ TorrentAddingDialog._selection_label self = "Selected 2 files (250 B)"
  /\ TorrentAddingDialog.ok_enabled self = true.
Proof. vm_compute. repeat split; reflexivity. Qed.

Lemma upward_aggregation_witness :
  exists a,
    forest_at
      (TorrentAddingDialog.file_tree
         (TorrentAddingDialog.toggle humanize
            (TorrentAddingDialog.toggles humanize scenario [([0%nat], Qt.Unchecked)])
            [0; 0; 1]%nat Qt.Checked))
      [0; 0]%nat = Some a
    /\ checkState a = Spec.aggregate (map checkState (children a)).
Proof.
  apply (upward_aggregation humanize scenario [([0%nat], Qt.Unchecked)]
           [0; 0; 1]%nat Qt.Checked) with (j := 1%nat) (rest := []).
  - vm_compute. eauto.
  - reflexivity.
  - discriminate.
Defined.

Lemma downward_propagation_witness :
  exists x,
    forest_at
      (TorrentAddingDialog.file_tree
         (TorrentAddingDialog.toggle humanize scenario [0; 0]%nat Qt.Unchecked))
      ([0; 0] ++ [1])%nat = Some x
    /\ checkState x = Qt.Unchecked.
Proof.
  eexists. split.
  - vm_compute. reflexivity.
  - apply (downward_propagation humanize scenario [0; 0]%nat Qt.Unchecked) with (q := [1%nat]).
    + vm_compute. eauto.
    + vm_compute. reflexivity.
Defined.

Lemma single_file_submission_witness :
  let self :=
    TorrentAddingDialog.toggles humanize single_file_dialog [([0%nat], Qt.Checked)] in
  List.length (TorrentAddingDialog.file_tree self) = 1%nat
  /\ TorrentAddingDialog.ok_enabled
       (TorrentAddingDialog.toggle humanize self [0%nat] Qt.Unchecked) = false
  /\ snd (TorrentAddingDialog.submit_torrent self (TorrentAddingDialog.mkClass "/data"))
     = [TorrentAddingDialog.call_soon_threadsafe_add
          (TorrentInfo.set_download_dir "/data" single_file_info);
        TorrentAddingDialog.close].
Proof.
  apply (single_file_submission humanize (TorrentAddingDialog.mkClass "/home/user")
           (TorrentAddingDialog.mkClass "/data") "disk.torrent" single_file_info
           [([0%nat], Qt.Checked)]).
  reflexivity.
Defined.

(** C9, what the code does where the specification says that no tree is
    made and the torrent stays selected: the dialog of a torrent of one file
    has a tree, of one checkable item for the file, and a pair in
    [_file_items] for it; the user can uncheck the item, and then there is
    nothing to download and the torrent cannot be submitted. *)
Lemma single_file_tree_is_built :
  TorrentAddingDialog.file_tree single_file_dialog
  = [mkItem 0 "disk.img" "4096 B" (Some file_icon) Qt.Checked []]
  /\ TorrentAddingDialog._file_items single_file_dialog = [(single_file, 0%nat)]
  /\ let unchecked := TorrentAddingDialog.toggle humanize single_file_dialog [0]%nat Qt.Unchecked in
     TorrentAddingDialog.ok_enabled unchecked = false
     /\ TorrentAddingDialog._selection_label unchecked = "Nothing to download".
Proof. vm_compute. repeat split; reflexivity. Qed.

Lemma download_directory_is_shared_witness :
  let st' :=
    Sessions.run humanize
      (Sessions.step humanize session_with_dialog (Sessions.browse "/mnt/media"))
      later_events in
  TorrentAddingDialog.selected_download_dir (Sessions.cls st') = "/mnt/media"
  /\ TorrentAddingDialog._path_edit
       (TorrentAddingDialog.__init__ humanize (Sessions.cls st') "other.torrent"
          single_file_info)
     = "/mnt/media".
Proof.
  apply (download_directory_is_shared humanize session_with_dialog "/mnt/media"
           later_events "other.torrent" single_file_info).
  - vm_compute. eauto.
  - discriminate.
  - repeat constructor.
Defined.

Lemma registry_invariant_after_each_witness :
  Spec.registry_invariant (MainWindow.run MainWindow.__init__ (take 3 signals)).
Proof.
  apply (registry_invariant_after_each signals 3). simpl.
  split; [reflexivity|]. split; [reflexivity|]. split; [|split; [exact I|exact I]].
  intros r Hr Hdata. vm_compute in Hr.
  apply elem_of_cons in Hr as [->|Hr]; [discriminate|].
  apply elem_of_cons in Hr as [->|Hr]; [reflexivity|]. inversion Hr.
Defined.

(** C2, where the invariant fails for a sequence of the three operations. A
    torrent added a second time under its id and then removed leaves a row
    of that id while the dictionary has none; and a snapshot with another
    name leaves the rows out of order. *)
Lemma registry_invariant_counterexample :
  (let w := MainWindow.run MainWindow.__init__
              [MainWindow.added alpha; MainWindow.added alpha; MainWindow.removed "aa"] in
   ("aa" ∈ Spec.sequence_ids w) /\ ("aa" ∉ Spec.dictionary_ids w)
   /\ ~ Spec.registry_invariant w)
  /\ (let w := MainWindow.run MainWindow.__init__
                 [MainWindow.added alpha; MainWindow.added beta;
                  MainWindow.changed beta_renamed] in
      map MainWindow.row_name (MainWindow._list_widget w) = ["alpha"; "aardvark"]
      /\ ~ Spec.registry_invariant w).
Proof.
  split.
  - intros w.
    assert (Hseq : "aa" ∈ Spec.sequence_ids w).
    { unfold Spec.sequence_ids. apply elem_of_list_to_set. vm_compute. apply elem_of_cons. auto. }
    assert (Hdict : "aa" ∉ Spec.dictionary_ids w).
    { unfold Spec.dictionary_ids. rewrite elem_of_dom. intros [i Hi].
      vm_compute in Hi. discriminate. }
    split; [exact Hseq|]. split; [exact Hdict|].
    intros [_ Heq]. rewrite Heq in Hdict. contradiction.
  - intros w. split; [reflexivity|].
    intros [Hsorted _].
    specialize (Hsorted 0%nat 1%nat).
    vm_compute in Hsorted.
    specialize (Hsorted _ _ (le_n 1) eq_refl eq_refl). discriminate.
Qed.

Lemma unknown_id_is_suppressed_witness :
  MainWindow._invoke_control_action ControlManager.pause "aa" (ControlManager.mk ∅)
  = (Ok tt, ControlManager.mk ∅, []).
Proof.
  apply (unknown_id_is_suppressed ControlManager.pause "aa" (ControlManager.mk ∅)).
  - left. reflexivity.
  - reflexivity.
Defined.



Lemma load_state_at_startup_witness :
  let self := ControlManagerThread.run_enter corrupt_state_file ControlManagerThread.__init__ in
  ControlManagerThread.finished self = Some (Raise (OtherError "invalid load key"))
  /\ ControlManagerThread._loop self = Some ControlManagerThread.LoopClosed
  /\ ControlManagerThread.occurrences ControlManagerThread.is_run_forever self = 0%nat
  /\ ControlManagerThread.saves self = 0%nat.
Proof.
  destruct (load_state_at_startup corrupt_state_file eq_refl) as [_ Hfail].
  apply Hfail; [reflexivity|]. right. split; reflexivity.
Defined.

(** C8, where a failure to load is no cold start: with a state file that
    cannot be loaded, [run] is over with the exception of the load before
    the loop ever runs; the trace holds no recovery and no [run_forever]. *)
Lemma load_failure_ends_run :
  let self := ControlManagerThread.run_enter corrupt_state_file ControlManagerThread.__init__ in
  ControlManagerThread.finished self = Some (Raise (OtherError "invalid load key"))
  /\ ControlManagerThread.trace self
     = [ControlManagerThread.new_event_loop; ControlManagerThread.set_event_loop;
        ControlManagerThread.control_start; ControlManagerThread.isfile true;
        ControlManagerThread.open_rb; ControlManagerThread.control_load;
        ControlManagerThread.loop_close]
  /\ ControlManagerThread.occurrences ControlManagerThread.is_run_forever self = 0%nat.
Proof. vm_compute. repeat split; reflexivity. Qed.

(** ** The further properties at work on the scenarios *)

Lemma aggregation_everywhere_witness :
  exists x,
    forest_at
      (TorrentAddingDialog.file_tree
         (TorrentAddingDialog.toggles humanize scenario only_y_and_z))
      [0; 0]%nat = Some x
    /\ checkState x = Spec.aggregate (map checkState (children x)).
Proof.
  eexists. split.
  - vm_compute. reflexivity.
  - apply (aggregation_everywhere humanize (TorrentAddingDialog.mkClass "/home/user")
             "album.torrent" scenario_info only_y_and_z [0; 0]%nat).
    + vm_compute. reflexivity.
    + discriminate.
Defined.

Lemma decided_items_decide_below_witness :
  exists x y,
    forest_at
      (TorrentAddingDialog.file_tree
         (TorrentAddingDialog.toggles humanize scenario only_y_and_z))
      [0; 1]%nat = Some x
    /\ item_at x [0%nat] = Some y
    /\ checkState y = checkState x.
Proof.
  eexists. eexists. split; [vm_compute; reflexivity|]. split; [vm_compute; reflexivity|].
  apply (decided_items_decide_below humanize (TorrentAddingDialog.mkClass "/home/user")
           "album.torrent" scenario_info only_y_and_z [0; 1]%nat [0%nat]).
  - vm_compute. reflexivity.
  - vm_compute. reflexivity.
  - discriminate.
Defined.

Lemma selection_bounds_witness :
  let self := TorrentAddingDialog.toggles humanize scenario only_y_and_z in
  0 <= Spec.selectedCount self <= Z.of_nat (List.length (files_of scenario_tree))
  /\ 0 <= Spec.selectedSize self <= total_length (files_of scenario_tree).
Proof.
  apply (selection_bounds humanize (TorrentAddingDialog.mkClass "/home/user")
           "album.torrent" scenario_info only_y_and_z).
  repeat constructor; discriminate.
Defined.

Lemma no_empty_whitelist_witness :
  [["b"; "z.txt"]] <> [] /\ "whitelist" = "whitelist".
Proof.
  apply (no_empty_whitelist humanize "/home/user" submit_b_only [["b"; "z.txt"]] "whitelist").
  - constructor; [simpl; discriminate|]. constructor; [left; reflexivity|].
    constructor; [right; reflexivity|]. constructor; [exact I|]. constructor.
  - vm_compute. left. reflexivity.
Defined.

Lemma submitted_directory_is_the_one_shown_witness :
  let st := Sessions.run humanize (Sessions.start "/home/user") choose_directory in
  let st' := Sessions.step humanize st Sessions.ok_clicked in
  Sessions.dialog st' = None
  /\ exists selecting,
       Sessions.calls st'
       = Sessions.calls st ++ selecting
         ++ [TorrentAddingDialog.call_soon_threadsafe_add
               (TorrentInfo.set_download_dir "/mnt/media" scenario_info);
             TorrentAddingDialog.close]
       /\ (List.length selecting <= 1)%nat.
Proof.
  apply (submitted_directory_is_the_one_shown humanize "/home/user" choose_directory
           (TorrentAddingDialog.set_path_edit "/mnt/media" scenario)).
  - vm_compute. reflexivity.
  - reflexivity.
Defined.

Lemma signals_admissible : Spec.admissible_run MainWindow.__init__ signals.
Proof.
  simpl. split; [reflexivity|]. split; [reflexivity|]. split; [|split; [exact I|exact I]].
  intros r Hr Hdata. vm_compute in Hr.
  apply elem_of_cons in Hr as [->|Hr]; [discriminate|].
  apply elem_of_cons in Hr as [->|Hr]; [reflexivity|]. inversion Hr.
Qed.

Lemma add_dialog_only_for_new_torrents_witness :
  let w := MainWindow.run MainWindow.__init__ signals in
  MainWindow._add_torrent_triggered w "beta.torrent"
    (MainWindow.Parsed
       (TorrentInfo.mk (DownloadInfo.mk "bb" "beta" (File single_file) [single_file] 4096 true)
                       [] None))
  = if decide ("beta.torrent" = "") then None
    else if decide ("bb" ∈ Spec.sequence_ids w)
         then Some (inl "This torrent is already added")
         else Some
                (inr (TorrentInfo.mk
                        (DownloadInfo.mk "bb" "beta" (File single_file) [single_file] 4096 true)
                        [] None)).
Proof.
  apply (add_dialog_only_for_new_torrents signals "beta.torrent"
           (MainWindow.Parsed
              (TorrentInfo.mk
                 (DownloadInfo.mk "bb" "beta" (File single_file) [single_file] 4096 true)
                 [] None))).
  exact signals_admissible.
Defined.

Lemma new_row_goes_after_equal_names_witness :
  let w := MainWindow.run MainWindow.__init__ signals in
  let w' := MainWindow._add_torrent_item w alpha in
  exists before new after,
    MainWindow._list_widget w = before ++ after
    /\ MainWindow._list_widget w' = before ++ new :: after
    /\ MainWindow.row_state new = alpha
    /\ MainWindow.row_data new = TorrentState.info_hash alpha
    /\ MainWindow._torrent_to_item w' !! TorrentState.info_hash alpha
       = Some (MainWindow.row_ident new)
    /\ Forall (fun r => String.leb (MainWindow.row_name r)
                                   (TorrentState.suggested_name alpha) = true) before
    /\ Forall (fun r => String.ltb (TorrentState.suggested_name alpha)
                                   (MainWindow.row_name r) = true) after.
Proof.
  apply (new_row_goes_after_equal_names signals alpha).
  exact signals_admissible.
Defined.

Lemma engine_start_failure_witness :
  let self :=
    ControlManagerThread.run_enter engine_does_not_start ControlManagerThread.__init__ in
  ControlManagerThread.trace self
  = [ControlManagerThread.new_event_loop; ControlManagerThread.set_event_loop;
     ControlManagerThread.control_start; ControlManagerThread.loop_close]
  /\ ControlManagerThread.finished self = Some (Raise (OtherError "address already in use"))
  /\ ControlManagerThread._loop self = Some ControlManagerThread.LoopClosed
  /\ fst (ControlManagerThread.stop all_well self)
     = Raise (RuntimeError "Event loop is closed")
  /\ ControlManagerThread.trace (snd (ControlManagerThread.stop all_well self))
     = ControlManagerThread.trace self
  /\ ControlManagerThread.stop all_well (snd (ControlManagerThread.stop all_well self))
     = (Ok tt, snd (ControlManagerThread.stop all_well self)).
Proof.
  apply (engine_start_failure engine_does_not_start all_well all_well
           (OtherError "address already in use")).
  reflexivity.
Defined.

Lemma selection_totals_after_toggles_witness :
  let self' :=
    TorrentAddingDialog.toggle humanize
      (TorrentAddingDialog.toggles humanize scenario [([0%nat], Qt.Unchecked)])
      [0; 1; 0]%nat Qt.Checked in
  map fst (Spec.file_leaves self') = files_of scenario_tree
  /\ TorrentAddingDialog.selected_totals self' = (Spec.checked_count self', Spec.checked_size self')
  /\ TorrentAddingDialog._selection_label self'
     = (if decide (Spec.checked_count self' = 0) then "Nothing to download"
        else TorrentAddingDialog.SELECTION_LABEL_FORMAT (Spec.checked_count self')
               (humanize (Spec.checked_size self'))).
Proof.
  apply (selection_totals_after_toggles humanize (TorrentAddingDialog.mkClass "/home/user")
           "album.torrent" scenario_info [([0%nat], Qt.Unchecked)] [0; 1; 0]%nat Qt.Checked).
  - reflexivity.
  - vm_compute. eauto.
Defined.

Lemma submission_enabled_iff_selected_witness :
  let self := TorrentAddingDialog.toggles humanize scenario [([0%nat], Qt.Unchecked)] in
  TorrentAddingDialog.ok_enabled self = negb (Z.eqb (Spec.checked_count self) 0).
Proof.
  apply (submission_enabled_iff_selected humanize (TorrentAddingDialog.mkClass "/home/user")
           "album.torrent" scenario_info [([0%nat], Qt.Unchecked)]).
  - reflexivity.
  - left. discriminate.
Defined.

(** C7, where the code misses it. The dialog of a torrent that has no file
    starts with no leaf Checked and with the Ok button enabled: [__init__]
    leaves the button as the toolkit makes it and does not call
    [_update_selection_label], which every click does. Submitted as it is,
    the dialog asks the engine for an empty whitelist. After a click on its
    item the button is disabled. *)
Lemma file_less_dialog_can_be_submitted :
  let cls := TorrentAddingDialog.mkClass "/home/user" in
  let self := TorrentAddingDialog.__init__ humanize cls "empty.torrent" no_files_info in
  Spec.checked_count self = 0
  /\ Spec.selectedCount self = 0
  /\ TorrentAddingDialog.ok_enabled self = true
  /\ TorrentAddingDialog._selection_label self = "Selected 0 files (0 B)"
  /\ snd (TorrentAddingDialog.submit_torrent self cls)
     = [TorrentAddingDialog.select_files [] "whitelist";
        TorrentAddingDialog.call_soon_threadsafe_add
          (TorrentInfo.set_download_dir "/home/user" no_files_info);
        TorrentAddingDialog.close]
  /\ TorrentAddingDialog.ok_enabled
       (TorrentAddingDialog.toggle humanize self [0%nat] Qt.Checked) = false.
Proof. vm_compute. repeat split; reflexivity. Qed.

Lemma multi_file_submission_witness :
  let self := TorrentAddingDialog.toggles humanize scenario only_y_and_z in
  Spec.checked_files self `sublist_of` files_of scenario_tree
  /\ Spec.selectedCount self = Z.of_nat (List.length (Spec.checked_files self))
  /\ Spec.selectedSize self = total_length (Spec.checked_files self)
  /\ snd (TorrentAddingDialog.submit_torrent self (TorrentAddingDialog.mkClass "/mnt/media"))
     = [TorrentAddingDialog.select_files (map FileInfo.path (Spec.checked_files self))
          "whitelist";
        TorrentAddingDialog.call_soon_threadsafe_add
          (TorrentInfo.set_download_dir "/mnt/media" scenario_info);
        TorrentAddingDialog.close]
  /\ TorrentAddingDialog.closed
       (fst (TorrentAddingDialog.submit_torrent self
               (TorrentAddingDialog.mkClass "/mnt/media"))) = true.
Proof.
  apply (multi_file_submission humanize (TorrentAddingDialog.mkClass "/home/user")
           (TorrentAddingDialog.mkClass "/mnt/media") "album.torrent" scenario_info
           only_y_and_z).
  - reflexivity.
  - reflexivity.
Defined.
